(** * frontsense: runtime branch coverage

    A model of the runtime collector (src/core/runtime-collector.ts) and of the
    Babel instrumentation pass (src/babel-plugin.ts), with the properties of
    the branch statistics, of the sampling gate, of the execution summary and
    of the rewritten conditionals.

    Conventions of the model.
    - JavaScript objects live in a heap and are named by references, so that
      two names for one object see each other's writes.
    - A plain object used as a table is an association list kept in insertion
      order; own keys are enumerated as the language does (array-index keys
      first, ascending, then the other keys in insertion order).
    - The keys of a table are branch ids and file names; none of them is the
      name of a property inherited from [Object.prototype].
    - Counters are natural numbers (they start at 0 and are only incremented);
      clock readings and rates are exact rationals standing for the doubles.
    - Strings are sequences of one-byte characters (ASCII source text). *)

From Stdlib Require Import ZArith QArith Qround Qabs String Ascii List Bool Lia Lqa.
From stdpp Require Import base option list strings pretty.

Local Open Scope string_scope.
Local Open Scope list_scope.
Local Open Scope Z_scope.

(** ** JavaScript primitives *)

Module Js.

(** Primitive values that reach the collector as the result of a test. *)
Inductive value :=
  | VUndefined
  | VNull
  | VBool (b : bool)
  | VNum (n : Z)
  | VStr (s : string).

(** ToBoolean. *)
Definition truthy (v : value) : bool :=
  match v with
  | VUndefined | VNull => false
  | VBool b => b
  | VNum n => negb (n =? 0)
  | VStr s => negb (String.eqb s "")
  end.

(** Strict equality [===] on primitives. *)
Definition strict_equal (a b : value) : bool :=
  match a, b with
  | VUndefined, VUndefined | VNull, VNull => true
  | VBool x, VBool y => Bool.eqb x y
  | VNum x, VNum y => x =? y
  | VStr x, VStr y => String.eqb x y
  | _, _ => false
  end.

Definition Qltb (x y : Q) : bool :=
  match (x ?= y)%Q with Lt => true | _ => false end.

(** [x % 1]: the remainder takes the sign of the dividend, so the integer part
    removed is the truncation towards zero. *)
Definition Qtrunc (x : Q) : Z :=
  if Qltb x 0 then Qceiling x else Qfloor x.

Definition rem1 (x : Q) : Q := (x - inject_Z (Qtrunc x))%Q.

Definition is_digit (c : ascii) : bool :=
  ((48 <=? nat_of_ascii c) && (nat_of_ascii c <=? 57))%nat.

Definition digit_value (c : ascii) : Z := Z.of_nat (nat_of_ascii c) - 48.

(** White space skipped by [parseInt] and [trim] (the one-byte ones). *)
Definition is_space (c : ascii) : bool :=
  let n := nat_of_ascii c in
  ((n =? 32) || ((9 <=? n) && (n <=? 13)))%nat.

Fixpoint skip_spaces (s : string) : string :=
  match s with
  | String c r => if is_space c then skip_spaces r else s
  | EmptyString => s
  end.

(** Value of the longest prefix of decimal digits, [None] when it is empty. *)
Fixpoint leading_digits (acc : option Z) (s : string) : option Z :=
  match s with
  | String c r =>
      if is_digit c
      then leading_digits (Some (10 * default 0 acc + digit_value c)) r
      else acc
  | EmptyString => acc
  end.

(** [parseInt(s, 10)]; [None] is NaN. *)
Definition parseInt (s : string) : option Z :=
  match skip_spaces s with
  | String "-" r => Z.opp <$> leading_digits None r
  | String "+" r => leading_digits None r
  | r => leading_digits None r
  end.

(** [s.split(c)] for a one-character separator. *)
Fixpoint split (c : ascii) (s : string) : list string :=
  match s with
  | EmptyString => [EmptyString]
  | String a r =>
      if Ascii.eqb a c then EmptyString :: split c r
      else match split c r with
           | x :: xs => String a x :: xs
           | [] => [String a EmptyString]
           end
  end.

(** A stable sort; [le x y] says that [x] may stay in front of [y]. *)
Section Sort.
Context {A : Type} (le : A → A → bool).

Fixpoint insert_sorted (x : A) (l : list A) : list A :=
  match l with
  | [] => [x]
  | y :: l' => if le x y then x :: l else y :: insert_sorted x l'
  end.

Definition sort (l : list A) : list A := foldr insert_sorted [] l.
End Sort.

End Js.

(** ** Plain objects used as tables *)

Module JsObject.

(** Own properties, in insertion order. *)
Abbreviation t V := (list (string * V)) (only parsing).

Section Table.
Context {V : Type}.
Abbreviation t := (t V).

Fixpoint get (o : t) (k : string) : option V :=
  match o with
  | [] => None
  | (k', v) :: o' => if String.eqb k' k then Some v else get o' k
  end.

(** [o[k] = v]: an existing key keeps its place. *)
Fixpoint set (o : t) (k : string) (v : V) : t :=
  match o with
  | [] => [(k, v)]
  | (k', v') :: o' =>
      if String.eqb k' k then (k', v) :: o' else (k', v') :: set o' k v
  end.

Fixpoint delete (o : t) (k : string) : t :=
  match o with
  | [] => []
  | (k', v') :: o' =>
      if String.eqb k' k then o' else (k', v') :: delete o' k
  end.

Fixpoint all_digits (s : string) : bool :=
  match s with
  | EmptyString => true
  | String c r => Js.is_digit c && all_digits r
  end.

(** A key is an array index when it is the canonical decimal form of an
    integer below 2^32 - 1. *)
Definition array_index (k : string) : option Z :=
  match k with
  | EmptyString => None
  | String c r =>
      if all_digits k && (negb (Ascii.eqb c "0") || String.eqb r "")
      then match Js.leading_digits None k with
           | Some n => if n <? 2 ^ 32 - 1 then Some n else None
           | None => None
           end
      else None
  end.

Definition index_le (a b : string * V) : bool :=
  match array_index a.1, array_index b.1 with
  | Some i, Some j => i <=? j
  | _, _ => true
  end.

(** Own keys in enumeration order, as [Object.entries]. *)
Definition is_index (k : string) : bool :=
  match array_index k with Some _ => true | None => false end.

Definition entries (o : t) : list (string * V) :=
  Js.sort index_le (List.filter (λ p, is_index p.1) o)
    ++ List.filter (λ p, negb (is_index p.1)) o.

Definition keys (o : t) : list string := fst <$> entries o.
Definition values (o : t) : list V := snd <$> entries o.

(** [{ ...o }]: a new object that receives the own properties of [o] in
    enumeration order. *)
Definition spread (o : t) : t := entries o.
End Table.

End JsObject.

(** ** Data model (src/types/index.ts) *)

(** A reference to a heap object. *)
Abbreviation loc := nat (only parsing).

Record BranchHit := {
  branchId : string;
  file : string;
  line : option Z;             (* [None] is NaN *)
  column : option Z;
  type : string;
  condition : string;
  hitCount : nat;
  missCount : nat;
  timestamp : Q;
  executionTime : option Q
}.

Record SamplingConfig := {
  enabled : bool;
  sampleRate : Q;
  maxSamplesPerSecond : Q;
  collectExecutionTime : bool
}.

Record RuntimeCoverageConfig := {
  cfg_enabled : bool;
  sampling : SamplingConfig;
  excludePatterns : list string;
  includePatterns : list string;
  sendToAnalytics : bool;
  analyticsEndpoint : option string;
  visualizationEnabled : bool
}.

(** [BranchStats]: a table from branch id to a reference to its record. *)
Abbreviation BranchStats := (JsObject.t loc) (only parsing).

(** ** The collector (src/core/runtime-collector.ts) *)

(** The fields of a [RuntimeCoverageCollector] together with the heap its
    tables and records live in. *)
Record state := {
  tables : list BranchStats;
  records : list BranchHit;
  branchStats : loc;
  samplingConfig : SamplingConfig;
  config : RuntimeCoverageConfig;
  sampleCounter : nat;
  lastSampleTime : Q;
  sessionId : string
}.

Definition set_tables (f : list BranchStats → list BranchStats) (s : state) : state :=
  {| tables := f (tables s); records := records s; branchStats := branchStats s;
     samplingConfig := samplingConfig s; config := config s;
     sampleCounter := sampleCounter s; lastSampleTime := lastSampleTime s;
     sessionId := sessionId s |}.

Definition set_records (f : list BranchHit → list BranchHit) (s : state) : state :=
  {| tables := tables s; records := f (records s); branchStats := branchStats s;
     samplingConfig := samplingConfig s; config := config s;
     sampleCounter := sampleCounter s; lastSampleTime := lastSampleTime s;
     sessionId := sessionId s |}.

Definition set_branchStats (l : loc) (s : state) : state :=
  {| tables := tables s; records := records s; branchStats := l;
     samplingConfig := samplingConfig s; config := config s;
     sampleCounter := sampleCounter s; lastSampleTime := lastSampleTime s;
     sessionId := sessionId s |}.

Definition set_sampleCounter (n : nat) (s : state) : state :=
  {| tables := tables s; records := records s; branchStats := branchStats s;
     samplingConfig := samplingConfig s; config := config s;
     sampleCounter := n; lastSampleTime := lastSampleTime s;
     sessionId := sessionId s |}.

Definition set_lastSampleTime (q : Q) (s : state) : state :=
  {| tables := tables s; records := records s; branchStats := branchStats s;
     samplingConfig := samplingConfig s; config := config s;
     sampleCounter := sampleCounter s; lastSampleTime := q;
     sessionId := sessionId s |}.

(** The object behind a table reference. *)
Definition table_at (s : state) (l : loc) : BranchStats :=
  default [] (tables s !! l).

(** [{}] and object literals: a new object at the next free reference. *)
Definition alloc_table (o : BranchStats) (s : state) : loc * state :=
  (length (tables s), set_tables (λ ts, ts ++ [o]) s).

Definition alloc_record (b : BranchHit) (s : state) : loc * state :=
  (length (records s), set_records (λ rs, rs ++ [b]) s).

(** [new RuntimeCoverageCollector(config)]; the session id is drawn by the
    constructor from the clock and the random generator, and is given here. *)
Definition new_collector (cfg : RuntimeCoverageConfig) (sid : string) : state :=
  {| tables := [[]]; records := []; branchStats := 0%nat;
     samplingConfig := sampling cfg; config := cfg;
     sampleCounter := 0; lastSampleTime := 0; sessionId := sid |}.

(** The comparison is made in exact numbers here; [Double.shouldSample]
    below rounds the product as the program does. The two agree where the
    product is not rounded. *)
Definition shouldSample (s : state) : bool * state :=
  let s := set_sampleCounter (S (sampleCounter s)) s in
  (Js.Qltb
     (Js.rem1 (inject_Z (Z.of_nat (sampleCounter s)) * sampleRate (samplingConfig s)))
     (sampleRate (samplingConfig s)),
   s).

(** [1000 / maxSamplesPerSecond] is infinite for a cap of zero, and every
    elapsed time is below it. *)
Definition isRateLimited (now : Q) (s : state) : bool * state :=
  let timeSinceLastSample := (now - lastSampleTime s)%Q in
  let cap := maxSamplesPerSecond (samplingConfig s) in
  if (if Qeq_bool cap 0 then true
      else Js.Qltb timeSinceLastSample (1000 / cap))
  then (true, s)
  else (false, set_lastSampleTime now s).

Definition bump (conditionResult : Js.value) (b : BranchHit) : BranchHit :=
  {| branchId := branchId b; file := file b; line := line b; column := column b;
     type := type b; condition := condition b;
     hitCount := if Js.truthy conditionResult then S (hitCount b) else hitCount b;
     missCount := if Js.truthy conditionResult then missCount b else S (missCount b);
     timestamp := timestamp b; executionTime := executionTime b |}.

Definition set_executionTime (q : Q) (b : BranchHit) : BranchHit :=
  {| branchId := branchId b; file := file b; line := line b; column := column b;
     type := type b; condition := condition b;
     hitCount := hitCount b; missCount := missCount b;
     timestamp := timestamp b; executionTime := Some q |}.

Definition set_timestamp (q : Q) (b : BranchHit) : BranchHit :=
  {| branchId := branchId b; file := file b; line := line b; column := column b;
     type := type b; condition := condition b;
     hitCount := hitCount b; missCount := missCount b;
     timestamp := q; executionTime := executionTime b |}.

(** The record created for a branch id seen for the first time. *)
Definition new_record (id ty conditionCode : string) (now : Q) : BranchHit :=
  let parts := Js.split ":" id in
  {| branchId := id;
     file := default "" (parts !! 0%nat);
     line := parts !! 1%nat ≫= Js.parseInt;
     column := parts !! 2%nat ≫= Js.parseInt;
     type := ty; condition := conditionCode;
     hitCount := 0; missCount := 0;
     timestamp := now; executionTime := None |}.

(** The statements of [recordBranchHit] after the two gates. [now] is the
    clock reading taken after the sampling gate and [later] the one taken when
    the execution time is collected. *)
Definition store_event (id ty conditionCode : string) (conditionResult : Js.value)
    (collect : bool) (now later : Q) (s : state) : state :=
  let s :=
    match JsObject.get (table_at s (branchStats s)) id with
    | Some _ => s
    | None =>
        let '(r, s) := alloc_record (new_record id ty conditionCode now) s in
        set_tables (alter (λ o, JsObject.set o id r) (branchStats s)) s
    end in
  match JsObject.get (table_at s (branchStats s)) id with
  | None => s
  | Some branch =>
      let s := set_records (alter (bump conditionResult) branch) s in
      let s := if collect
               then set_records (alter (set_executionTime (later - now)) branch) s
               else s in
      set_records (alter (set_timestamp now) branch) s
  end.

Definition recordBranchHit (id ty conditionCode : string) (conditionResult : Js.value)
    (collect : bool) (now later : Q) (s : state) : Js.value * state :=
  let '(sampled, s) :=
    if enabled (samplingConfig s) then shouldSample s else (true, s) in
  if negb sampled then (conditionResult, s)
  else
    let '(limited, s) :=
      if enabled (samplingConfig s) then isRateLimited now s else (false, s) in
    if limited then (conditionResult, s)
    else (conditionResult, store_event id ty conditionCode conditionResult collect now later s).

(** [{ ...this.branchStats }]: the caller receives a reference to a new table. *)
Definition getBranchStats (s : state) : loc * state :=
  alloc_table (JsObject.spread (table_at s (branchStats s))) s.

Record FileStats := {
  fs_total : nat; fs_hit : nat; fs_dead : nat; fs_hot : nat; fs_cold : nat
}.

Record Summary := {
  totalBranches : nat;
  hitBranches : nat;
  deadBranches : nat;
  hotBranches : nat;
  coldBranches : nat;
  coverageRate : Q
}.

Record FileRank := { fr_file : string; fr_branches : nat; fr_totalBranches : nat }.

Record ExecutionSummary := {
  summary : Summary;
  fileStats : JsObject.t FileStats;
  topDeadCodeFiles : list FileRank;
  topHotPathFiles : list FileRank
}.

Definition count (p : BranchHit → bool) (stats : list BranchHit) : nat :=
  length (List.filter p stats).

(** One step of the [reduce] that builds [fileStats]. *)
Definition add_to_file (acc : JsObject.t FileStats) (branch : BranchHit)
    : JsObject.t FileStats :=
  let acc :=
    match JsObject.get acc (file branch) with
    | Some _ => acc
    | None => JsObject.set acc (file branch)
                {| fs_total := 0; fs_hit := 0; fs_dead := 0; fs_hot := 0; fs_cold := 0 |}
    end in
  match JsObject.get acc (file branch) with
  | None => acc
  | Some f =>
      let h := hitCount branch in
      JsObject.set acc (file branch)
        {| fs_total := S (fs_total f);
           fs_dead := if (h =? 0)%nat then S (fs_dead f) else fs_dead f;
           fs_hot := if (h =? 0)%nat then fs_hot f
                     else if (100 <? h)%nat then S (fs_hot f) else fs_hot f;
           fs_cold := if (h =? 0)%nat then fs_cold f
                      else if (100 <? h)%nat then fs_cold f
                      else if (h <? 5)%nat then S (fs_cold f) else fs_cold f;
           fs_hit := if (h =? 0)%nat then fs_hit f
                     else if (100 <? h)%nat then fs_hit f
                     else if (h <? 5)%nat then fs_hit f else S (fs_hit f) |}
  end.

Definition rank_files (key : FileStats → nat) (fs : JsObject.t FileStats)
    : list FileRank :=
  (λ p, {| fr_file := p.1; fr_branches := key p.2; fr_totalBranches := fs_total p.2 |})
    <$> take 10
          (Js.sort (λ a b, (key b.2 <=? key a.2)%nat)
             (List.filter (λ p, (0 <? key p.2)%nat) (JsObject.entries fs))).

(** [Object.values(this.branchStats)], each reference followed to its record. *)
Definition stats_of (s : state) : list BranchHit :=
  omap (λ l, records s !! l) (JsObject.values (table_at s (branchStats s))).

Definition summarize (stats : list BranchHit) : ExecutionSummary :=
  let totalBranches := length stats in
  let hitBranches := count (λ b, (0 <? hitCount b)%nat) stats in
  let coldBranches :=
    count (λ b, (0 <? hitCount b)%nat && (hitCount b <? 5)%nat) stats in
  let hotBranches := count (λ b, (100 <? hitCount b)%nat) stats in
  let deadBranches := count (λ b, (hitCount b =? 0)%nat) stats in
  let fileStats := foldl add_to_file [] stats in
  {| summary :=
       {| totalBranches := totalBranches;
          hitBranches := hitBranches;
          deadBranches := deadBranches;
          hotBranches := hotBranches;
          coldBranches := coldBranches;
          coverageRate :=
            if (0 <? totalBranches)%nat
            then (inject_Z (Z.of_nat hitBranches) / inject_Z (Z.of_nat totalBranches))%Q
            else 0%Q |};
     fileStats := fileStats;
     topDeadCodeFiles := rank_files fs_dead fileStats;
     topHotPathFiles := rank_files fs_hot fileStats |}.

Definition getExecutionSummary (s : state) : ExecutionSummary :=
  summarize (stats_of s).

Definition clearStats (s : state) : state :=
  let '(l, s) := alloc_table [] s in
  set_lastSampleTime 0 (set_sampleCounter 0 (set_branchStats l s)).

Record ExportData := {
  ed_branchStats : loc;
  ed_executionSummary : ExecutionSummary;
  ed_config : RuntimeCoverageConfig;
  ed_sessionId : string
}.

Definition exportData (s : state) : ExportData * state :=
  let '(l, s) := getBranchStats s in
  ({| ed_branchStats := l;
      ed_executionSummary := getExecutionSummary s;
      ed_config := config s;
      ed_sessionId := sessionId s |}, s).

(** ** Histories of collector calls *)

(** The two gates of [recordBranchHit] taken together: whether the event goes
    through, and the gate counters afterwards. *)
Definition gate (now : Q) (s : state) : bool * state :=
  if enabled (samplingConfig s)
  then let '(sampled, s) := shouldSample s in
       if sampled
       then let '(limited, s) := isRateLimited now s in (negb limited, s)
       else (false, s)
  else (true, s).

Inductive call :=
  | RecordBranchHit (id ty conditionCode : string) (conditionResult : Js.value)
      (collect : bool) (now later : Q)
  | ClearStats.

Definition step (s : state) (c : call) : state :=
  match c with
  | RecordBranchHit id ty code r collect now later =>
      (recordBranchHit id ty code r collect now later s).2
  | ClearStats => clearStats s
  end.

Definition run (s : state) (cs : list call) : state := foldl step s cs.

(** The branch ids of the events that went through the gates since the table
    was last emptied, most recent first. *)
Fixpoint recorded (log : list string) (s : state) (cs : list call) : list string :=
  match cs with
  | [] => log
  | c :: cs =>
      recorded
        match c with
        | RecordBranchHit id _ _ _ _ now _ =>
            if (gate now s).1 then id :: log else log
        | ClearStats => []
        end
        (step s c) cs
  end.

(** The record the collector holds for a branch id. *)
Definition lookup_branch (s : state) (id : string) : option BranchHit :=
  JsObject.get (table_at s (branchStats s)) id ≫= λ l, records s !! l.

Definition observations (b : option BranchHit) : nat :=
  match b with
  | Some b => hitCount b + missCount b
  | None => 0
  end.

Definition calls_for (id : string) (cs : list call) : nat :=
  length (List.filter
            (λ c, match c with
                  | RecordBranchHit id' _ _ _ _ _ _ => String.eqb id' id
                  | ClearStats => false
                  end) cs).

Definition only_records (cs : list call) : bool :=
  forallb (λ c, match c with RecordBranchHit _ _ _ _ _ _ _ => true | ClearStats => false end) cs.

(** What a holder of a table reference [l] can do with it: write or delete
    one of its keys, or follow a key to the record and write that record. *)
Inductive mutation :=
  | SetKey (k : string) (r : loc)
  | DeleteKey (k : string)
  | WriteRecord (k : string) (f : BranchHit → BranchHit).

Definition own_property (m : mutation) : bool :=
  match m with
  | SetKey _ _ | DeleteKey _ => true
  | WriteRecord _ _ => false
  end.

Definition mutate (l : loc) (s : state) (m : mutation) : state :=
  match m with
  | SetKey k r => set_tables (alter (λ o, JsObject.set o k r) l) s
  | DeleteKey k => set_tables (alter (λ o, JsObject.delete o k) l) s
  | WriteRecord k f =>
      match JsObject.get (table_at s l) k with
      | Some r => set_records (alter f r) s
      | None => s
      end
  end.

Definition mutations (l : loc) (s : state) (ms : list mutation) : state :=
  foldl (mutate l) s ms.

(** A table as data: its keys in enumeration order, each with the record its
    reference leads to. *)
Definition snapshot (s : state) (l : loc) : list (string * option BranchHit) :=
  (λ p, (p.1, records s !! p.2)) <$> JsObject.entries (table_at s l).

(** The dead-branch count as the specification words it. *)
Definition spec_deadBranches (stats : list BranchHit) : nat :=
  count (λ b, (hitCount b =? 0)%nat && (missCount b =? 0)%nat) stats.

(** ** The instrumentation pass (src/babel-plugin.ts) *)

Module Ast.

#[local] Set Warnings "-register-all".

(** The node types the visitors read or build, and enough of the language to
    write tests with effects. *)
Inductive Expression :=
  | StringLiteral (value : string)
  | NumericLiteral (value : Z)
  | BooleanLiteral (value : bool)
  | NullLiteral
  | Identifier (name : string)
  | MemberExpression (object property : Expression)
  | CallExpression (callee : Expression) (arguments : list Expression)
  | SequenceExpression (expressions : list Expression)
  | ConditionalExpression (test consequent alternate : Expression)
  | LogicalExpression (operator : string) (left right : Expression)
  | BinaryExpression (operator : string) (left right : Expression)
  | UpdateExpression (operator : string) (prefix : bool) (argument : Expression)
  | AssignmentExpression (left : string) (right : Expression).

Inductive Statement :=
  | ExpressionStatement (expression : Expression)
  | BlockStatement (body : list Statement)
  | IfStatement (test : Expression) (consequent : Statement)
      (alternate : option Statement)
  | SwitchStatement (discriminant : Expression)
      (cases : list (option Expression * list Statement))
  | BreakStatement.

(** A switch case: its label ([None] for [default]) and its body. *)
Abbreviation SwitchCase := (option Expression * list Statement)%type (only parsing).

Record JSXExpressionContainer := { expression : Expression }.

End Ast.

Import Ast.

(** What a visitor reads from the path besides the node itself. *)
Record NodePath := {
  loc_start : option (nat * nat);    (* [node.loc?.start] as (line, column) *)
  getSource : string
}.

Record InstrumentationContext := {
  fileName : string;
  branchCounter : nat;
  ctx_config : RuntimeCoverageConfig
}.

Definition next_branch (c : InstrumentationContext) : InstrumentationContext :=
  {| fileName := fileName c; branchCounter := S (branchCounter c);
     ctx_config := ctx_config c |}.

Module Str.

(** [s.replace(pat, rep)] for a string pattern: the first occurrence only. *)
Fixpoint replace (pat rep s : string) : string :=
  if String.prefix pat s
  then rep +:+ String.substring (String.length pat) (String.length s) s
  else match s with
       | EmptyString => EmptyString
       | String c r => String c (replace pat rep r)
       end.

(** [s.replace(/^\//, '')]. *)
Definition drop_leading_slash (s : string) : string :=
  match s with
  | String c r => if Ascii.eqb c "/" then r else s
  | EmptyString => s
  end.

Fixpoint includes (s pat : string) : bool :=
  String.prefix pat s
  || match s with
     | EmptyString => false
     | String _ r => includes r pat
     end.

(** [s.indexOf(c)], [None] for -1. *)
Fixpoint indexOf (c : ascii) (s : string) : option nat :=
  match s with
  | EmptyString => None
  | String a r => if Ascii.eqb a c then Some 0%nat else S <$> indexOf c r
  end.

(** [s.slice(from, to)] for indexes that are not negative. *)
Definition slice (from to : nat) (s : string) : string :=
  String.substring from (to - from) s.

Definition trimEnd (s : string) : string :=
  String.rev (Js.skip_spaces (String.rev s)).

Definition trim (s : string) : string := trimEnd (Js.skip_spaces s).

Fixpoint span (p : ascii → bool) (s : string) : string * string :=
  match s with
  | String c r =>
      if p c then let '(a, b) := span p r in (String c a, b) else (EmptyString, s)
  | EmptyString => (EmptyString, EmptyString)
  end.

(** Group 1 of [/case\s+([^:]+):/] when the match starts at the head of [s]. *)
Definition case_label_here (s : string) : option string :=
  if String.prefix "case" s
  then
    let '(ws, rest) := span Js.is_space (String.substring 4 (String.length s) s) in
    let '(label, after) := span (λ c, negb (Ascii.eqb c ":")) rest in
    match after with
    | String _ _ =>
        match label, String.length ws with
        | String _ _, S _ => Some label
        | EmptyString, S (S n) => Some (String.substring (S n) 1 ws)
        | _, _ => None
        end
    | EmptyString => None
    end
  else None.

(** Group 1 of the leftmost match of [/case\s+([^:]+):/] in [s]. *)
Fixpoint case_label (s : string) : option string :=
  match case_label_here s with
  | Some l => Some l
  | None =>
      match s with
      | EmptyString => None
      | String _ r => case_label r
      end
  end.

End Str.

Section Plugin.

(** [process.cwd()] of the build. *)
Variable cwd : string.

Definition createBranchId (fileName : string) (line column : nat) (type : string)
    (counter : nat) : string :=
  let cleanFileName := Str.drop_leading_slash (Str.replace cwd "" fileName) in
  cleanFileName +:+ ":" +:+ pretty line +:+ ":" +:+ pretty column +:+ ":"
    +:+ type +:+ "#" +:+ pretty counter.

Definition createInstrumentationCall (branchId conditionCode : string)
    (conditionResult : Expression) (type : string) (collectExecutionTime : bool)
    : Expression :=
  let args := [StringLiteral branchId; StringLiteral type;
               StringLiteral conditionCode; conditionResult] in
  let args := if collectExecutionTime then args ++ [BooleanLiteral true]
              else args in
  CallExpression
    (MemberExpression
       (MemberExpression (Identifier "window") (Identifier "__RUNTIME_COVERAGE__"))
       (Identifier "recordBranchHit"))
    args.

(** [Program.enter]: no context for a file that matches an exclude pattern. *)
Definition Program_enter (config : RuntimeCoverageConfig) (filename : string)
    : option InstrumentationContext :=
  let fileName := if String.eqb filename "" then "unknown" else filename in
  if existsb
       (λ pattern, Str.includes fileName
                     (Str.replace "*" "" (Str.replace "**/" "" pattern)))
       (excludePatterns config)
  then None
  else Some {| fileName := fileName; branchCounter := 0; ctx_config := config |}.

Definition collects (context : InstrumentationContext) : bool :=
  collectExecutionTime (sampling (ctx_config context)).

(** The pair that replaces a tested expression. *)
Definition instrument (context : InstrumentationContext) (path : NodePath)
    (type conditionCode : string) (test : Expression) : Expression :=
  let '(line, column) := default (0%nat, 0%nat) (loc_start path) in
  let branchId :=
    createBranchId (fileName context) line column type (branchCounter context) in
  SequenceExpression
    [createInstrumentationCall branchId conditionCode test type (collects context);
     test].

(** Each visitor returns the node as it leaves it and the context; without a
    context (an excluded file) the node stays as it is. *)
Definition visit_IfStatement (path : NodePath) (node : Statement)
    (state : option InstrumentationContext)
    : Statement * option InstrumentationContext :=
  match state, node with
  | Some context, IfStatement test consequent alternate =>
      let conditionCode :=
        Str.slice 3 (default 0%nat (S <$> Str.indexOf ")" (getSource path)))
          (getSource path) in
      (IfStatement (instrument context path "if" conditionCode test)
         consequent alternate,
       Some (next_branch context))
  | _, _ => (node, state)
  end.

Definition visit_ConditionalExpression (path : NodePath) (node : Expression)
    (state : option InstrumentationContext)
    : Expression * option InstrumentationContext :=
  match state, node with
  | Some context, ConditionalExpression test consequent alternate =>
      let conditionCode :=
        Str.trim (default "" (head (Js.split "?" (getSource path)))) in
      (ConditionalExpression (instrument context path "ternary" conditionCode test)
         consequent alternate,
       Some (next_branch context))
  | _, _ => (node, state)
  end.

(** One step of the [forEach] over the cases of a switch. *)
Definition instrument_case (path : NodePath) (caseNode : SwitchCase)
    (context : InstrumentationContext) : SwitchCase * InstrumentationContext :=
  match caseNode with
  | (Some test, consequent) =>
      let '(line, column) := default (0%nat, 0%nat) (loc_start path) in
      let caseId :=
        createBranchId (fileName context) line column "switch-case"
          (branchCounter context) in
      let conditionCode :=
        "case " +:+ match Str.case_label (getSource path) with
                    | Some l => l
                    | None => "unknown"
                    end in
      let instrumentation :=
        ExpressionStatement
          (createInstrumentationCall caseId conditionCode test "switch-case"
             (collects context)) in
      ((Some test, instrumentation :: consequent), next_branch context)
  | (None, _) => (caseNode, context)
  end.

Fixpoint instrument_cases (path : NodePath) (cases : list SwitchCase)
    (context : InstrumentationContext)
    : list SwitchCase * InstrumentationContext :=
  match cases with
  | [] => ([], context)
  | caseNode :: cases =>
      let '(caseNode, context) := instrument_case path caseNode context in
      let '(cases, context) := instrument_cases path cases context in
      (caseNode :: cases, context)
  end.

Definition visit_SwitchStatement (path : NodePath) (node : Statement)
    (state : option InstrumentationContext)
    : Statement * option InstrumentationContext :=
  match state, node with
  | Some context, SwitchStatement discriminant cases =>
      let '(cases, context) := instrument_cases path cases context in
      (SwitchStatement discriminant cases, Some context)
  | _, _ => (node, state)
  end.

Definition visit_LogicalExpression (path : NodePath) (node : Expression)
    (state : option InstrumentationContext)
    : Expression * option InstrumentationContext :=
  match state, node with
  | Some context, LogicalExpression operator lhs rhs =>
      if String.eqb operator "&&" || String.eqb operator "||"
      then (LogicalExpression operator
              (instrument context path "logical" (getSource path) lhs) rhs,
            Some (next_branch context))
      else (node, state)
  | _, _ => (node, state)
  end.

Definition visit_JSXExpressionContainer (path : NodePath)
    (node : JSXExpressionContainer) (state : option InstrumentationContext)
    : JSXExpressionContainer * option InstrumentationContext :=
  match state with
  | Some context =>
      match expression node with
      | LogicalExpression operator lhs rhs =>
          if String.eqb operator "&&"
          then ({| expression :=
                     LogicalExpression operator
                       (instrument context path "jsx-conditional"
                          (getSource path) lhs) rhs |},
                Some (next_branch context))
          else (node, state)
      | ConditionalExpression test consequent alternate =>
          let conditionCode :=
            Str.trim (default "" (head (Js.split "?" (getSource path)))) in
          ({| expression :=
                ConditionalExpression
                  (instrument context path "jsx-ternary" conditionCode test)
                  consequent alternate |},
           Some (next_branch context))
      | _ => (node, state)
      end
  | None => (node, state)
  end.

End Plugin.

(** The arguments the instrumentation call passes once the test has a value. *)
Definition call_args (cwd : string) (context : InstrumentationContext) (path : NodePath)
    (type conditionCode : string) (v : Js.value) : list Js.value :=
  let '(line, column) := default (0%nat, 0%nat) (loc_start path) in
  [Js.VStr (createBranchId cwd (fileName context) line column type
              (branchCounter context));
   Js.VStr type; Js.VStr conditionCode; v]
  ++ (if collects context then [Js.VBool true] else []).

(** ** Running instrumented code *)

(** The page: its variables, the collector behind
    [window.__RUNTIME_COVERAGE__] if one has been installed, and the position
    in the series of clock readings. *)
Record world := {
  vars : JsObject.t Js.value;
  coverage : option state;
  ticks : nat
}.

Definition set_var (x : string) (v : Js.value) (w : world) : world :=
  {| vars := JsObject.set (vars w) x v; coverage := coverage w; ticks := ticks w |}.

Inductive completion := Normal | Break.

Section Eval.

(** [performance.now()] at its n-th reading. *)
Variable performance_now : nat → Q.

Definition is_recordBranchHit (callee : Expression) : bool :=
  match callee with
  | MemberExpression (MemberExpression (Identifier a) (Identifier b)) (Identifier c) =>
      String.eqb a "window" && String.eqb b "__RUNTIME_COVERAGE__"
      && String.eqb c "recordBranchHit"
  | _ => false
  end.

(** The call [window.__RUNTIME_COVERAGE__.recordBranchHit(...)] on evaluated
    arguments; the fifth parameter defaults to false. Two clock readings are
    set aside for each call. The call is not guarded: where no collector has
    been installed, reading [recordBranchHit] of [undefined] throws. *)
Definition call_recordBranchHit (args : list Js.value) (w : world)
    : option (Js.value * world) :=
  match coverage w, args with
  | Some collector, Js.VStr id :: Js.VStr ty :: Js.VStr code :: r :: rest =>
      let collect := match rest with
                     | [] | Js.VUndefined :: _ => false
                     | c :: _ => Js.truthy c
                     end in
      let '(v, s) :=
        recordBranchHit id ty code r collect
          (performance_now (ticks w)) (performance_now (S (ticks w)))
          collector in
      Some (v, {| vars := vars w; coverage := Some s; ticks := S (S (ticks w)) |})
  | _, _ => None
  end.

Definition binary (operator : string) (a b : Js.value) : option Js.value :=
  if String.eqb operator "===" then Some (Js.VBool (Js.strict_equal a b))
  else if String.eqb operator "!==" then Some (Js.VBool (negb (Js.strict_equal a b)))
  else match a, b with
       | Js.VNum x, Js.VNum y =>
           if String.eqb operator "<" then Some (Js.VBool (x <? y))
           else if String.eqb operator "<=" then Some (Js.VBool (x <=? y))
           else if String.eqb operator ">" then Some (Js.VBool (y <? x))
           else if String.eqb operator ">=" then Some (Js.VBool (y <=? x))
           else if String.eqb operator "+" then Some (Js.VNum (x + y))
           else if String.eqb operator "-" then Some (Js.VNum (x - y))
           else None
       | _, _ => None
       end.

(** Evaluation of an expression; [None] for a form outside the fragment or a
    run-time error. *)
Fixpoint eval (e : Expression) (w : world) {struct e} : option (Js.value * world) :=
  match e with
  | StringLiteral s => Some (Js.VStr s, w)
  | NumericLiteral n => Some (Js.VNum n, w)
  | BooleanLiteral b => Some (Js.VBool b, w)
  | NullLiteral => Some (Js.VNull, w)
  | Identifier x => (λ v, (v, w)) <$> JsObject.get (vars w) x
  | MemberExpression _ _ => None
  | CallExpression callee args =>
      if is_recordBranchHit callee
      then
        '(vs, w) ←
          (fix eval_args (args : list Expression) (w : world)
             : option (list Js.value * world) :=
             match args with
             | [] => Some ([], w)
             | a :: args =>
                 '(v, w) ← eval a w;
                 '(vs, w) ← eval_args args w;
                 Some (v :: vs, w)
             end) args w;
        call_recordBranchHit vs w
      else None
  | SequenceExpression es =>
      (fix eval_seq (es : list Expression) (last : option Js.value) (w : world)
         : option (Js.value * world) :=
         match es with
         | [] => (λ v, (v, w)) <$> last
         | e :: es => '(v, w) ← eval e w; eval_seq es (Some v) w
         end) es None w
  | ConditionalExpression test consequent alternate =>
      '(v, w) ← eval test w;
      if Js.truthy v then eval consequent w else eval alternate w
  | LogicalExpression operator lhs rhs =>
      '(v, w) ← eval lhs w;
      if String.eqb operator "&&"
      then if Js.truthy v then eval rhs w else Some (v, w)
      else if String.eqb operator "||"
      then if Js.truthy v then Some (v, w) else eval rhs w
      else None
  | BinaryExpression operator lhs rhs =>
      '(a, w) ← eval lhs w;
      '(b, w) ← eval rhs w;
      (λ v, (v, w)) <$> binary operator a b
  | UpdateExpression operator prefix argument =>
      match argument with
      | Identifier x =>
          match JsObject.get (vars w) x with
          | Some (Js.VNum n) =>
              let n' := if String.eqb operator "++" then n + 1 else n - 1 in
              if String.eqb operator "++" || String.eqb operator "--"
              then Some (Js.VNum (if prefix then n' else n), set_var x (Js.VNum n') w)
              else None
          | _ => None
          end
      | _ => None
      end
  | AssignmentExpression x rhs =>
      '(v, w) ← eval rhs w;
      Some (v, set_var x v w)
  end.

(** The case a switch starts at: the first one whose label is strictly equal
    to the discriminant, the labels being evaluated in order until then. The
    result is the position of that case, counted from [i]. *)
Fixpoint select_case (v : Js.value) (cases : list SwitchCase) (i : nat) (w : world)
    : option (option nat * world) :=
  match cases with
  | [] => Some (None, w)
  | (Some test, _) :: rest =>
      '(l, w) ← eval test w;
      if Js.strict_equal v l then Some (Some i, w) else select_case v rest (S i) w
  | (None, _) :: rest => select_case v rest (S i) w
  end.

(** The position of [default], or past the last case without one. *)
Fixpoint default_case (cases : list SwitchCase) : nat :=
  match cases with
  | [] => 0
  | (None, _) :: _ => 0
  | _ :: rest => S (default_case rest)
  end.

Fixpoint exec (st : Statement) (w : world) {struct st} : option (completion * world) :=
  let exec_list :=
    fix exec_list (body : list Statement) (w : world) : option (completion * world) :=
      match body with
      | [] => Some (Normal, w)
      | st :: body =>
          '(c, w) ← exec st w;
          match c with
          | Normal => exec_list body w
          | Break => Some (Break, w)
          end
      end in
  match st with
  | ExpressionStatement e => '(_, w) ← eval e w; Some (Normal, w)
  | BlockStatement body => exec_list body w
  | IfStatement test consequent alternate =>
      '(v, w) ← eval test w;
      if Js.truthy v then exec consequent w
      else match alternate with
           | Some alternate => exec alternate w
           | None => Some (Normal, w)
           end
  | SwitchStatement discriminant cases =>
      '(v, w) ← eval discriminant w;
      '(selected, w) ← select_case v cases 0 w;
      '(_, w) ←
        (fix fall_through (cases : list SwitchCase) (skip : nat) (w : world)
           : option (completion * world) :=
           match cases with
           | [] => Some (Normal, w)
           | (_, body) :: cases =>
               match skip with
               | S skip => fall_through cases skip w
               | O =>
                   '(c, w) ← exec_list body w;
                   match c with
                   | Normal => fall_through cases 0%nat w
                   | Break => Some (Break, w)
                   end
               end
           end) cases (default (default_case cases) selected) w;
      Some (Normal, w)
  | BreakStatement => Some (Break, w)
  end.

End Eval.

(** ** Well-formed collector states *)

(** What one accepted event does to the record of its branch. *)
Definition touch (conditionResult : Js.value) (collect : bool) (now later : Q)
    (b : BranchHit) : BranchHit :=
  set_timestamp now
    ((if collect then set_executionTime (later - now) else id)
       (bump conditionResult b)).

(** The collector's table is allocated, every key refers to an allocated
    record, and no record is shared between two keys. *)
Record wf (s : state) : Prop := {
  wf_table : (branchStats s < length (tables s))%nat;
  wf_refs : ∀ id l,
    JsObject.get (table_at s (branchStats s)) id = Some l →
    (l < length (records s))%nat;
  wf_inj : ∀ id1 id2 l,
    JsObject.get (table_at s (branchStats s)) id1 = Some l →
    JsObject.get (table_at s (branchStats s)) id2 = Some l →
    id1 = id2
}.

Definition occurrences (id : string) (log : list string) : nat :=
  length (List.filter (String.eqb id) log).

(** What the table and the log have in common. *)
Definition agrees (log : list string) (s : state) : Prop :=
  ∀ id,
    (is_Some (JsObject.get (table_at s (branchStats s)) id) ↔ id ∈ log)
    ∧ observations (lookup_branch s id) = occurrences id log.

(** ** Configurations *)

(** [DEFAULT_CONFIG] of the instrumentation pass. *)
Definition DEFAULT_CONFIG : RuntimeCoverageConfig :=
  {| cfg_enabled := true;
     sampling := {| enabled := false; sampleRate := 1;
                    maxSamplesPerSecond := 1000; collectExecutionTime := false |};
     excludePatterns := ["node_modules/**"; "**/*.test.*"; "**/*.spec.*"];
     includePatterns := ["**/*.{js,jsx,ts,tsx}"];
     sendToAnalytics := false;
     analyticsEndpoint := None;
     visualizationEnabled := true |}.

(** The same configuration with sampling switched on at a given rate. *)
Definition sampled_config (rate : Q) : RuntimeCoverageConfig :=
  {| cfg_enabled := true;
     sampling := {| enabled := true; sampleRate := rate;
                    maxSamplesPerSecond := 1000; collectExecutionTime := false |};
     excludePatterns := excludePatterns DEFAULT_CONFIG;
     includePatterns := includePatterns DEFAULT_CONFIG;
     sendToAnalytics := false;
     analyticsEndpoint := None;
     visualizationEnabled := true |}.

(** ** Sample programs *)

Module Sample.

Definition cwd : string := "/home/app".
Definition filename : string := "/home/app/src/App.tsx".

(** A clock that advances by one millisecond at every reading. *)
Definition clock (n : nat) : Q := inject_Z (Z.of_nat n).

Definition page (x : Z) : world :=
  {| vars := [("x", Js.VNum x); ("y", Js.VNum 0)];
     coverage := Some (new_collector DEFAULT_CONFIG "session");
     ticks := 0 |}.

Definition assign (x : string) (n : Z) : Statement :=
  ExpressionStatement (AssignmentExpression x (NumericLiteral n)).

(** [if (x++ < 1) y = 1; else y = 2;] *)
Definition if_source : string := "if (x++ < 1) y = 1; else y = 2;".
Definition if_test : Expression :=
  BinaryExpression "<" (UpdateExpression "++" false (Identifier "x")) (NumericLiteral 1).
Definition if_statement : Statement :=
  IfStatement if_test (assign "y" 1) (Some (assign "y" 2)).
Definition if_path : NodePath :=
  {| loc_start := Some (10, 4)%nat; getSource := if_source |}.
Definition if_instrumented : Statement :=
  (visit_IfStatement cwd if_path if_statement
     (Program_enter DEFAULT_CONFIG filename)).1.

(** [switch (x) { case 0: y = 1; break; case 1: y = 2; }] *)
Definition switch_source : string :=
  "switch (x) { case 0: y = 1; break; case 1: y = 2; }".
Definition switch_statement : Statement :=
  SwitchStatement (Identifier "x")
    [(Some (NumericLiteral 0), [assign "y" 1; BreakStatement]);
     (Some (NumericLiteral 1), [assign "y" 2])].
Definition switch_path : NodePath :=
  {| loc_start := Some (20, 2)%nat; getSource := switch_source |}.
Definition switch_instrumented : Statement :=
  (visit_SwitchStatement cwd switch_path switch_statement
     (Program_enter DEFAULT_CONFIG filename)).1.

(** The variables a run ends with. *)
Definition final_vars (r : option (completion * world)) : option (JsObject.t Js.value) :=
  (λ p, vars p.2) <$> r.

(** The record of a branch a run ends with. *)
Definition final_branch (r : option (completion * world)) (id : string)
    : option BranchHit :=
  r ≫= λ p, coverage p.2 ≫= λ collector, lookup_branch collector id.

End Sample.

(** ** The rest of the collector (src/core/runtime-collector.ts) *)

Definition set_config (c : RuntimeCoverageConfig) (s : state) : state :=
  {| tables := tables s; records := records s; branchStats := branchStats s;
     samplingConfig := samplingConfig s; config := c;
     sampleCounter := sampleCounter s; lastSampleTime := lastSampleTime s;
     sessionId := sessionId s |}.

Definition set_samplingConfig (sc : SamplingConfig) (s : state) : state :=
  {| tables := tables s; records := records s; branchStats := branchStats s;
     samplingConfig := sc; config := config s;
     sampleCounter := sampleCounter s; lastSampleTime := lastSampleTime s;
     sessionId := sessionId s |}.

(** [Partial<RuntimeCoverageConfig>]: [None] is a property that is absent. *)
Record PartialConfig := {
  p_enabled : option bool;
  p_sampling : option SamplingConfig;
  p_excludePatterns : option (list string);
  p_includePatterns : option (list string);
  p_sendToAnalytics : option bool;
  p_analyticsEndpoint : option string;
  p_visualizationEnabled : option bool
}.

(** [{ ...config, ...newConfig }] *)
Definition merge_config (c : RuntimeCoverageConfig) (p : PartialConfig)
    : RuntimeCoverageConfig :=
  {| cfg_enabled := default (cfg_enabled c) (p_enabled p);
     sampling := default (sampling c) (p_sampling p);
     excludePatterns := default (excludePatterns c) (p_excludePatterns p);
     includePatterns := default (includePatterns c) (p_includePatterns p);
     sendToAnalytics := default (sendToAnalytics c) (p_sendToAnalytics p);
     analyticsEndpoint :=
       match p_analyticsEndpoint p with
       | Some e => Some e
       | None => analyticsEndpoint c
       end;
     visualizationEnabled :=
       default (visualizationEnabled c) (p_visualizationEnabled p) |}.

Definition updateConfig (newConfig : PartialConfig) (s : state) : state :=
  let s := set_config (merge_config (config s) newConfig) s in
  set_samplingConfig (default (samplingConfig s) (p_sampling newConfig)) s.

(** [{ ...target, ...source }] on a target that is already a new object: the
    own properties of the source are written in enumeration order. *)
Definition object_assign {V} (target source : JsObject.t V) : JsObject.t V :=
  foldl (λ o p, JsObject.set o p.1 p.2) target (JsObject.entries source).

(** [importData(data)], given the table [data.branchStats]: its keys and the
    references to its records. *)
Definition importData (data : BranchStats) (s : state) : state :=
  let '(l, s) :=
    alloc_table
      (object_assign (object_assign [] (table_at s (branchStats s))) data) s in
  set_branchStats l s.

(** ** Analysis helpers (src/utils/dev-tools.tsx) *)

(** The records of the table [getBranchStats] returns, in enumeration order. *)
Definition copied_stats (s : state) : list BranchHit * state :=
  let '(l, s) := getBranchStats s in
  (omap (λ r, records s !! r) (JsObject.values (table_at s l)), s).

Definition findDeadCode (s : state) : list BranchHit * state :=
  let '(stats, s) := copied_stats s in
  (List.filter (λ branch, (hitCount branch =? 0)%nat && (missCount branch =? 0)%nat)
     stats, s).

Definition hit_rate (branch : BranchHit) : Q :=
  (inject_Z (Z.of_nat (hitCount branch))
   / inject_Z (Z.of_nat (hitCount branch + missCount branch)))%Q.

Definition findHotPaths (threshold : nat) (s : state) : list BranchHit * state :=
  let '(stats, s) := copied_stats s in
  (List.filter
     (λ branch,
        let total := (hitCount branch + missCount branch)%nat in
        (threshold <? total)%nat && Js.Qltb (8 # 10) (hit_rate branch))
     stats, s).

Definition findColdPaths (maxExecutions : nat) (s : state) : list BranchHit * state :=
  let '(stats, s) := copied_stats s in
  (List.filter
     (λ branch,
        let total := (hitCount branch + missCount branch)%nat in
        (0 <? total)%nat && (total <=? maxExecutions)%nat)
     stats, s).

(** ** Counting the calls of a history *)

Definition hits (b : option BranchHit) : nat := from_option hitCount 0%nat b.
Definition misses (b : option BranchHit) : nat := from_option missCount 0%nat b.

(** The calls made with a branch id whose result was truthy, or falsy. *)
Definition results_for (truth : bool) (id : string) (cs : list call) : nat :=
  length (List.filter
            (λ c, match c with
                  | RecordBranchHit id' _ _ r _ _ _ =>
                      String.eqb id' id && Bool.eqb (Js.truthy r) truth
                  | ClearStats => false
                  end) cs).

(** The fields that say where the branch is. *)
Definition site (b : BranchHit) :=
  (branchId b, file b, line b, column b, type b, condition b).

(** Each element may stay in front of the next one. *)
Fixpoint ordered {A} (le : A → A → bool) (l : list A) : Prop :=
  match l with
  | [] => True
  | x :: l' =>
      match l' with
      | [] => True
      | y :: _ => le x y = true
      end ∧ ordered le l'
  end.

(** ** Reading a summary *)

Definition in_file (f : string) (b : BranchHit) : bool := String.eqb (file b) f.

(** The counts of one file, taken over the whole list of records. *)
Definition tally (f : string) (stats : list BranchHit) : FileStats :=
  {| fs_total := count (in_file f) stats;
     fs_hit := count (λ b, in_file f b && (5 <=? hitCount b)%nat
                             && (hitCount b <=? 100)%nat) stats;
     fs_dead := count (λ b, in_file f b && (hitCount b =? 0)%nat) stats;
     fs_hot := count (λ b, in_file f b && (100 <? hitCount b)%nat) stats;
     fs_cold := count (λ b, in_file f b && (0 <? hitCount b)%nat
                              && (hitCount b <? 5)%nat) stats |}.

Definition no_stats : FileStats :=
  {| fs_total := 0; fs_hit := 0; fs_dead := 0; fs_hot := 0; fs_cold := 0 |}.

(** The counts of a file after one more of its branches. *)
Definition count_in (branch : BranchHit) (st : FileStats) : FileStats :=
  let h := hitCount branch in
  {| fs_total := S (fs_total st);
     fs_dead := if (h =? 0)%nat then S (fs_dead st) else fs_dead st;
     fs_hot := if (h =? 0)%nat then fs_hot st
               else if (100 <? h)%nat then S (fs_hot st) else fs_hot st;
     fs_cold := if (h =? 0)%nat then fs_cold st
                else if (100 <? h)%nat then fs_cold st
                else if (h <? 5)%nat then S (fs_cold st) else fs_cold st;
     fs_hit := if (h =? 0)%nat then fs_hit st
               else if (100 <? h)%nat then fs_hit st
               else if (h <? 5)%nat then fs_hit st else S (fs_hit st) |}.

(** What makes a list the ranking of the files of [fs] by [key]: at most ten
    entries, in descending order, each the numbers of a file whose key is
    positive, and no file left out that has a larger key than one listed. *)
Definition ranks (key : FileStats → nat) (fs : JsObject.t FileStats)
    (ranked : list FileRank) : Prop :=
  (length ranked ≤ 10)%nat
  ∧ ordered (λ a b, (fr_branches b <=? fr_branches a)%nat) ranked
  ∧ (∀ e, e ∈ ranked →
       ∃ st, JsObject.get fs (fr_file e) = Some st
             ∧ fr_branches e = key st
             ∧ fr_totalBranches e = fs_total st
             ∧ (1 ≤ key st)%nat)
  ∧ (∀ f st, JsObject.get fs f = Some st → (1 ≤ key st)%nat →
       f ∉ fr_file <$> ranked →
       length ranked = 10%nat ∧ ∀ e, e ∈ ranked → (key st ≤ fr_branches e)%nat).

(** ** Reading instrumented code *)

(** Expressions made of literals, variables and binary operators: they have
    no assignment, update or call in them, and no logical or conditional
    operator, which the pass would rewrite as well. *)
Fixpoint pure (e : Expression) : bool :=
  match e with
  | StringLiteral _ | NumericLiteral _ | BooleanLiteral _ | NullLiteral
  | Identifier _ => true
  | BinaryExpression _ lhs rhs => pure lhs && pure rhs
  | _ => false
  end.

(** A case with a label; [default] has none. *)
Definition labelled (c : SwitchCase) : bool :=
  match c.1 with
  | Some _ => true
  | None => false
  end.

(** ** The Vite plugin (src/vite-plugin.ts) *)

Module Vite.

(** [ViteRuntimeCoverageOptions] as the caller gives them: [None] is a
    property that is absent. [sampling] is a reference to the caller's
    object. *)
Record ViteRuntimeCoverageOptions := {
  o_enabled : option bool;
  o_injectInDev : option bool;
  o_injectInProd : option bool;
  o_initScript : option string;
  o_sampling : option loc;
  o_excludePatterns : option (list string);
  o_includePatterns : option (list string);
  o_sendToAnalytics : option bool;
  o_analyticsEndpoint : option string;
  o_visualizationEnabled : option bool
}.

(** The [config] object of one plugin instance. *)
Record PluginConfig := {
  c_enabled : bool;
  c_injectInDev : bool;
  c_injectInProd : bool;
  c_initScript : option string;
  c_sampling : loc;
  c_excludePatterns : list string;
  c_includePatterns : list string;
  c_sendToAnalytics : bool;
  c_analyticsEndpoint : option string;
  c_visualizationEnabled : bool
}.

Definition set_enabled (b : bool) (config : PluginConfig) : PluginConfig :=
  {| c_enabled := b; c_injectInDev := c_injectInDev config;
     c_injectInProd := c_injectInProd config; c_initScript := c_initScript config;
     c_sampling := c_sampling config;
     c_excludePatterns := c_excludePatterns config;
     c_includePatterns := c_includePatterns config;
     c_sendToAnalytics := c_sendToAnalytics config;
     c_analyticsEndpoint := c_analyticsEndpoint config;
     c_visualizationEnabled := c_visualizationEnabled config |}.

(** The sampling objects of the build process, by reference. The first one
    is the object literal of [DEFAULT_OPTIONS], made when the module loads. *)
Definition DEFAULT_OPTIONS_sampling : loc := 0%nat.

Definition module_loaded : list SamplingConfig :=
  [{| enabled := false; sampleRate := 1; maxSamplesPerSecond := 1000;
      collectExecutionTime := false |}].

(** [{ ...DEFAULT_OPTIONS, ...options }]: the properties are copied, a
    property that holds an object as the reference to it. *)
Definition runtimeCoveragePlugin (options : ViteRuntimeCoverageOptions) : PluginConfig :=
  {| c_enabled := default true (o_enabled options);
     c_injectInDev := default true (o_injectInDev options);
     c_injectInProd := default false (o_injectInProd options);
     c_initScript := o_initScript options;
     c_sampling := default DEFAULT_OPTIONS_sampling (o_sampling options);
     c_excludePatterns :=
       default ["node_modules/**"; "**/*.test.*"; "**/*.spec.*"]
         (o_excludePatterns options);
     c_includePatterns :=
       default ["**/*.{js,jsx,ts,tsx}"] (o_includePatterns options);
     c_sendToAnalytics := default false (o_sendToAnalytics options);
     c_analyticsEndpoint := o_analyticsEndpoint options;
     c_visualizationEnabled := default true (o_visualizationEnabled options) |}.

(** [configResolved(resolvedConfig)], given [resolvedConfig.command]. The
    writes to [config.sampling] go to the object the reference leads to. *)
Definition configResolved (command : string) (config : PluginConfig)
    (heap : list SamplingConfig) : PluginConfig * list SamplingConfig :=
  let isDev := String.eqb command "serve" in
  let isProd := String.eqb command "build" in
  let config :=
    if isDev && negb (c_injectInDev config) then set_enabled false config
    else config in
  let config :=
    if isProd && negb (c_injectInProd config) then set_enabled false config
    else config in
  if isProd
  then (config,
        alter (λ sampling,
                 {| enabled := true;
                    sampleRate := if Qeq_bool (sampleRate sampling) 0 then 1 # 100
                                  else sampleRate sampling;
                    maxSamplesPerSecond := maxSamplesPerSecond sampling;
                    collectExecutionTime := collectExecutionTime sampling |})
          (c_sampling config) heap)
  else (config, heap).

(** [s] ends with [suffix]. *)
Definition ends_with (s suffix : string) : bool :=
  String.prefix (String.rev suffix) (String.rev s).

(** [/\.(js|jsx|ts|tsx)$/.test(id)] *)
Definition is_script (id : string) : bool :=
  existsb (ends_with id) [".js"; ".jsx"; ".ts"; ".tsx"].

(** What [babel.transformSync] gives: it throws, or returns a result that may
    be null and whose properties may be absent. *)
Record BabelFileResult := { bf_code : option string; bf_map : option string }.

Inductive babel_outcome :=
  | Throws
  | Returns (result : option BabelFileResult).

Record TransformResult := { tr_code : string; tr_map : option string }.

Section Transform.

(** Babel run on a code and a file name with this plugin's configuration. *)
Variable transformSync :
  string → string → PluginConfig → list SamplingConfig → babel_outcome.

(** [transform(code, id)]; [None] is null. Loading Babel itself is taken to
    succeed. *)
Definition transform (config : PluginConfig) (heap : list SamplingConfig)
    (code id : string) : option TransformResult :=
  if negb (c_enabled config) then None
  else if negb (is_script id) then None
  else if existsb
            (λ pattern, Str.includes id
                          (Str.replace "*" "" (Str.replace "**/" "" pattern)))
            (c_excludePatterns config)
  then None
  else
    match transformSync code id config heap with
    | Throws => None
    | Returns result =>
        Some {| tr_code := match result ≫= bf_code with
                           | Some c => if String.eqb c "" then code else c
                           | None => code
                           end;
                tr_map := result ≫= bf_map |}
    end.

End Transform.

End Vite.

(** ** The collector of the emitted script (src/vite-plugin.ts,
    generateCollectorScript) *)

(** The class in the script has the fields of the collector above, and its
    [recordBranchHit], [shouldSample], [isRateLimited] and [getBranchStats]
    are the same statement by statement; its constructor leaves the state
    that [new_collector] gives when the configuration has a [sampling]
    property. The other methods of its global interface differ and are given
    here. *)
Module Embedded.

(** [clearStats: () => { this.branchStats = {}; this.sampleCounter = 0; }] *)
Definition clearStats (s : state) : state :=
  let '(l, s) := alloc_table [] s in
  set_sampleCounter 0 (set_branchStats l s).

(** [updateConfig: (newConfig) => { this.config = { ...this.config, ...newConfig }; }] *)
Definition updateConfig (newConfig : PartialConfig) (s : state) : state :=
  set_config (merge_config (config s) newConfig) s.

Record Summary := {
  e_totalBranches : nat;
  e_hitBranches : nat;
  e_deadBranches : nat;
  e_coverageRate : Q;
  e_sessionId : string
}.

Definition getExecutionSummary (s : state) : Summary :=
  let stats := stats_of s in
  let totalBranches := length stats in
  let hitBranches := count (λ b, (0 <? hitCount b)%nat) stats in
  let deadBranches := count (λ b, (hitCount b =? 0)%nat) stats in
  {| e_totalBranches := totalBranches;
     e_hitBranches := hitBranches;
     e_deadBranches := deadBranches;
     e_coverageRate :=
       if (0 <? totalBranches)%nat
       then (inject_Z (Z.of_nat hitBranches) / inject_Z (Z.of_nat totalBranches))%Q
       else 0;
     e_sessionId := sessionId s |}.

Record ExportData := {
  x_branchStats : loc;
  x_executionSummary : Summary;
  x_config : RuntimeCoverageConfig;
  x_sessionId : string
}.

(** [exportData]: [branchStats: this.branchStats] is the table itself. *)
Definition exportData (s : state) : ExportData :=
  {| x_branchStats := branchStats s;
     x_executionSummary := getExecutionSummary s;
     x_config := config s;
     x_sessionId := sessionId s |}.

Definition step (s : state) (c : call) : state :=
  match c with
  | RecordBranchHit id ty code r collect now later =>
      (recordBranchHit id ty code r collect now later s).2
  | ClearStats => clearStats s
  end.

Definition run (s : state) (cs : list call) : state := foldl step s cs.

End Embedded.

(** ** Starting a collector (src/utils/dev-tools.tsx) *)

(** [initializeRuntimeCoverage(config)], given whether there is a window,
    [process.env.NODE_ENV] and the session id the constructor draws; [None]
    is null. *)
Definition initializeRuntimeCoverage (window : bool) (NODE_ENV : string)
    (config : PartialConfig) (sid : string) : option state :=
  if negb window then None
  else
    let production := String.eqb NODE_ENV "production" in
    let defaultConfig :=
      {| cfg_enabled := true;
         sampling := {| enabled := production;
                        sampleRate := if production then 1 # 100 else 1;
                        maxSamplesPerSecond := 1000;
                        collectExecutionTime := false |};
         excludePatterns := ["node_modules/**"; "**/*.test.*"; "**/*.spec.*"];
         includePatterns := ["**/*.{js,jsx,ts,tsx}"];
         sendToAnalytics := false;
         analyticsEndpoint := None;
         visualizationEnabled := String.eqb NODE_ENV "development" |} in
    let finalConfig := merge_config defaultConfig config in
    if negb (cfg_enabled finalConfig) then None
    else Some (new_collector finalConfig sid).

(** ** The panel (src/components) *)

Module CoveragePanel.

(** [files]: the files of the records, each listed once. *)
Definition files (stats : list BranchHit) : list string :=
  foldl (λ acc branch,
           if existsb (String.eqb (file branch)) acc then acc
           else acc ++ [file branch])
    [] stats.

End CoveragePanel.

Module BranchHeatmap.

Record Point := {
  p_line : option Z;
  p_column : option Z;
  p_hitRate : Q;
  p_condition : string;
  p_executionCount : nat;
  p_branchId : string;
  p_type : string
}.

Definition point (branch : BranchHit) : Point :=
  let totalExecutions := (hitCount branch + missCount branch)%nat in
  {| p_line := line branch;
     p_column := column branch;
     p_hitRate :=
       if (0 <? totalExecutions)%nat
       then (inject_Z (Z.of_nat (hitCount branch))
             / inject_Z (Z.of_nat totalExecutions))%Q
       else 0;
     p_condition := condition branch;
     p_executionCount := totalExecutions;
     p_branchId := branchId branch;
     p_type := type branch |}.

(** A file is selected when [selectedFile] is a string that is not empty. *)
Definition selected (selectedFile : option string) : option string :=
  match selectedFile with
  | Some f => if String.eqb f "" then None else Some f
  | None => None
  end.

(** One step of the [reduce] that groups the points by file. *)
Definition group (selectedFile : option string) (acc : JsObject.t (list Point))
    (branch : BranchHit) : JsObject.t (list Point) :=
  if match selected selectedFile with
     | Some f => negb (String.eqb (file branch) f)
     | None => false
     end
  then acc
  else
    let acc :=
      match JsObject.get acc (file branch) with
      | Some _ => acc
      | None => JsObject.set acc (file branch) []
      end in
    JsObject.set acc (file branch)
      (default [] (JsObject.get acc (file branch)) ++ [point branch]).

(** [heatmapData], from [Object.values(branchStats)] and [selectedFile]. *)
Definition heatmapData (stats : list BranchHit) (selectedFile : option string)
    : list Point :=
  let fileGroups := foldl (group selectedFile) [] stats in
  match selected selectedFile with
  | Some f => default [] (JsObject.get fileGroups f)
  | None => concat (JsObject.values fileGroups)
  end.

End BranchHeatmap.

(** ** Double precision *)

(** The numbers of the program are IEEE 754 doubles. In the collector above
    they are taken as exact rationals, which is what the program computes
    wherever no rounding occurs: with whole numbers below 2^53 and their
    sums and differences, and with products by a power of two. [Double]
    gives the rounding itself, and the sampling gate as it is evaluated at
    rates where the product is rounded. *)
Module Double.

(** [2^e] *)
Definition pow2 (e : Z) : Q :=
  if (0 <=? e)%Z then inject_Z (2 ^ e) else 1 # Z.to_pos (2 ^ (- e)).

(** [n/d] over [2^e], as a quotient of two whole numbers. *)
Definition scaled (n d e : Z) : Z * Z :=
  if (0 <=? e)%Z then (n, d * 2 ^ e) else (n * 2 ^ (- e), d).

(** The whole number nearest to [n/d], the even one of two that are equally
    near. *)
Definition nearest_even (n d : Z) : Z :=
  let q := n / d in
  match 2 * (n mod d) ?= d with
  | Lt => q
  | Gt => q + 1
  | Eq => if Z.even q then q else q + 1
  end.

(** The double nearest to [n/d], for positive [n] and [d]: a whole number
    below 2^53 times a power of two that is at least 2^-1074; [None] when
    the result is too large for a double (and is Infinity). *)
Definition round_pos (n d : Z) : option Q :=
  let k := Z.log2 n - Z.log2 d in
  let k := if (scaled n d k).1 <? (scaled n d k).2 then k - 1 else k in
  let e := Z.max (k - 52) (-1074) in
  let m := nearest_even (scaled n d e).1 (scaled n d e).2 in
  if (0 <=? e) && (2 ^ 1024 <=? m * 2 ^ e) then None
  else Some (inject_Z m * pow2 e)%Q.

(** Rounding to nearest, ties to even. *)
Definition fl (x : Q) : option Q :=
  let x := Qred x in
  match Qnum x with
  | 0 => Some 0%Q
  | Z.pos n => round_pos (Z.pos n) (Z.pos (Qden x))
  | Z.neg n => Qopp <$> round_pos (Z.pos n) (Z.pos (Qden x))
  end.

(** [shouldSample] in double precision. The counter is a whole number, which
    [++] increments exactly below 2^53. The rate is the double nearest to
    the configured number; the product of the counter and the rate is
    rounded; the remainder by 1 of a double is a double, and comparisons
    are exact. An infinite rate or product gives NaN as the remainder, and
    the comparison is false. *)
Definition shouldSample (s : state) : bool * state :=
  let s := set_sampleCounter (S (sampleCounter s)) s in
  (match fl (sampleRate (samplingConfig s)) with
   | Some rate =>
       match fl (inject_Z (Z.of_nat (sampleCounter s)) * rate) with
       | Some product => Js.Qltb (Js.rem1 product) rate
       | None => false
       end
   | None => false
   end,
   s).

(** How many of the counters [1 .. n] a gate lets through. *)
Definition accepted (gate : state → bool * state) (rate : Q) (n : nat) : nat :=
  length (List.filter
            (λ c, (gate (set_sampleCounter c (new_collector (sampled_config rate) ""))).1)
            (seq 0 n)).

(** The doubles, as exact numbers: a whole number of fewer than 54 bits times a
    power of two within the format's range of exponents. *)
Definition representable (y : Q) : Prop :=
  ∃ m e : Z, (Z.abs m < 2 ^ 53)%Z ∧ (-1074 <= e <= 971)%Z ∧ (y == inject_Z m * pow2 e)%Q.

(** [y] is a double, and no double is nearer to [x]. *)
Definition nearest (x y : Q) : Prop :=
  representable y ∧ ∀ z, representable z → (Qabs (x - y) <= Qabs (x - z))%Q.

(** Where another double is as near to [x], [y] is the even one of the two:
    an even multiple of their distance. *)
Definition even_at_tie (x y : Q) : Prop :=
  ∀ z, representable z → ¬ (z == y)%Q → (Qabs (x - z) == Qabs (x - y))%Q →
       ∃ j : Z, (y == inject_Z (2 * j) * Qabs (y - z))%Q.

(** The rounding of the language's arithmetic (round to nearest, ties to
    even), said without computing it: below 2^1024 - 2^970 in size a number
    goes to a nearest double, the even one at a tie; from there on the result
    is an infinity, [None] here. *)
Definition rounds (x : Q) (o : option Q) : Prop :=
  match o with
  | Some y => nearest x y ∧ even_at_tie x y ∧ (Qabs x < pow2 1024 - pow2 970)%Q
  | None => (pow2 1024 - pow2 970 <= Qabs x)%Q
  end.

End Double.

(** * Properties *)

(** ** Tables *)

Module JsObjectFacts.
Import JsObject.

Section Facts.
Context {V : Type}.
Implicit Types (o : JsObject.t V) (k : string) (v : V).

Lemma get_set o k v k' :
  get (set o k v) k' = if String.eqb k k' then Some v else get o k'.
Proof.
  induction o as [|[k0 v0] o IH]; simpl.
  - destruct (String.eqb k k'); reflexivity.
  - destruct (String.eqb_spec k0 k) as [->|Hne]; simpl.
    + destruct (String.eqb k k'); reflexivity.
    + rewrite IH. destruct (String.eqb_spec k0 k') as [->|Hne'];
        [|reflexivity].
      destruct (String.eqb_spec k k'); congruence.
Qed.

Lemma get_set_eq o k v : get (set o k v) k = Some v.
Proof. rewrite get_set, String.eqb_refl. reflexivity. Qed.

Lemma get_set_ne o k v k' : k ≠ k' → get (set o k v) k' = get o k'.
Proof.
  intros Hne. rewrite get_set.
  destruct (String.eqb_spec k k'); congruence.
Qed.

Lemma get_app o1 o2 k :
  get (o1 ++ o2) k = match get o1 k with Some v => Some v | None => get o2 k end.
Proof.
  induction o1 as [|[k0 v0] o1 IH]; simpl; [reflexivity|].
  destruct (String.eqb k0 k); [reflexivity|apply IH].
Qed.

Lemma get_filter (P : string → bool) o k :
  get (List.filter (λ p, P p.1) o) k = if P k then get o k else None.
Proof.
  induction o as [|[k0 v0] o IH]; simpl.
  - destruct (P k); reflexivity.
  - destruct (P k0) eqn:HP; simpl; rewrite IH;
      destruct (String.eqb_spec k0 k) as [->|Hne]; try reflexivity.
    + rewrite HP. reflexivity.
    + rewrite HP. reflexivity.
Qed.

Lemma index_le_false (a b : string * V) : index_le a b = false → a.1 ≠ b.1.
Proof.
  unfold index_le. intros H Heq. rewrite Heq in H.
  destruct (array_index b.1); [|discriminate].
  apply Z.leb_gt in H. lia.
Qed.

Lemma get_insert_sorted (x : string * V) o k :
  get (Js.insert_sorted index_le x o) k = get (x :: o) k.
Proof.
  induction o as [|y o IH]; [reflexivity|].
  simpl. destruct (index_le x y) eqn:Hle; [reflexivity|].
  apply index_le_false in Hle.
  destruct x as [kx vx], y as [ky vy]. simpl in *. rewrite IH. simpl.
  destruct (String.eqb_spec kx k), (String.eqb_spec ky k); congruence.
Qed.

Lemma get_sort o k : get (Js.sort index_le o) k = get o k.
Proof.
  induction o as [|[k0 v0] o IH]; [reflexivity|].
  unfold Js.sort in *. simpl. rewrite get_insert_sorted. simpl.
  rewrite IH. reflexivity.
Qed.

(** Enumeration order does not change what a key maps to. *)
Lemma get_entries o k : get (entries o) k = get o k.
Proof.
  unfold entries.
  rewrite get_app, get_sort.
  rewrite (get_filter is_index), (get_filter (λ key, negb (is_index key))).
  destruct (is_index k); simpl; [destruct (get o k)|]; reflexivity.
Qed.
End Facts.

End JsObjectFacts.

(** ** The heap under the collector's writes *)

Section Heap.
Import JsObject JsObjectFacts.
Implicit Types (s : state) (id : string) (l : loc).

Lemma table_at_alter s l (f : BranchStats → BranchStats) :
  (l < length (tables s))%nat →
  table_at (set_tables (alter f l) s) l = f (table_at s l).
Proof.
  intros Hl. unfold table_at. simpl. rewrite list_lookup_alter_eq.
  destruct (lookup_lt_is_Some_2 _ _ Hl) as [t Ht]. rewrite Ht. reflexivity.
Qed.

Lemma table_at_alter_ne s l l' (f : BranchStats → BranchStats) :
  l ≠ l' → table_at (set_tables (alter f l) s) l' = table_at s l'.
Proof.
  intros Hne. unfold table_at. simpl.
  rewrite list_lookup_alter_ne by exact Hne. reflexivity.
Qed.

Lemma table_at_set_records s (f : list BranchHit → list BranchHit) l :
  table_at (set_records f s) l = table_at s l.
Proof. reflexivity. Qed.

Lemma table_at_alloc s o l :
  (l < length (tables s))%nat →
  table_at (alloc_table o s).2 l = table_at s l.
Proof.
  intros Hl. unfold table_at. simpl. rewrite lookup_app_l by exact Hl.
  reflexivity.
Qed.

Lemma table_at_alloc_new s o :
  table_at (alloc_table o s).2 (alloc_table o s).1 = o.
Proof.
  unfold table_at. simpl. rewrite lookup_app_r by lia.
  rewrite Nat.sub_diag. reflexivity.
Qed.

Lemma lookup_branch_Some s id b :
  lookup_branch s id = Some b →
  ∃ l, get (table_at s (branchStats s)) id = Some l ∧ records s !! l = Some b.
Proof.
  unfold lookup_branch. destruct (get _ id) as [l|]; simpl; [|discriminate].
  intros H. exists l. split; [reflexivity|exact H].
Qed.

Lemma lookup_branch_None s id :
  wf s → lookup_branch s id = None → get (table_at s (branchStats s)) id = None.
Proof.
  intros Hwf. unfold lookup_branch.
  destruct (get _ id) as [l|] eqn:Hget; simpl; [|reflexivity].
  intros Hnone. apply lookup_ge_None in Hnone.
  pose proof (wf_refs s Hwf id l Hget). lia.
Qed.

Lemma lookup_branch_is_Some s id :
  wf s →
  is_Some (lookup_branch s id) ↔ is_Some (get (table_at s (branchStats s)) id).
Proof.
  intros Hwf. split.
  - intros [b Hb]. destruct (lookup_branch_Some _ _ _ Hb) as (l & Hl & _).
    rewrite Hl. eexists. reflexivity.
  - intros [l Hl]. destruct (lookup_branch s id) eqn:Hb; [eexists; reflexivity|].
    apply lookup_branch_None in Hb; [congruence|exact Hwf].
Qed.

Lemma alter_twice {A} (f g : A → A) (i : nat) (rs : list A) :
  alter f i (alter g i rs) = alter (λ x, f (g x)) i rs.
Proof.
  apply list_eq. intros j. destruct (decide (i = j)) as [->|Hne].
  - rewrite !list_lookup_alter_eq. destruct (rs !! j); reflexivity.
  - rewrite !list_lookup_alter_ne by exact Hne. reflexivity.
Qed.

(** An event for a branch that already has a record. *)
Lemma store_event_known id ty code r collect now later s l :
  get (table_at s (branchStats s)) id = Some l →
  store_event id ty code r collect now later s
  = set_records (alter (touch r collect now later) l) s.
Proof.
  intros Hget. unfold store_event. rewrite Hget. cbv beta iota. rewrite Hget.
  unfold touch, set_records.
  destruct collect; simpl; rewrite !alter_twice; reflexivity.
Qed.

(** An event for a branch seen for the first time. *)
Lemma store_event_new id ty code r collect now later s :
  (branchStats s < length (tables s))%nat →
  get (table_at s (branchStats s)) id = None →
  store_event id ty code r collect now later s
  = set_records
      (λ rs, rs ++ [touch r collect now later (new_record id ty code now)])
      (set_tables
         (alter (λ o, set o id (length (records s))) (branchStats s)) s).
Proof.
  intros Hl Hget. unfold store_event. rewrite Hget.
  cbn [alloc_record].
  set (s1 := set_tables _ (set_records _ s)).
  assert (Hs1 : get (table_at s1 (branchStats s1)) id = Some (length (records s))).
  { subst s1. cbn [branchStats set_tables set_records].
    rewrite (table_at_alter (set_records _ s)) by exact Hl.
    apply get_set_eq. }
  assert (Ha : ∀ (f : BranchHit → BranchHit) n,
             alter f (length (records s)) (records s ++ [n]) = records s ++ [f n]).
  { intros f n.
    replace (length (records s)) with (length (records s) + 0)%nat at 1 by lia.
    rewrite alter_app_r. reflexivity. }
  rewrite Hs1. subst s1. unfold touch, set_records, set_tables.
  destruct collect; simpl; rewrite !alter_twice, Ha; reflexivity.
Qed.
End Heap.

(** ** One event *)

Section Event.
Import JsObject JsObjectFacts.
Implicit Types (s : state) (id : string) (l : loc).

Lemma store_event_wf id ty code r collect now later s :
  wf s → wf (store_event id ty code r collect now later s).
Proof.
  intros [Ht Hr Hi].
  destruct (get (table_at s (branchStats s)) id) as [l|] eqn:Hget.
  - rewrite (store_event_known _ _ _ _ _ _ _ _ _ Hget).
    split; cbn [branchStats tables records set_records];
      rewrite ?table_at_set_records.
    + exact Ht.
    + intros id' l' H. rewrite length_alter. exact (Hr id' l' H).
    + exact Hi.
  - rewrite (store_event_new _ _ _ _ _ _ _ _ Ht Hget).
    assert (Hg : ∀ id',
      get (table_at
             (set_records
                (λ rs, rs ++ [touch r collect now later (new_record id ty code now)])
                (set_tables
                   (alter (λ o, set o id (length (records s))) (branchStats s)) s))
             (branchStats s)) id'
      = if String.eqb id id' then Some (length (records s))
        else get (table_at s (branchStats s)) id').
    { intros id'. unfold table_at at 1. cbn [tables set_records set_tables].
      rewrite list_lookup_alter_eq. unfold table_at.
      destruct (lookup_lt_is_Some_2 _ _ Ht) as [t Ht']. rewrite Ht'. simpl.
      apply get_set. }
    split; cbn [branchStats set_records set_tables].
    + cbn [tables set_records set_tables]. rewrite length_alter. exact Ht.
    + intros id' l'. rewrite Hg. cbn [records set_records set_tables]. rewrite length_app. simpl.
      destruct (String.eqb id id').
      * intros [= <-]. lia.
      * intros H. pose proof (Hr id' l' H). lia.
    + intros id1 id2 l'. rewrite !Hg.
      destruct (String.eqb_spec id id1) as [<-|H1],
               (String.eqb_spec id id2) as [<-|H2]; try congruence.
      * intros [= <-] H. pose proof (Hr id2 _ H). lia.
      * intros H [= <-]. pose proof (Hr id1 _ H). lia.
      * apply Hi.
Qed.

(** The record of the event's branch is created if need be and touched; the
    records of the other branches stay as they are. *)
Lemma store_event_lookup id ty code r collect now later s id' :
  wf s →
  lookup_branch (store_event id ty code r collect now later s) id'
  = if String.eqb id id'
    then Some (touch r collect now later
                 (default (new_record id ty code now) (lookup_branch s id)))
    else lookup_branch s id'.
Proof.
  intros Hwf. pose proof Hwf as [Ht Hr Hi].
  destruct (get (table_at s (branchStats s)) id) as [l|] eqn:Hget.
  - rewrite (store_event_known _ _ _ _ _ _ _ _ _ Hget).
    unfold lookup_branch. cbn [branchStats records set_records].
    rewrite table_at_set_records.
    destruct (String.eqb_spec id id') as [<-|Hne].
    + rewrite Hget. simpl. rewrite list_lookup_alter_eq.
      destruct (lookup_lt_is_Some_2 _ _ (Hr _ _ Hget)) as [b Hb].
      rewrite Hb. reflexivity.
    + destruct (get (table_at s (branchStats s)) id') as [l'|] eqn:Hget';
        [|reflexivity].
      simpl. rewrite list_lookup_alter_ne; [reflexivity|].
      intros ->. apply Hne. exact (Hi _ _ _ Hget Hget').
  - rewrite (store_event_new _ _ _ _ _ _ _ _ Ht Hget).
    unfold lookup_branch at 1. cbn [branchStats set_records set_tables].
    unfold table_at at 1. cbn [tables records set_records set_tables].
    rewrite list_lookup_alter_eq.
    destruct (lookup_lt_is_Some_2 _ _ Ht) as [t Ht'].
    assert (Et : table_at s (branchStats s) = t)
      by (unfold table_at; rewrite Ht'; reflexivity).
    rewrite Ht'. simpl. rewrite get_set.
    destruct (String.eqb_spec id id') as [<-|Hne].
    + simpl. rewrite lookup_app_r, Nat.sub_diag by lia. simpl.
      unfold lookup_branch. rewrite Hget. reflexivity.
    + unfold lookup_branch. rewrite Et.
      destruct (get t id') as [l'|] eqn:Hget'; [|reflexivity].
      simpl. rewrite lookup_app_l; [reflexivity|].
      apply (Hr id'). rewrite Et. exact Hget'.
Qed.

Lemma store_event_key id ty code r collect now later s id' :
  wf s →
  is_Some (get (table_at (store_event id ty code r collect now later s)
                  (branchStats (store_event id ty code r collect now later s))) id')
  ↔ id = id' ∨ is_Some (get (table_at s (branchStats s)) id').
Proof.
  intros Hwf.
  rewrite <- !lookup_branch_is_Some by (try apply store_event_wf; exact Hwf).
  rewrite store_event_lookup by exact Hwf.
  destruct (String.eqb_spec id id') as [<-|Hne].
  - split; [left; reflexivity|eexists; reflexivity].
  - split; [right; assumption|intros [?|?]; [contradiction|assumption]].
Qed.

(** The gates only move their own counters. *)
Lemma gate_frame now s :
  tables (gate now s).2 = tables s
  ∧ records (gate now s).2 = records s
  ∧ branchStats (gate now s).2 = branchStats s
  ∧ samplingConfig (gate now s).2 = samplingConfig s
  ∧ config (gate now s).2 = config s
  ∧ sessionId (gate now s).2 = sessionId s.
Proof.
  unfold gate, shouldSample, isRateLimited.
  destruct (enabled (samplingConfig s)); [|repeat split].
  cbn [samplingConfig sampleCounter set_sampleCounter].
  destruct (Js.Qltb _ _); [|repeat split].
  cbn [samplingConfig lastSampleTime set_sampleCounter].
  destruct (Qeq_bool _ 0); [repeat split|].
  destruct (Js.Qltb _ _); repeat split.
Qed.

Lemma gate_wf now s : wf s → wf (gate now s).2.
Proof.
  destruct (gate_frame now s) as (Ht & Hr & Hb & _).
  intros [H1 H2 H3]. split; unfold table_at in *; rewrite ?Ht, ?Hr, ?Hb; assumption.
Qed.

Lemma gate_lookup now s id : lookup_branch (gate now s).2 id = lookup_branch s id.
Proof.
  destruct (gate_frame now s) as (Ht & Hr & Hb & _).
  unfold lookup_branch, table_at. rewrite Ht, Hr, Hb. reflexivity.
Qed.

(** [recordBranchHit] is the gates followed, for an event that goes through,
    by the update of the table. *)
Lemma recordBranchHit_gate id ty code r collect now later s :
  recordBranchHit id ty code r collect now later s
  = (r, if (gate now s).1
        then store_event id ty code r collect now later (gate now s).2
        else (gate now s).2).
Proof.
  unfold recordBranchHit, gate.
  destruct (enabled (samplingConfig s)) eqn:He; [|simpl; rewrite He; reflexivity].
  destruct (shouldSample s) as [sampled s1] eqn:Hs.
  assert (He1 : enabled (samplingConfig s1) = true).
  { unfold shouldSample in Hs. injection Hs as _ <-. exact He. }
  destruct sampled; [|reflexivity]. simpl. rewrite He1.
  destruct (isRateLimited now s1) as [[] s2]; reflexivity.
Qed.

Lemma clearStats_wf s : wf (clearStats s).
Proof.
  split; unfold clearStats, table_at; simpl.
  - rewrite length_app. simpl. lia.
  - intros id l. rewrite lookup_app_r, Nat.sub_diag by lia. discriminate.
  - intros id1 id2 l. rewrite lookup_app_r, Nat.sub_diag by lia. discriminate.
Qed.

Lemma clearStats_empty s id : get (table_at (clearStats s) (branchStats (clearStats s))) id = None.
Proof.
  unfold clearStats, table_at. simpl.
  rewrite lookup_app_r, Nat.sub_diag by lia. reflexivity.
Qed.

Lemma new_collector_wf cfg sid : wf (new_collector cfg sid).
Proof.
  split; unfold table_at; simpl; [lia|discriminate..].
Qed.

Lemma step_wf s c : wf s → wf (step s c).
Proof.
  intros Hwf. destruct c; simpl; [|apply clearStats_wf].
  rewrite recordBranchHit_gate. simpl.
  destruct (gate now s).1; [apply store_event_wf|]; apply gate_wf, Hwf.
Qed.

Lemma run_wf cs s : wf s → wf (run s cs).
Proof.
  revert s. induction cs as [|c cs IH]; intros s Hwf; [exact Hwf|].
  apply IH, step_wf, Hwf.
Qed.
End Event.

(** ** The table and the events recorded in it *)

Section Recorded.
Import JsObject JsObjectFacts.
Implicit Types (s : state) (id : string) (log : list string).

Lemma observations_touch r collect now later b :
  observations (Some (touch r collect now later b)) = S (observations (Some b)).
Proof.
  unfold touch. destruct collect; simpl; destruct (Js.truthy r); simpl; lia.
Qed.

Lemma occurrences_cons id id' log :
  occurrences id (id' :: log)
  = ((if String.eqb id' id then 1 else 0) + occurrences id log)%nat.
Proof.
  unfold occurrences. simpl. rewrite (String.eqb_sym id id').
  destruct (String.eqb id' id); reflexivity.
Qed.

Lemma occurrences_elem id log : id ∈ log ↔ (0 < occurrences id log)%nat.
Proof.
  induction log as [|id' log IH].
  - split; [intros H; inversion H|unfold occurrences; simpl; lia].
  - rewrite occurrences_cons, elem_of_cons, IH.
    destruct (String.eqb_spec id' id) as [->|Hne]; split; try lia; auto.
    intros [->|H]; [contradiction|exact H].
Qed.

Lemma agrees_step s c log :
  wf s → agrees log s →
  agrees (recorded log s [c]) (step s c).
Proof.
  intros Hwf Hag id'. destruct c as [id ty code r collect now later|].
  - simpl. rewrite recordBranchHit_gate. simpl.
    destruct (gate_frame now s) as (Ht & Hr & Hb & _).
    destruct (Hag id') as [Hkey Hobs].
    destruct (gate now s).1.
    + rewrite store_event_key, store_event_lookup by (apply gate_wf, Hwf).
      rewrite !gate_lookup. unfold table_at. rewrite Ht, Hb.
      fold (table_at s (branchStats s)).
      rewrite occurrences_cons, elem_of_cons, Hkey.
      destruct (String.eqb_spec id id') as [->|Hne].
      * split; [split; auto|].
        rewrite observations_touch.
        destruct (lookup_branch s id') eqn:Hl; simpl in *; [lia|].
        rewrite <- Hobs. reflexivity.
      * split; [|exact Hobs].
        split; (intros [H|H]; [congruence|right; exact H]).
    + rewrite gate_lookup. unfold table_at. rewrite Ht, Hb. split; assumption.
  - change (step s ClearStats) with (clearStats s).
    change (recorded log s [ClearStats]) with (@nil string).
    unfold lookup_branch. rewrite clearStats_empty. split; [|reflexivity].
    split; [intros [? H]; discriminate|intros H; inversion H].
Qed.

Lemma recorded_cons log s c cs :
  recorded log s (c :: cs) = recorded (recorded log s [c]) (step s c) cs.
Proof. reflexivity. Qed.

Lemma agrees_run cs s log :
  wf s → agrees log s → agrees (recorded log s cs) (run s cs).
Proof.
  revert s log. induction cs as [|c cs IH]; intros s log Hwf Hag; [exact Hag|].
  rewrite recorded_cons. apply IH; [apply step_wf, Hwf|apply agrees_step; assumption].
Qed.

Lemma agrees_new cfg sid : agrees [] (new_collector cfg sid).
Proof.
  intros id. unfold lookup_branch, table_at. simpl. split; [|reflexivity].
  split; [intros [? H]; discriminate|intros H; inversion H].
Qed.

(** C4. In every state the collector reaches through [recordBranchHit] and
    [clearStats], a branch id is a key of the table exactly when an event for
    it went through the gates since the table was last emptied; the record of
    a key counts those events, [hitCount + missCount] being their number, so
    it is at least 1. *)
Theorem table_key_iff_recorded cfg sid cs id :
  let s := run (new_collector cfg sid) cs in
  let log := recorded [] (new_collector cfg sid) cs in
  (is_Some (get (table_at s (branchStats s)) id) ↔ id ∈ log)
  ∧ (∀ b, lookup_branch s id = Some b → (1 ≤ hitCount b + missCount b)%nat)
  ∧ observations (lookup_branch s id) = occurrences id log.
Proof.
  intros s log.
  pose proof (new_collector_wf cfg sid) as Hwf0.
  pose proof (agrees_run cs _ _ Hwf0 (agrees_new cfg sid)) as Hag.
  fold s log in Hag. destruct (Hag id) as [Hkey Hobs].
  split; [exact Hkey|]. split; [|exact Hobs].
  intros b Hb.
  assert (Hs : is_Some (get (table_at s (branchStats s)) id)).
  { apply lookup_branch_is_Some; [apply run_wf, Hwf0|]. rewrite Hb. eexists. reflexivity. }
  apply Hkey, occurrences_elem in Hs. rewrite Hb in Hobs. simpl in Hobs. lia.
Qed.

End Recorded.

(** ** Sampling disabled: no event is lost *)

Section Disabled.
Import JsObject JsObjectFacts.
Implicit Types (s : state) (id : string).

Lemma gate_disabled now s :
  enabled (samplingConfig s) = false → gate now s = (true, s).
Proof. intros He. unfold gate. rewrite He. reflexivity. Qed.

Lemma store_event_samplingConfig id ty code r collect now later s :
  samplingConfig (store_event id ty code r collect now later s) = samplingConfig s.
Proof.
  unfold store_event.
  destruct (get (table_at s (branchStats s)) id); cbv beta iota.
  - destruct (get (table_at s (branchStats s)) id); [|reflexivity].
    destruct collect; reflexivity.
  - cbn [alloc_record]. cbv beta iota.
    match goal with |- context [get ?t id] => destruct (get t id) end;
      [|reflexivity].
    destruct collect; reflexivity.
Qed.

Lemma observations_disabled cs s id :
  wf s → enabled (samplingConfig s) = false → only_records cs = true →
  observations (lookup_branch (run s cs) id)
  = (observations (lookup_branch s id) + calls_for id cs)%nat.
Proof.
  revert s. induction cs as [|c cs IH]; intros s Hwf He Hcs.
  - unfold calls_for. simpl. lia.
  - destruct c as [id' ty code r collect now later|]; [|discriminate].
    simpl in Hcs. change (run s (RecordBranchHit id' ty code r collect now later :: cs))
      with (run (step s (RecordBranchHit id' ty code r collect now later)) cs).
    assert (Hstep : step s (RecordBranchHit id' ty code r collect now later)
                    = store_event id' ty code r collect now later s).
    { simpl. rewrite recordBranchHit_gate, gate_disabled by exact He. reflexivity. }
    rewrite Hstep, IH; [|apply store_event_wf, Hwf
                        |rewrite store_event_samplingConfig; exact He|exact Hcs].
    rewrite store_event_lookup by exact Hwf.
    unfold calls_for. cbn [List.filter].
    destruct (String.eqb_spec id' id) as [->|Hne]; [|reflexivity].
    rewrite observations_touch.
    destruct (lookup_branch s id); simpl; lia.
Qed.

(** C5. With sampling disabled in the configuration, every call is recorded:
    after any series of calls to [recordBranchHit] on a new collector, the
    record of a branch id counts exactly the N calls made with that id. *)
Theorem no_event_lost_without_sampling cfg sid cs id N :
  enabled (sampling cfg) = false →
  only_records cs = true →
  calls_for id cs = N →
  let s := run (new_collector cfg sid) cs in
  observations (lookup_branch s id) = N
  ∧ ((0 < N)%nat → ∃ b, lookup_branch s id = Some b
                        ∧ (hitCount b + missCount b)%nat = N).
Proof.
  intros He Hcs HN s.
  assert (Hobs : observations (lookup_branch s id) = N).
  { unfold s. rewrite observations_disabled;
      [|apply new_collector_wf|exact He|exact Hcs].
    rewrite HN. reflexivity. }
  split; [exact Hobs|]. intros Hpos.
  destruct (lookup_branch s id) as [b|]; simpl in Hobs; [|lia].
  exists b. split; [reflexivity|exact Hobs].
Qed.

(** The scenario of the specification: results true, false, true. *)
Lemma no_event_lost_without_sampling_witness :
  let id := "Dashboard.tsx:45:8:if#0" in
  let cs := [RecordBranchHit id "if" "(ready)" (Js.VBool true) false 1 1;
             RecordBranchHit id "if" "(ready)" (Js.VBool false) false 2 2;
             RecordBranchHit id "if" "(ready)" (Js.VBool true) false 3 3] in
  let s := run (new_collector DEFAULT_CONFIG "session") cs in
  observations (lookup_branch s id) = 3%nat
  ∧ ((0 < 3)%nat → ∃ b, lookup_branch s id = Some b
                        ∧ (hitCount b + missCount b)%nat = 3%nat).
Proof.
  intros id cs s.
  apply (no_event_lost_without_sampling DEFAULT_CONFIG "session" cs id 3);
    reflexivity.
Defined.

End Disabled.

(** ** Value transparency and rejected events *)

Lemma gate_rejects now s :
  (gate now s).1 = false
  ↔ enabled (samplingConfig s) = true
    ∧ ((shouldSample s).1 = false
       ∨ (isRateLimited now (shouldSample s).2).1 = true).
Proof.
  unfold gate. destruct (enabled (samplingConfig s)).
  - destruct (shouldSample s) as [[] s1]; simpl.
    + destruct (isRateLimited now s1) as [[] s2]; simpl;
        intuition discriminate.
    + intuition discriminate.
  - simpl. intuition discriminate.
Qed.

(** C6. [recordBranchHit] returns the result it was given, whatever the
    gates decide; and when sampling is enabled and the sampling gate or the
    rate limiter turns the event down, the table and every record are left as
    they were. *)
Theorem recordBranchHit_value_transparent id ty code r collect now later s :
  let out := recordBranchHit id ty code r collect now later s in
  out.1 = r
  ∧ (enabled (samplingConfig s) = true →
     (shouldSample s).1 = false
     ∨ (isRateLimited now (shouldSample s).2).1 = true →
     tables out.2 = tables s
     ∧ records out.2 = records s
     ∧ branchStats out.2 = branchStats s).
Proof.
  intros out. unfold out. rewrite recordBranchHit_gate. split; [reflexivity|].
  intros He Hrej.
  assert (Hg : (gate now s).1 = false) by (apply gate_rejects; auto).
  simpl. rewrite Hg.
  destruct (gate_frame now s) as (Ht & Hr & Hb & _). auto.
Qed.

(** A collector sampling at rate 0 turns the first event down. *)
Lemma recordBranchHit_value_transparent_witness :
  let s := new_collector (sampled_config 0) "session" in
  let out := recordBranchHit "App.tsx:3:2:if#0" "if" "(x)" (Js.VBool true) false 1 1 s in
  out.1 = Js.VBool true
  ∧ tables out.2 = tables s ∧ records out.2 = records s
  ∧ branchStats out.2 = branchStats s.
Proof.
  pose proof (recordBranchHit_value_transparent
                "App.tsx:3:2:if#0" "if" "(x)" (Js.VBool true) false 1 1
                (new_collector (sampled_config 0) "session")) as [H1 H2].
  split; [exact H1|]. apply H2; [reflexivity|left; reflexivity].
Defined.

(** ** The sampling gate *)

Section Sampling.
Local Open Scope Q_scope.

Lemma Qltb_lt x y : Js.Qltb x y = true ↔ x < y.
Proof.
  unfold Js.Qltb. rewrite Qlt_alt. destruct (x ?= y); intuition discriminate.
Qed.

Lemma Qltb_comp x x' y y' : x == x' → y == y' → Js.Qltb x y = Js.Qltb x' y'.
Proof.
  intros Hx Hy. unfold Js.Qltb. rewrite (Qcompare_comp _ _ Hx _ _ Hy). reflexivity.
Qed.

(** The remainder of a whole number that is not negative is zero. *)
Lemma rem1_integer x (n : Z) : (0 <= n)%Z → x == inject_Z n → Js.rem1 x == 0.
Proof.
  intros Hn Hx. unfold Js.rem1, Js.Qtrunc.
  assert (Hlt : Js.Qltb x 0 = false).
  { rewrite (Qltb_comp x (inject_Z n) 0 0 Hx (Qeq_refl 0)).
    destruct (Js.Qltb (inject_Z n) 0) eqn:E; [|reflexivity].
    apply Qltb_lt in E. unfold Qlt in E. simpl in E. lia. }
  rewrite Hlt, (Qfloor_comp _ _ Hx), Qfloor_Z, Hx. ring.
Qed.

(** For a number that is not negative the remainder is its fractional part. *)
Lemma rem1_fraction x :
  0 <= x → x == inject_Z (Qfloor x) + Js.rem1 x ∧ 0 <= Js.rem1 x ∧ Js.rem1 x < 1.
Proof.
  intros Hx. unfold Js.rem1, Js.Qtrunc.
  assert (Hlt : Js.Qltb x 0 = false).
  { destruct (Js.Qltb x 0) eqn:E; [|reflexivity].
    apply Qltb_lt in E. exfalso. exact (Qlt_not_le _ _ E Hx). }
  rewrite Hlt. split; [ring|].
  pose proof (Qfloor_le x) as Hlo. pose proof (Qlt_floor x) as Hhi.
  split.
  - apply (Qplus_le_r _ _ (inject_Z (Qfloor x))). ring_simplify. exact Hlo.
  - apply (Qplus_lt_r _ _ (inject_Z (Qfloor x))). ring_simplify.
    rewrite inject_Z_plus in Hhi. ring_simplify in Hhi. exact Hhi.
Qed.

End Sampling.

(** ** The execution summary *)

Lemma count_hit_dead (stats : list BranchHit) :
  (count (λ b, (0 <? hitCount b)%nat) stats
   + count (λ b, (hitCount b =? 0)%nat) stats)%nat
  = length stats.
Proof.
  unfold count. induction stats as [|b stats IH]; [reflexivity|].
  simpl. destruct (hitCount b) as [|h]; simpl; lia.
Qed.

(** C10. In the summary of any table, the hit branches and the dead branches
    add up to the total: a record is hit when its [hitCount] is positive and
    dead when it is zero, one or the other. *)
Theorem hit_plus_dead_is_total (s : state) :
  let sm := summary (getExecutionSummary s) in
  (hitBranches sm + deadBranches sm)%nat = totalBranches sm
  ∧ ∀ b, (if (0 <? hitCount b)%nat then 1 else 0)
         + (if (hitCount b =? 0)%nat then 1 else 0) = 1.
Proof.
  split.
  - unfold getExecutionSummary, summarize. simpl. apply count_hit_dead.
  - intros b. destruct (hitCount b); reflexivity.
Qed.

(** What the code counts as dead: the records whose [hitCount] is zero. *)
Lemma deadBranches_counts_unhit (s : state) :
  deadBranches (summary (getExecutionSummary s))
  = count (λ b, (hitCount b =? 0)%nat) (stats_of s).
Proof. reflexivity. Qed.

(** C1 fails on the code. After a single event whose test was false the
    record has one miss and no hit; the summary counts it as dead, while the
    count the specification words (no hit and no miss) is zero. *)
Theorem deadBranches_counts_a_missed_branch :
  let id := "Dashboard.tsx:45:8:if#0" in
  let s := run (new_collector DEFAULT_CONFIG "session")
             [RecordBranchHit id "if" "(ready)" (Js.VBool false) false 1 1] in
  (hitCount <$> lookup_branch s id) = Some 0%nat
  ∧ (missCount <$> lookup_branch s id) = Some 1%nat
  ∧ deadBranches (summary (getExecutionSummary s)) = 1%nat
  ∧ spec_deadBranches (stats_of s) = 0%nat.
Proof. vm_compute. repeat split. Qed.

(** ** Copies of the table *)

Section Copy.
Import JsObject JsObjectFacts.
Implicit Types (s : state) (l : loc).

Lemma getBranchStats_fresh s : (getBranchStats s).1 = length (tables s).
Proof. reflexivity. Qed.

Lemma getBranchStats_table s :
  table_at (getBranchStats s).2 (getBranchStats s).1
  = spread (table_at s (branchStats s)).
Proof. unfold getBranchStats. apply table_at_alloc_new. Qed.

Lemma getBranchStats_frame s l :
  (l < length (tables s))%nat →
  table_at (getBranchStats s).2 l = table_at s l
  ∧ records (getBranchStats s).2 = records s
  ∧ branchStats (getBranchStats s).2 = branchStats s
  ∧ (length (tables s) < length (tables (getBranchStats s).2))%nat.
Proof.
  intros Hl. unfold getBranchStats. split; [apply table_at_alloc, Hl|].
  simpl. rewrite length_app. simpl. repeat split. lia.
Qed.

(** The summary and the records of the branches are read off the collector's
    table and the records alone. *)
Lemma same_table_same_view s s' :
  table_at s' (branchStats s') = table_at s (branchStats s) →
  records s' = records s →
  (∀ id, lookup_branch s' id = lookup_branch s id)
  ∧ getExecutionSummary s' = getExecutionSummary s.
Proof.
  intros Ht Hr. unfold getExecutionSummary, stats_of, lookup_branch.
  rewrite Ht, Hr. split; reflexivity.
Qed.

Lemma mutate_own_property l s m :
  own_property m = true → l ≠ branchStats s →
  table_at (mutate l s m) (branchStats (mutate l s m)) = table_at s (branchStats s)
  ∧ records (mutate l s m) = records s
  ∧ branchStats (mutate l s m) = branchStats s.
Proof.
  intros Hm Hl. destruct m as [k r|k|k f]; [| |discriminate]; simpl;
    (split; [apply table_at_alter_ne, Hl|split; reflexivity]).
Qed.

Lemma mutations_own_property l ms s :
  forallb own_property ms = true → l ≠ branchStats s →
  table_at (mutations l s ms) (branchStats (mutations l s ms))
  = table_at s (branchStats s)
  ∧ records (mutations l s ms) = records s.
Proof.
  revert s. induction ms as [|m ms IH]; intros s Hms Hl; [split; reflexivity|].
  simpl in Hms. apply andb_true_iff in Hms as [Hm Hms].
  destruct (mutate_own_property l s m Hm Hl) as (Ht & Hr & Hb).
  change (mutations l s (m :: ms)) with (mutations l (mutate l s m) ms).
  destruct (IH (mutate l s m) Hms) as [Ht' Hr']; [rewrite Hb; exact Hl|].
  rewrite Ht', Hr'. split; assumption.
Qed.

(** C8. [getBranchStats] hands out a new table with the keys and record
    references of the collector's table: a shallow copy that is independent
    of the collector's table. Whatever keys the caller then writes or
    deletes in the table it received, the collector's table, its records and
    its summary stay as they were. *)
Theorem getBranchStats_copy_keeps_table_apart cfg sid cs ms :
  forallb own_property ms = true →
  let s := run (new_collector cfg sid) cs in
  let l := (getBranchStats s).1 in
  let s1 := (getBranchStats s).2 in
  let s2 := mutations l s1 ms in
  l ≠ branchStats s
  ∧ (∀ k, get (table_at s1 l) k = get (table_at s (branchStats s)) k)
  ∧ table_at s2 (branchStats s2) = table_at s (branchStats s)
  ∧ records s2 = records s
  ∧ (∀ id, lookup_branch s2 id = lookup_branch s id)
  ∧ getExecutionSummary s2 = getExecutionSummary s.
Proof.
  intros Hms s l s1 s2.
  assert (Hwf : wf s) by apply run_wf, new_collector_wf.
  pose proof (wf_table s Hwf) as Hb.
  destruct (getBranchStats_frame s (branchStats s) Hb) as (Ht1 & Hr1 & Hb1 & _).
  fold s1 in Ht1, Hr1, Hb1.
  assert (Hl : l ≠ branchStats s) by (unfold l; rewrite getBranchStats_fresh; lia).
  split; [exact Hl|]. split.
  { intros k. unfold l, s1. rewrite getBranchStats_table. apply get_entries. }
  destruct (mutations_own_property l ms s1 Hms) as [Ht2 Hr2];
    [rewrite Hb1; exact Hl|].
  fold s2 in Ht2, Hr2.
  assert (Ht : table_at s2 (branchStats s2) = table_at s (branchStats s))
    by (rewrite Ht2, Hb1; exact Ht1).
  assert (Hr : records s2 = records s) by (rewrite Hr2; exact Hr1).
  split; [exact Ht|]. split; [exact Hr|].
  apply same_table_same_view; assumption.
Qed.

(** Two keys are overwritten and one deleted in the copy of a table that
    holds one record. *)
Lemma getBranchStats_copy_keeps_table_apart_witness :
  let id := "Dashboard.tsx:45:8:if#0" in
  let s := run (new_collector DEFAULT_CONFIG "session")
             [RecordBranchHit id "if" "(ready)" (Js.VBool false) false 1 1] in
  let l := (getBranchStats s).1 in
  let s2 := mutations l (getBranchStats s).2
              [SetKey id 7%nat; SetKey "other" 0%nat; DeleteKey id] in
  get (table_at (getBranchStats s).2 l) id = Some 0%nat
  ∧ get (table_at s2 l) id = None
  ∧ get (table_at s2 (branchStats s2)) id = Some 0%nat
  ∧ getExecutionSummary s2 = getExecutionSummary s.
Proof.
  intros id s l s2.
  pose proof (getBranchStats_copy_keeps_table_apart DEFAULT_CONFIG "session"
                [RecordBranchHit id "if" "(ready)" (Js.VBool false) false 1 1]
                [SetKey id 7%nat; SetKey "other" 0%nat; DeleteKey id] eq_refl)
    as (_ & _ & _ & _ & _ & Hsum).
  split; [reflexivity|]. split; [reflexivity|]. split; [reflexivity|exact Hsum].
Defined.

(** The copy is shallow: the records are not copied with the table. A write
    to a record reached through the table that [getBranchStats] returned is
    a write to the collector's own record. Here the collector holds one
    branch that was never hit; after the caller raises the hit count of the
    record found in its copy, the collector's summary reports one hit
    branch. *)
Lemma getBranchStats_copy_shares_records :
  let id := "Dashboard.tsx:45:8:if#0" in
  let s := run (new_collector DEFAULT_CONFIG "session")
             [RecordBranchHit id "if" "(ready)" (Js.VBool false) false 1 1] in
  let l := (getBranchStats s).1 in
  let s1 := (getBranchStats s).2 in
  let s2 := mutations l s1 [WriteRecord id (bump (Js.VBool true))] in
  l ≠ branchStats s
  ∧ (hitCount <$> lookup_branch s1 id) = Some 0%nat
  ∧ (hitCount <$> lookup_branch s2 id) = Some 1%nat
  ∧ hitBranches (summary (getExecutionSummary s1)) = 0%nat
  ∧ hitBranches (summary (getExecutionSummary s2)) = 1%nat
  ∧ getExecutionSummary s2 ≠ getExecutionSummary s1.
Proof.
  vm_compute. repeat split; try discriminate.
Qed.

Lemma snapshot_same s s' l l' :
  table_at s' l' = table_at s l → records s' = records s →
  snapshot s' l' = snapshot s l.
Proof. intros Ht Hr. unfold snapshot. rewrite Ht, Hr. reflexivity. Qed.

(** C9. Two calls of [exportData] in a row, with no event in between, return
    tables with the same keys and the same records, and equal summaries. *)
Theorem exportData_twice_is_the_same cfg sid cs :
  let s := run (new_collector cfg sid) cs in
  let d1 := (exportData s).1 in
  let s1 := (exportData s).2 in
  let d2 := (exportData s1).1 in
  let s2 := (exportData s1).2 in
  snapshot s2 (ed_branchStats d2) = snapshot s1 (ed_branchStats d1)
  ∧ snapshot s2 (ed_branchStats d1) = snapshot s1 (ed_branchStats d1)
  ∧ ed_executionSummary d2 = ed_executionSummary d1
  ∧ (∀ id, lookup_branch s2 id = lookup_branch s id).
Proof.
  intros s d1 s1 d2 s2.
  assert (Hwf : wf s) by apply run_wf, new_collector_wf.
  pose proof (wf_table s Hwf) as Hb.
  assert (E1 : exportData s = ({| ed_branchStats := (getBranchStats s).1;
                                   ed_executionSummary := getExecutionSummary (getBranchStats s).2;
                                   ed_config := config (getBranchStats s).2;
                                   ed_sessionId := sessionId (getBranchStats s).2 |},
                               (getBranchStats s).2)) by reflexivity.
  assert (E2 : exportData s1 = ({| ed_branchStats := (getBranchStats s1).1;
                                   ed_executionSummary := getExecutionSummary (getBranchStats s1).2;
                                   ed_config := config (getBranchStats s1).2;
                                   ed_sessionId := sessionId (getBranchStats s1).2 |},
                               (getBranchStats s1).2)) by reflexivity.
  assert (Hs1 : s1 = (getBranchStats s).2) by (unfold s1; rewrite E1; reflexivity).
  assert (Hs2 : s2 = (getBranchStats s1).2) by (unfold s2; rewrite E2; reflexivity).
  assert (Hd1 : ed_branchStats d1 = length (tables s)) by (unfold d1; rewrite E1; reflexivity).
  assert (Hd2 : ed_branchStats d2 = length (tables s1)) by (unfold d2; rewrite E2; reflexivity).
  destruct (getBranchStats_frame s (branchStats s) Hb) as (Ht1 & Hr1 & Hb1 & Hlen1).
  rewrite <- Hs1 in Ht1, Hr1, Hb1, Hlen1.
  assert (Hb' : (branchStats s1 < length (tables s1))%nat) by (rewrite Hb1; lia).
  destruct (getBranchStats_frame s1 (branchStats s1) Hb') as (Ht2 & Hr2 & Hb2 & _).
  destruct (getBranchStats_frame s1 (length (tables s)) Hlen1) as (Ht3 & _).
  rewrite <- Hs2 in Ht2, Hr2, Hb2, Ht3.
  assert (Hc1 : table_at s1 (length (tables s)) = spread (table_at s (branchStats s))).
  { rewrite Hs1. apply getBranchStats_table. }
  assert (Hc2 : table_at s2 (length (tables s1)) = spread (table_at s1 (branchStats s1))).
  { rewrite Hs2. apply getBranchStats_table. }
  rewrite Hd1, Hd2. split; [|split; [|split]].
  - apply snapshot_same; [|exact Hr2]. rewrite Hc1, Hc2, Hb1, Ht1. reflexivity.
  - apply snapshot_same; [exact Ht3|exact Hr2].
  - unfold d1, d2. rewrite E1, E2. cbn [fst ed_executionSummary].
    rewrite <- Hs1, <- Hs2.
    apply same_table_same_view; [rewrite Hb2; exact Ht2|exact Hr2].
  - apply same_table_same_view.
    + rewrite Hb2, Ht2, Hb1. exact Ht1.
    + rewrite Hr2. exact Hr1.
Qed.

End Copy.

(** ** Instrumented conditionals *)

Section Instrumented.
Variable cwd : string.
Variable performance_now : nat → Q.

(** The pair built by the visitors runs the tested expression, hands its
    value to the collector, and then runs the tested expression again; the
    value of the pair is the value of the second run. *)
Lemma instrumented_test_runs_twice context path type conditionCode test w :
  eval performance_now (instrument cwd context path type conditionCode test) w
  = '(v, w) ← eval performance_now test w;
    '(_, w) ← call_recordBranchHit performance_now
                (call_args cwd context path type conditionCode v) w;
    eval performance_now test w.
Proof.
  unfold instrument, call_args, createInstrumentationCall.
  destruct (default (0%nat, 0%nat) (loc_start path)) as [line column].
  destruct (collects context); simpl;
    destruct (eval performance_now test w) as [[v w1]|]; simpl; try reflexivity;
    match goal with
    | |- context [call_recordBranchHit performance_now ?args w1] =>
        destruct (call_recordBranchHit performance_now args w1) as [[? w2]|]
    end; simpl; try reflexivity;
    destruct (eval performance_now test w2) as [[]|]; reflexivity.
Qed.

End Instrumented.

(** Every visitor installs that pair in place of the expression it tests. *)
Lemma visitors_install_the_pair cwd path context test consequent alternate :
  (∃ code,
     (visit_IfStatement cwd path (IfStatement test consequent alternate)
        (Some context)).1
     = IfStatement (instrument cwd context path "if" code test) consequent alternate)
  ∧ (∀ a b, ∃ code,
       (visit_ConditionalExpression cwd path (ConditionalExpression test a b)
          (Some context)).1
       = ConditionalExpression (instrument cwd context path "ternary" code test) a b)
  ∧ (∀ b, ∃ code,
       (visit_LogicalExpression cwd path (LogicalExpression "&&" test b)
          (Some context)).1
       = LogicalExpression "&&" (instrument cwd context path "logical" code test) b
       ∧ (visit_LogicalExpression cwd path (LogicalExpression "||" test b)
            (Some context)).1
         = LogicalExpression "||" (instrument cwd context path "logical" code test) b)
  ∧ (∀ b, ∃ code,
       (visit_JSXExpressionContainer cwd path
          {| expression := LogicalExpression "&&" test b |} (Some context)).1
       = {| expression :=
              LogicalExpression "&&"
                (instrument cwd context path "jsx-conditional" code test) b |})
  ∧ (∀ a b, ∃ code,
       (visit_JSXExpressionContainer cwd path
          {| expression := ConditionalExpression test a b |} (Some context)).1
       = {| expression :=
              ConditionalExpression
                (instrument cwd context path "jsx-ternary" code test) a b |}).
Proof.
  repeat split; intros; eexists; try split; reflexivity.
Qed.

(** C2 fails on the code. For [if (x++ < 1) y = 1; else y = 2;] started with
    [x = 0], the original runs the test once and takes the first branch; the
    rewritten statement runs the test twice, so [x] ends at 2 and the second
    branch is taken, while the collector has recorded a hit. *)
Theorem instrumented_if_runs_test_twice :
  Sample.final_vars (exec Sample.clock Sample.if_statement (Sample.page 0))
  = Some [("x", Js.VNum 1); ("y", Js.VNum 1)]
  ∧ Sample.final_vars (exec Sample.clock Sample.if_instrumented (Sample.page 0))
    = Some [("x", Js.VNum 2); ("y", Js.VNum 2)]
  ∧ (hitCount <$> Sample.final_branch
                    (exec Sample.clock Sample.if_instrumented (Sample.page 0))
                    "src/App.tsx:10:4:if#0") = Some 1%nat.
Proof. vm_compute. repeat split. Qed.

(** C3 fails on the code. In [switch (x) { case 0: ...; case 1: ... }] run
    with [x = 0], the body of [case 0] runs and its instrumentation records a
    miss, not a hit, because the label [0] is passed as the result of the
    test; [case 1], whose body does not run, gets no record. *)
Theorem instrumented_case_with_falsy_label_is_a_miss :
  let r := exec Sample.clock Sample.switch_instrumented (Sample.page 0) in
  Sample.final_vars r = Some [("x", Js.VNum 0); ("y", Js.VNum 1)]
  ∧ (hitCount <$> Sample.final_branch r "src/App.tsx:20:2:switch-case#0") = Some 0%nat
  ∧ (missCount <$> Sample.final_branch r "src/App.tsx:20:2:switch-case#0") = Some 1%nat
  ∧ Sample.final_branch r "src/App.tsx:20:2:switch-case#1" = None.
Proof. vm_compute. repeat split. Qed.

(** * Further properties *)

(** ** More on tables *)

Module JsObjectMore.
Import JsObject JsObjectFacts.

Section More.
Context {V : Type}.
Implicit Types (o : JsObject.t V) (k : string) (v : V).

Lemma get_Some_elem o k v : get o k = Some v → (k, v) ∈ o.
Proof.
  induction o as [|[k0 v0] o IH]; simpl; [discriminate|].
  destruct (String.eqb_spec k0 k) as [->|Hne].
  - intros [= ->]. left.
  - intros H. right. apply IH, H.
Qed.

Lemma get_None_notin o k : get o k = None ↔ k ∉ o.*1.
Proof.
  induction o as [|[k0 v0] o IH]; simpl.
  - split; [intros _ H; inversion H|reflexivity].
  - rewrite not_elem_of_cons. destruct (String.eqb_spec k0 k) as [->|Hne].
    + split; [discriminate|intros [H _]; contradiction].
    + rewrite IH. split; [intros H; split; [congruence|exact H]|intros [_ H]; exact H].
Qed.

Lemma elem_get o k v : NoDup o.*1 → (k, v) ∈ o → get o k = Some v.
Proof.
  induction o as [|[k0 v0] o IH]; simpl; intros Hnd Hin; [inversion Hin|].
  apply NoDup_cons in Hnd as [Hk0 Hnd].
  apply elem_of_cons in Hin as [[= -> ->]|Hin].
  - rewrite String.eqb_refl. reflexivity.
  - destruct (String.eqb_spec k0 k) as [->|Hne]; [|apply IH; assumption].
    exfalso. apply Hk0. apply list_elem_of_fmap. exists (k, v). split; [reflexivity|exact Hin].
Qed.

Lemma set_keys o k v :
  (set o k v).*1 = if bool_decide (k ∈ o.*1) then o.*1 else o.*1 ++ [k].
Proof.
  induction o as [|[k0 v0] o IH]; [reflexivity|].
  cbn [set]. destruct (String.eqb_spec k0 k) as [->|Hne];
    rewrite !fmap_cons; cbn [fst].
  - rewrite bool_decide_eq_true_2 by left. reflexivity.
  - rewrite IH. destruct (decide (k ∈ o.*1)) as [Hin|Hin].
    + rewrite !bool_decide_eq_true_2 by (try right; exact Hin). reflexivity.
    + rewrite !bool_decide_eq_false_2; [reflexivity| |exact Hin].
      rewrite not_elem_of_cons. split; [congruence|exact Hin].
Qed.

Lemma set_NoDup o k v : NoDup o.*1 → NoDup (set o k v).*1.
Proof.
  intros Hnd. rewrite set_keys. case_bool_decide as Hin; [exact Hnd|].
  apply NoDup_app. split; [exact Hnd|]. split; [|apply NoDup_singleton].
  intros x Hx Hx'. apply list_elem_of_singleton in Hx'. subst. contradiction.
Qed.

Lemma insert_sorted_perm (le : string * V → string * V → bool) x o :
  Js.insert_sorted le x o ≡ₚ x :: o.
Proof.
  induction o as [|y o IH]; simpl; [reflexivity|].
  destruct (le x y); [reflexivity|]. rewrite IH. apply Permutation_swap.
Qed.

Lemma sort_perm (le : string * V → string * V → bool) o : Js.sort le o ≡ₚ o.
Proof.
  induction o as [|y o IH]; [reflexivity|].
  unfold Js.sort in *. simpl. rewrite insert_sorted_perm, IH. reflexivity.
Qed.

Lemma filter_split_perm (P : string * V → bool) o :
  List.filter P o ++ List.filter (λ p, negb (P p)) o ≡ₚ o.
Proof.
  induction o as [|y o IH]; [reflexivity|].
  simpl. destruct (P y); simpl.
  - rewrite IH. reflexivity.
  - rewrite <- Permutation_middle, IH. reflexivity.
Qed.

(** Enumeration rearranges the properties and loses none. *)
Lemma entries_perm o : entries o ≡ₚ o.
Proof.
  unfold entries. rewrite sort_perm.
  apply (filter_split_perm (λ p, is_index p.1)).
Qed.

Lemma entries_NoDup o : NoDup o.*1 → NoDup (entries o).*1.
Proof. intros H. rewrite (entries_perm o). exact H. Qed.


Lemma foldl_set_NoDup (l : list (string * V)) o :
  NoDup o.*1 → NoDup (foldl (λ o p, set o p.1 p.2) o l).*1.
Proof.
  revert o. induction l as [|[k0 v0] l IH]; intros o Hnd; [exact Hnd|].
  simpl. apply IH, set_NoDup, Hnd.
Qed.


End More.

End JsObjectMore.

(** ** More on single events *)

Section Frames.
Import JsObject JsObjectFacts.
Implicit Types (s : state) (id : string).

(** The update of the table touches neither the configuration nor the gate
    counters nor the table reference. *)
Lemma store_event_frame id ty code r collect now later s :
  let s' := store_event id ty code r collect now later s in
  samplingConfig s' = samplingConfig s
  ∧ config s' = config s
  ∧ sampleCounter s' = sampleCounter s
  ∧ lastSampleTime s' = lastSampleTime s
  ∧ sessionId s' = sessionId s
  ∧ branchStats s' = branchStats s.
Proof.
  unfold store_event.
  destruct (get (table_at s (branchStats s)) id); cbv beta iota zeta.
  - destruct (get (table_at s (branchStats s)) id); [|repeat split].
    destruct collect; repeat split.
  - cbn [alloc_record]. cbv beta iota.
    match goal with |- context [get ?t id] => destruct (get t id) end;
      [|repeat split].
    destruct collect; repeat split.
Qed.

Lemma step_samplingConfig s c : samplingConfig (step s c) = samplingConfig s.
Proof.
  destruct c as [id ty code r collect now later|]; [|reflexivity].
  simpl. rewrite recordBranchHit_gate. simpl.
  destruct (gate_frame now s) as (_ & _ & _ & Hsc & _).
  destruct (gate now s).1; [|exact Hsc].
  destruct (store_event_frame id ty code r collect now later (gate now s).2)
    as (H & _). rewrite H. exact Hsc.
Qed.

Lemma run_samplingConfig cs s : samplingConfig (run s cs) = samplingConfig s.
Proof.
  revert s. induction cs as [|c cs IH]; intros s; [reflexivity|].
  change (run s (c :: cs)) with (run (step s c) cs).
  rewrite IH. apply step_samplingConfig.
Qed.

Lemma run_app s cs1 cs2 : run s (cs1 ++ cs2) = run (run s cs1) cs2.
Proof. apply foldl_app. Qed.

Lemma step_disabled id ty code r collect now later s :
  enabled (samplingConfig s) = false →
  step s (RecordBranchHit id ty code r collect now later)
  = store_event id ty code r collect now later s.
Proof.
  intros He. simpl. rewrite recordBranchHit_gate, gate_disabled by exact He.
  reflexivity.
Qed.

Lemma hits_touch r collect now later b :
  hits (Some (touch r collect now later b))
  = (hits (Some b) + if Js.truthy r then 1 else 0)%nat
  ∧ misses (Some (touch r collect now later b))
    = (misses (Some b) + if Js.truthy r then 0 else 1)%nat.
Proof.
  unfold touch. destruct collect; simpl; destruct (Js.truthy r); simpl; lia.
Qed.

Lemma results_for_cons truth id c cs :
  results_for truth id (c :: cs)
  = ((match c with
      | RecordBranchHit id' _ _ r _ _ _ =>
          if String.eqb id' id && Bool.eqb (Js.truthy r) truth then 1 else 0
      | ClearStats => 0
      end) + results_for truth id cs)%nat.
Proof.
  unfold results_for. simpl. destruct c as [id' ty code r collect now later|];
    [|reflexivity].
  destruct (String.eqb id' id && Bool.eqb (Js.truthy r) truth); reflexivity.
Qed.

Lemma hits_disabled cs s id :
  wf s → enabled (samplingConfig s) = false → only_records cs = true →
  hits (lookup_branch (run s cs) id)
  = (hits (lookup_branch s id) + results_for true id cs)%nat
  ∧ misses (lookup_branch (run s cs) id)
    = (misses (lookup_branch s id) + results_for false id cs)%nat.
Proof.
  revert s. induction cs as [|c cs IH]; intros s Hwf He Hcs.
  - unfold results_for. simpl. lia.
  - destruct c as [id' ty code r collect now later|]; [|discriminate].
    simpl in Hcs.
    change (run s (RecordBranchHit id' ty code r collect now later :: cs))
      with (run (step s (RecordBranchHit id' ty code r collect now later)) cs).
    rewrite step_disabled by exact He.
    destruct (IH (store_event id' ty code r collect now later s)) as [Hh Hm];
      [apply store_event_wf, Hwf
      |rewrite store_event_samplingConfig; exact He|exact Hcs|].
    rewrite Hh, Hm, !results_for_cons, store_event_lookup by exact Hwf.
    destruct (String.eqb_spec id' id) as [->|Hne]; [|simpl; lia].
    destruct (hits_touch r collect now later
                (default (new_record id ty code now) (lookup_branch s id)))
      as [Hth Htm].
    rewrite Hth, Htm.
    destruct (lookup_branch s id); destruct (Js.truthy r); simpl; lia.
Qed.

End Frames.

(** X1. With sampling disabled, the record of a branch id holds in
    [hitCount] the number of calls made with that id whose result was truthy
    and in [missCount] the number of those whose result was falsy. *)
Theorem hit_and_miss_counts cfg sid cs id :
  enabled (sampling cfg) = false →
  only_records cs = true →
  let s := run (new_collector cfg sid) cs in
  hits (lookup_branch s id) = results_for true id cs
  ∧ misses (lookup_branch s id) = results_for false id cs.
Proof.
  intros He Hcs s.
  destruct (hits_disabled cs (new_collector cfg sid) id
              (new_collector_wf cfg sid) He Hcs) as [Hh Hm].
  split; [exact Hh|exact Hm].
Qed.

(** Results true, false, true: two hits and one miss. *)
Lemma hit_and_miss_counts_witness :
  let id := "Dashboard.tsx:45:8:if#0" in
  let cs := [RecordBranchHit id "if" "(ready)" (Js.VBool true) false 1 1;
             RecordBranchHit id "if" "(ready)" (Js.VNum 0) false 2 2;
             RecordBranchHit id "if" "(ready)" (Js.VStr "yes") false 3 3] in
  let s := run (new_collector DEFAULT_CONFIG "session") cs in
  hits (lookup_branch s id) = 2%nat ∧ misses (lookup_branch s id) = 1%nat.
Proof.
  intros id cs s.
  exact (hit_and_miss_counts DEFAULT_CONFIG "session" cs id eq_refl eq_refl).
Defined.

(** ** Closed gates *)

Section Limiter.
Local Open Scope Q_scope.
Implicit Types (s : state).

(** With sampling enabled, a rate of zero or a cap of zero closes the gates. *)
Lemma gate_closed now s :
  enabled (samplingConfig s) = true →
  sampleRate (samplingConfig s) == 0
  ∨ maxSamplesPerSecond (samplingConfig s) == 0 →
  (gate now s).1 = false.
Proof.
  intros He Hz. unfold gate. rewrite He. unfold shouldSample.
  cbn [samplingConfig sampleCounter set_sampleCounter].
  destruct Hz as [Hr|Hcap].
  - assert (Hx : inject_Z (Z.of_nat (S (sampleCounter s)))
                 * sampleRate (samplingConfig s) == inject_Z 0)
      by (rewrite Hr; ring).
    rewrite (Qltb_comp _ 0 _ 0); [reflexivity| |exact Hr].
    apply (rem1_integer _ 0%Z); [lia|exact Hx].
  - destruct (Js.Qltb _ _); [|reflexivity].
    unfold isRateLimited. cbn [samplingConfig set_sampleCounter].
    apply Qeq_bool_iff in Hcap. rewrite Hcap. reflexivity.
Qed.

End Limiter.

Section Closed.
Import JsObject JsObjectFacts.

Lemma recorded_nil_when_closed cs s :
  enabled (samplingConfig s) = true →
  (sampleRate (samplingConfig s) == 0
   ∨ maxSamplesPerSecond (samplingConfig s) == 0)%Q →
  recorded [] s cs = [].
Proof.
  revert s. induction cs as [|c cs IH]; intros s He Hz; [reflexivity|].
  rewrite recorded_cons.
  assert (Hlog : recorded [] s [c] = []).
  { destruct c as [id ty code r collect now later|]; [|reflexivity].
    simpl. rewrite gate_closed by assumption. reflexivity. }
  rewrite Hlog. apply IH; rewrite step_samplingConfig; assumption.
Qed.

Lemma empty_table_no_stats s :
  (∀ id, get (table_at s (branchStats s)) id = None) → stats_of s = [].
Proof.
  intros H. unfold stats_of.
  destruct (table_at s (branchStats s)) as [|[k v] t]; [reflexivity|].
  specialize (H k). simpl in H. rewrite String.eqb_refl in H. discriminate.
Qed.

End Closed.

(** X3. With sampling enabled, a sample rate of zero or a cap of zero samples
    per second means that nothing is ever recorded: after any series of
    calls the table has no record and the summary counts no branch. *)
Theorem nothing_recorded_at_zero_rate_or_cap cfg sid cs :
  enabled (sampling cfg) = true →
  (sampleRate (sampling cfg) == 0 ∨ maxSamplesPerSecond (sampling cfg) == 0)%Q →
  let s := run (new_collector cfg sid) cs in
  (∀ id, lookup_branch s id = None)
  ∧ totalBranches (summary (getExecutionSummary s)) = 0%nat.
Proof.
  intros He Hz s.
  pose proof (agrees_run cs _ _ (new_collector_wf cfg sid) (agrees_new cfg sid))
    as Hag.
  rewrite (recorded_nil_when_closed cs (new_collector cfg sid) He Hz) in Hag.
  fold s in Hag.
  assert (Hnone : ∀ id, JsObject.get (table_at s (branchStats s)) id = None).
  { intros id. destruct (Hag id) as [Hkey _].
    destruct (JsObject.get (table_at s (branchStats s)) id) eqn:E; [|reflexivity].
    assert (Hin : id ∈ @nil string) by (apply Hkey; eexists; reflexivity).
    inversion Hin. }
  split.
  - intros id. unfold lookup_branch. rewrite Hnone. reflexivity.
  - unfold getExecutionSummary. rewrite (empty_table_no_stats s Hnone). reflexivity.
Qed.

(** A cap of zero at full rate. *)
Lemma nothing_recorded_at_zero_rate_or_cap_witness :
  let cfg := {| cfg_enabled := true;
                sampling := {| enabled := true; sampleRate := 1;
                               maxSamplesPerSecond := 0;
                               collectExecutionTime := false |};
                excludePatterns := []; includePatterns := [];
                sendToAnalytics := false; analyticsEndpoint := None;
                visualizationEnabled := true |} in
  let s := run (new_collector cfg "session")
             [RecordBranchHit "App.tsx:3:2:if#0" "if" "(x)" (Js.VBool true) false 5 5] in
  (∀ id, lookup_branch s id = None)
  ∧ totalBranches (summary (getExecutionSummary s)) = 0%nat.
Proof.
  intros cfg s.
  apply (nothing_recorded_at_zero_rate_or_cap cfg "session"
           [RecordBranchHit "App.tsx:3:2:if#0" "if" "(x)" (Js.VBool true) false 5 5]);
    [reflexivity|right; reflexivity].
Defined.

(** ** Clearing and reconfiguring *)

Section Clearing.
Import JsObject JsObjectFacts.
Implicit Types (s : state).

Lemma wf_same s s' :
  tables s' = tables s → records s' = records s → branchStats s' = branchStats s →
  wf s → wf s'.
Proof.
  intros Ht Hr Hb [H1 H2 H3].
  split; unfold table_at in *; rewrite ?Ht, ?Hr, ?Hb; assumption.
Qed.

Lemma lookup_branch_same s s' id :
  tables s' = tables s → records s' = records s → branchStats s' = branchStats s →
  lookup_branch s' id = lookup_branch s id.
Proof.
  intros Ht Hr Hb. unfold lookup_branch, table_at. rewrite Ht, Hr, Hb. reflexivity.
Qed.

Lemma clearStats_lookup s id : lookup_branch (clearStats s) id = None.
Proof. unfold lookup_branch. rewrite clearStats_empty. reflexivity. Qed.

End Clearing.

(** X4. [clearStats] leaves a collector whose summary is that of an empty
    table and whose gate counters are back at zero. The records and the
    tables that exist already, such as copies handed out by
    [getBranchStats], are not emptied. *)
Theorem clearStats_resets (s : state) :
  let s' := clearStats s in
  getExecutionSummary s' = summarize []
  ∧ (∀ id, lookup_branch s' id = None)
  ∧ sampleCounter s' = 0%nat
  ∧ lastSampleTime s' = 0%Q
  ∧ samplingConfig s' = samplingConfig s
  ∧ records s' = records s
  ∧ (∀ l, (l < length (tables s))%nat → table_at s' l = table_at s l).
Proof.
  intros s'. split; [|split; [intros id; apply clearStats_lookup|]].
  - unfold getExecutionSummary. f_equal. apply empty_table_no_stats.
    intros id. apply clearStats_empty.
  - repeat split. intros l Hl. unfold s', clearStats, table_at. simpl.
    rewrite lookup_app_l by exact Hl. reflexivity.
Qed.

(** X5. After [clearStats] the counting starts afresh: with sampling
    disabled, whatever was recorded before the clear, the record of a branch
    id counts the calls made with that id since the clear. *)
Theorem counting_restarts_after_clear cfg sid before cs id :
  enabled (sampling cfg) = false →
  only_records cs = true →
  let s := run (new_collector cfg sid) (before ++ ClearStats :: cs) in
  observations (lookup_branch s id) = calls_for id cs.
Proof.
  intros He Hcs s. unfold s. rewrite run_app.
  change (run (run (new_collector cfg sid) before) (ClearStats :: cs))
    with (run (clearStats (run (new_collector cfg sid) before)) cs).
  rewrite observations_disabled; [|apply clearStats_wf| |exact Hcs].
  - rewrite clearStats_lookup. reflexivity.
  - change (samplingConfig (clearStats (run (new_collector cfg sid) before)))
      with (samplingConfig (run (new_collector cfg sid) before)).
    rewrite run_samplingConfig. exact He.
Qed.

(** Three events, a clear, one event. *)
Lemma counting_restarts_after_clear_witness :
  let id := "Dashboard.tsx:45:8:if#0" in
  let hit := RecordBranchHit id "if" "(ready)" (Js.VBool true) false 1 1 in
  let s := run (new_collector DEFAULT_CONFIG "session")
             ([hit; hit; hit] ++ ClearStats :: [hit]) in
  observations (lookup_branch s id) = 1%nat.
Proof.
  intros id hit s.
  exact (counting_restarts_after_clear DEFAULT_CONFIG "session" [hit; hit; hit]
           [hit] id eq_refl eq_refl).
Defined.

Section Reconfiguring.
Import JsObject JsObjectFacts.
Implicit Types (s : state).

Lemma store_event_set_config c id ty code r collect now later s :
  store_event id ty code r collect now later (set_config c s)
  = set_config c (store_event id ty code r collect now later s).
Proof.
  unfold store_event.
  change (table_at (set_config c s) (branchStats (set_config c s)))
    with (table_at s (branchStats s)).
  destruct (get (table_at s (branchStats s)) id) as [l|] eqn:Hget;
    cbv beta iota zeta.
  - change (table_at (set_config c s) (branchStats (set_config c s)))
      with (table_at s (branchStats s)).
    rewrite Hget. destruct collect; reflexivity.
  - cbn [alloc_record]. cbv beta iota.
    match goal with
    | |- match get ?t id with _ => _ end = set_config c (match get ?t' id with _ => _ end) =>
        change t with t'; destruct (get t' id)
    end; [|reflexivity].
    destruct collect; reflexivity.
Qed.

Lemma gate_set_config c now s :
  gate now (set_config c s) = ((gate now s).1, set_config c (gate now s).2).
Proof.
  unfold gate. cbn [samplingConfig set_config].
  destruct (enabled (samplingConfig s)); [|reflexivity].
  unfold shouldSample. cbn [samplingConfig sampleCounter set_config set_sampleCounter].
  destruct (Js.Qltb _ _); [|reflexivity].
  unfold isRateLimited.
  cbn [samplingConfig lastSampleTime set_config set_sampleCounter].
  destruct (if Qeq_bool _ 0 then true else _); reflexivity.
Qed.

Lemma step_set_config c s call : step (set_config c s) call = set_config c (step s call).
Proof.
  destruct call as [id ty code r collect now later|]; [|reflexivity].
  simpl. rewrite !recordBranchHit_gate, gate_set_config. simpl.
  destruct (gate now s).1; [apply store_event_set_config|reflexivity].
Qed.

Lemma run_set_config c cs s : run (set_config c s) cs = set_config c (run s cs).
Proof.
  revert s. induction cs as [|call cs IH]; intros s; [reflexivity|].
  change (run (set_config c s) (call :: cs)) with (run (step (set_config c s) call) cs).
  rewrite step_set_config. apply IH.
Qed.

End Reconfiguring.

(** X6. [recordBranchHit] never reads the collector's [config]: an
    [updateConfig] that carries no [sampling] (one that sets [enabled] to
    false, say) changes nothing in what the collector records afterwards. *)
Theorem updateConfig_without_sampling_changes_nothing newConfig s cs :
  p_sampling newConfig = None →
  (∀ id, lookup_branch (run (updateConfig newConfig s) cs) id
         = lookup_branch (run s cs) id)
  ∧ getExecutionSummary (run (updateConfig newConfig s) cs)
    = getExecutionSummary (run s cs).
Proof.
  intros Hp.
  assert (E : updateConfig newConfig s
              = set_config (merge_config (config s) newConfig) s).
  { unfold updateConfig. rewrite Hp. reflexivity. }
  rewrite E, run_set_config. split; reflexivity.
Qed.

(** The collector is told to be disabled and goes on recording. *)
Lemma updateConfig_without_sampling_changes_nothing_witness :
  let off := {| p_enabled := Some false; p_sampling := None;
                p_excludePatterns := None; p_includePatterns := None;
                p_sendToAnalytics := None; p_analyticsEndpoint := None;
                p_visualizationEnabled := None |} in
  let id := "App.tsx:3:2:if#0" in
  let cs := [RecordBranchHit id "if" "(x)" (Js.VBool true) false 1 1] in
  let s := run (updateConfig off (new_collector DEFAULT_CONFIG "session")) cs in
  cfg_enabled (config s) = false
  ∧ lookup_branch s id
    = lookup_branch (run (new_collector DEFAULT_CONFIG "session") cs) id
  ∧ hits (lookup_branch s id) = 1%nat.
Proof.
  intros off id cs s.
  destruct (updateConfig_without_sampling_changes_nothing off
              (new_collector DEFAULT_CONFIG "session") cs eq_refl) as [H _].
  split; [reflexivity|]. split; [apply H|reflexivity].
Defined.

(** X7. An [updateConfig] that carries a [sampling] with sampling disabled
    takes effect at once: from then on every call is recorded, whatever the
    collector's sampling was before. *)
Theorem updateConfig_can_switch_sampling_off cfg sid before newConfig sc cs id :
  p_sampling newConfig = Some sc →
  enabled sc = false →
  only_records cs = true →
  let s0 := run (new_collector cfg sid) before in
  observations (lookup_branch (run (updateConfig newConfig s0) cs) id)
  = (observations (lookup_branch s0 id) + calls_for id cs)%nat.
Proof.
  intros Hp He Hcs s0.
  assert (Hwf : wf (updateConfig newConfig s0)).
  { apply (wf_same s0); [reflexivity..|]. apply run_wf, new_collector_wf. }
  rewrite observations_disabled; [|exact Hwf| |exact Hcs].
  - f_equal.
  - unfold updateConfig. rewrite Hp. exact He.
Qed.

(** A collector that samples at rate 0 records nothing until it is told to
    stop sampling. *)
Lemma updateConfig_can_switch_sampling_off_witness :
  let sc := sampling DEFAULT_CONFIG in
  let p := {| p_enabled := None; p_sampling := Some sc;
              p_excludePatterns := None; p_includePatterns := None;
              p_sendToAnalytics := None; p_analyticsEndpoint := None;
              p_visualizationEnabled := None |} in
  let id := "App.tsx:3:2:if#0" in
  let hit := RecordBranchHit id "if" "(x)" (Js.VBool true) false 1 1 in
  let s0 := run (new_collector (sampled_config 0) "session") [hit; hit] in
  observations (lookup_branch s0 id) = 0%nat
  ∧ observations (lookup_branch (run (updateConfig p s0) [hit; hit; hit]) id) = 3%nat.
Proof.
  intros sc p id hit s0. split; [reflexivity|].
  exact (updateConfig_can_switch_sampling_off (sampled_config 0) "session"
           [hit; hit] p sc [hit; hit; hit] id eq_refl eq_refl eq_refl).
Defined.

(** ** What a record remembers *)

Section Remembered.
Import JsObject JsObjectFacts.
Implicit Types (s : state) (id : string).

Lemma calls_for_cons id c cs :
  calls_for id (c :: cs)
  = ((match c with
      | RecordBranchHit id' _ _ _ _ _ _ => if String.eqb id' id then 1 else 0
      | ClearStats => 0
      end) + calls_for id cs)%nat.
Proof.
  unfold calls_for. simpl. destruct c as [id' ty code r collect now later|];
    [|reflexivity].
  destruct (String.eqb id' id); reflexivity.
Qed.

(** Calls made with other ids leave a record as it is. *)
Lemma lookup_unrelated cs s id :
  wf s → enabled (samplingConfig s) = false → only_records cs = true →
  calls_for id cs = 0%nat →
  lookup_branch (run s cs) id = lookup_branch s id.
Proof.
  revert s. induction cs as [|c cs IH]; intros s Hwf He Hcs Hn; [reflexivity|].
  destruct c as [id' ty code r collect now later|]; [|discriminate].
  simpl in Hcs. rewrite calls_for_cons in Hn.
  change (run s (RecordBranchHit id' ty code r collect now later :: cs))
    with (run (step s (RecordBranchHit id' ty code r collect now later)) cs).
  rewrite step_disabled by exact He.
  destruct (String.eqb_spec id' id) as [->|Hne]; [lia|].
  rewrite IH; [|apply store_event_wf, Hwf
               |rewrite store_event_samplingConfig; exact He|exact Hcs|lia].
  rewrite store_event_lookup by exact Hwf.
  destruct (String.eqb_spec id' id); [contradiction|reflexivity].
Qed.

Lemma site_touch r collect now later b : site (touch r collect now later b) = site b.
Proof. unfold touch. destruct collect; reflexivity. Qed.

Lemma site_kept cs s id b :
  wf s → enabled (samplingConfig s) = false → only_records cs = true →
  lookup_branch s id = Some b →
  ∃ b', lookup_branch (run s cs) id = Some b' ∧ site b' = site b.
Proof.
  revert s b. induction cs as [|c cs IH]; intros s b Hwf He Hcs Hb.
  - exists b. split; [exact Hb|reflexivity].
  - destruct c as [id' ty code r collect now later|]; [|discriminate].
    simpl in Hcs.
    change (run s (RecordBranchHit id' ty code r collect now later :: cs))
      with (run (step s (RecordBranchHit id' ty code r collect now later)) cs).
    rewrite step_disabled by exact He.
    pose proof (store_event_lookup id' ty code r collect now later s id Hwf) as Hl.
    destruct (String.eqb_spec id' id) as [->|Hne].
    + rewrite Hb in Hl. simpl in Hl.
      destruct (IH _ _ (store_event_wf id ty code r collect now later s Hwf)
                  ltac:(rewrite store_event_samplingConfig; exact He) Hcs Hl)
        as (b' & Hb' & Hs).
      exists b'. split; [exact Hb'|]. rewrite Hs. apply site_touch.
    + rewrite Hb in Hl.
      exact (IH _ _ (store_event_wf id' ty code r collect now later s Hwf)
               ltac:(rewrite store_event_samplingConfig; exact He) Hcs Hl).
Qed.

End Remembered.

(** X8. The record of a branch id keeps what its first event said about the
    branch: the type and the condition text passed with that event, and the
    file, line and column read off the id. Later events for the id, with
    whatever type and condition, do not change them. (Sampling disabled.) *)
Theorem record_keeps_first_site cfg sid before after id ty code r collect now later :
  enabled (sampling cfg) = false →
  only_records before = true → only_records after = true →
  calls_for id before = 0%nat →
  let s := run (new_collector cfg sid)
             (before ++ RecordBranchHit id ty code r collect now later :: after) in
  ∃ b, lookup_branch s id = Some b
       ∧ site b = site (new_record id ty code now).
Proof.
  intros He Hb Ha Hn s. unfold s. rewrite run_app.
  set (s1 := run (new_collector cfg sid) before).
  assert (Hwf1 : wf s1) by apply run_wf, new_collector_wf.
  assert (He1 : enabled (samplingConfig s1) = false)
    by (unfold s1; rewrite run_samplingConfig; exact He).
  assert (Hnone : lookup_branch s1 id = None).
  { unfold s1. rewrite lookup_unrelated;
      [reflexivity|apply new_collector_wf|exact He|exact Hb|exact Hn]. }
  change (run s1 (RecordBranchHit id ty code r collect now later :: after))
    with (run (step s1 (RecordBranchHit id ty code r collect now later)) after).
  rewrite step_disabled by exact He1.
  pose proof (store_event_lookup id ty code r collect now later s1 id Hwf1) as Hl.
  rewrite String.eqb_refl, Hnone in Hl. simpl in Hl.
  destruct (site_kept after _ id _
              (store_event_wf id ty code r collect now later s1 Hwf1)
              ltac:(rewrite store_event_samplingConfig; exact He1) Ha Hl)
    as (b & Hb' & Hs).
  exists b. split; [exact Hb'|]. rewrite Hs. apply site_touch.
Qed.

(** A second event with another type and condition text. *)
Lemma record_keeps_first_site_witness :
  let id := "src/App.tsx:10:4:if#0" in
  let s := run (new_collector DEFAULT_CONFIG "session")
             ([] ++ RecordBranchHit id "if" "(ready)" (Js.VBool true) false 1 1
                 :: [RecordBranchHit id "ternary" "other" (Js.VBool false) false 2 2]) in
  ∃ b, lookup_branch s id = Some b
       ∧ site b = (id, "src/App.tsx", Some 10, Some 4, "if", "(ready)").
Proof.
  intros id s.
  exact (record_keeps_first_site DEFAULT_CONFIG "session" []
           [RecordBranchHit id "ternary" "other" (Js.VBool false) false 2 2]
           id "if" "(ready)" (Js.VBool true) false 1 1
           eq_refl eq_refl eq_refl eq_refl).
Defined.

(** X9. The [timestamp] of a record is the clock reading of the last event
    recorded for its id, and when that event asked for the execution time,
    [executionTime] is the time between its two clock readings. (Sampling
    disabled.) *)
Theorem record_time_is_of_last_event cfg sid before after id ty code r collect now later :
  enabled (sampling cfg) = false →
  only_records before = true → only_records after = true →
  calls_for id after = 0%nat →
  let s := run (new_collector cfg sid)
             (before ++ RecordBranchHit id ty code r collect now later :: after) in
  ∃ b, lookup_branch s id = Some b
       ∧ timestamp b = now
       ∧ (collect = true → executionTime b = Some (later - now)%Q).
Proof.
  intros He Hb Ha Hn s. unfold s. rewrite run_app.
  set (s1 := run (new_collector cfg sid) before).
  assert (Hwf1 : wf s1) by apply run_wf, new_collector_wf.
  assert (He1 : enabled (samplingConfig s1) = false)
    by (unfold s1; rewrite run_samplingConfig; exact He).
  change (run s1 (RecordBranchHit id ty code r collect now later :: after))
    with (run (step s1 (RecordBranchHit id ty code r collect now later)) after).
  rewrite step_disabled by exact He1.
  rewrite lookup_unrelated;
    [|apply store_event_wf, Hwf1
     |rewrite store_event_samplingConfig; exact He1|exact Ha|exact Hn].
  rewrite store_event_lookup, String.eqb_refl by exact Hwf1.
  eexists. split; [reflexivity|]. unfold touch. split; [reflexivity|].
  intros ->. reflexivity.
Qed.

(** Two timed events at 5 and 9 milliseconds. *)
Lemma record_time_is_of_last_event_witness :
  let id := "src/App.tsx:10:4:if#0" in
  let s := run (new_collector DEFAULT_CONFIG "session")
             ([RecordBranchHit id "if" "(ready)" (Js.VBool true) true 5 6]
                ++ RecordBranchHit id "if" "(ready)" (Js.VBool true) true 9 (23 # 2)
                :: []) in
  ∃ b, lookup_branch s id = Some b
       ∧ timestamp b = 9%Q
       ∧ (true = true → executionTime b = Some ((23 # 2) - 9)%Q).
Proof.
  intros id s.
  exact (record_time_is_of_last_event DEFAULT_CONFIG "session"
           [RecordBranchHit id "if" "(ready)" (Js.VBool true) true 5 6] []
           id "if" "(ready)" (Js.VBool true) true 9 (23 # 2)
           eq_refl eq_refl eq_refl eq_refl).
Defined.

(** ** Sorting *)

Section Sorting.
Context {A : Type} (le : A → A → bool).
Hypothesis le_total : ∀ x y, le x y = false → le y x = true.

Lemma insert_sorted_ordered x l :
  ordered le l → ordered le (Js.insert_sorted le x l).
Proof.
  induction l as [|y l IH]; intros Hl; [simpl; auto|].
  simpl. destruct (le x y) eqn:Hxy.
  - split; [exact Hxy|exact Hl].
  - destruct Hl as [Hy Hl]. specialize (IH Hl).
    split; [|exact IH].
    destruct l as [|z l]; simpl.
    + apply le_total, Hxy.
    + destruct (le x z); [apply le_total, Hxy|exact Hy].
Qed.

Lemma sort_ordered l : ordered le (Js.sort le l).
Proof.
  induction l as [|x l IH]; [exact I|].
  apply insert_sorted_ordered, IH.
Qed.

(** Sorting a list that is in order gives the list back. *)
Lemma sort_of_ordered l : ordered le l → Js.sort le l = l.
Proof.
  induction l as [|x l IH]; intros Hl; [reflexivity|].
  destruct Hl as [Hx Hl]. unfold Js.sort in *. simpl. rewrite (IH Hl).
  destruct l as [|y l]; [reflexivity|]. simpl. rewrite Hx. reflexivity.
Qed.

Lemma sort_idempotent l : Js.sort le (Js.sort le l) = Js.sort le l.
Proof. apply sort_of_ordered, sort_ordered. Qed.

Lemma ordered_take n l : ordered le l → ordered le (take n l).
Proof.
  revert n. induction l as [|x l IH]; intros n Hl; [destruct n; exact I|].
  destruct n as [|n]; [exact I|]. destruct Hl as [Hx Hl].
  simpl. split; [|apply IH, Hl].
  destruct l as [|y l]; [destruct n; exact I|]. destruct n; [exact I|exact Hx].
Qed.

Hypothesis le_trans : ∀ x y z, le x y = true → le y z = true → le x z = true.

(** In an ordered list every element may stay in front of all later ones. *)
Lemma ordered_all x l : ordered le (x :: l) → Forall (λ y, le x y = true) l.
Proof.
  revert x. induction l as [|y l IH]; intros x Hl; [constructor|].
  destruct Hl as [Hxy Hl]. constructor; [exact Hxy|].
  eapply Forall_impl; [apply IH, Hl|].
  intros z Hz. simpl in Hz. exact (le_trans _ _ _ Hxy Hz).
Qed.

Lemma ordered_take_drop n l x y :
  ordered le l → x ∈ take n l → y ∈ drop n l → le x y = true.
Proof.
  revert n. induction l as [|z l IH]; intros n Hl Hx Hy.
  - rewrite take_nil in Hx. inversion Hx.
  - destruct n as [|n]; [inversion Hx|].
    simpl in Hx, Hy. apply elem_of_cons in Hx as [->|Hx].
    + pose proof (ordered_all _ _ Hl) as Hall.
      rewrite Forall_forall in Hall. apply Hall.
      exact (subseteq_drop n l y Hy).
    + destruct Hl as [_ Hl]. exact (IH n Hl Hx Hy).
Qed.

End Sorting.

(** ** Enumerating and copying tables *)

Module JsObjectCopy.
Import JsObject JsObjectFacts JsObjectMore.

Section Copy.
Context {V : Type}.
Implicit Types (o : JsObject.t V) (k : string) (v : V).

Lemma index_le_total (a b : string * V) : index_le a b = false → index_le b a = true.
Proof.
  unfold index_le. destruct (array_index a.1), (array_index b.1); try discriminate.
  intros H. apply Z.leb_gt in H. apply Z.leb_le. lia.
Qed.

Lemma filter_all (P : string * V → bool) o :
  (∀ x, x ∈ o → P x = true) → List.filter P o = o.
Proof.
  induction o as [|x o IH]; intros H; [reflexivity|].
  simpl. rewrite (H x) by left. f_equal. apply IH. intros y Hy. apply H. right. exact Hy.
Qed.

Lemma filter_none (P : string * V → bool) o :
  (∀ x, x ∈ o → P x = false) → List.filter P o = [].
Proof.
  induction o as [|x o IH]; intros H; [reflexivity|].
  simpl. rewrite (H x) by left. apply IH. intros y Hy. apply H. right. exact Hy.
Qed.

Lemma elem_of_filter_bool (P : string * V → bool) o x :
  x ∈ List.filter P o ↔ x ∈ o ∧ P x = true.
Proof.
  rewrite !list_elem_of_In, List.filter_In. reflexivity.
Qed.

Lemma filter_app_bool (P : string * V → bool) o1 o2 :
  List.filter P (o1 ++ o2) = List.filter P o1 ++ List.filter P o2.
Proof. apply List.filter_app. Qed.

(** Enumerating what was enumerated changes nothing. *)
Lemma entries_idempotent o : entries (entries o) = entries o.
Proof.
  unfold entries at 1.
  set (I := Js.sort index_le (List.filter (λ p, is_index p.1) o)).
  set (R := List.filter (λ p : string * V, negb (is_index p.1)) o).
  assert (HI : ∀ x, x ∈ I → is_index x.1 = true).
  { intros x Hx. unfold I in Hx. rewrite sort_perm in Hx.
    apply elem_of_filter_bool in Hx. apply Hx. }
  assert (HR : ∀ x, x ∈ R → is_index x.1 = false).
  { intros x Hx. apply elem_of_filter_bool in Hx as [_ Hx].
    apply negb_true_iff in Hx. exact Hx. }
  change (entries o) with (I ++ R).
  rewrite !filter_app_bool.
  rewrite (filter_all (λ p, is_index p.1) I HI).
  rewrite (filter_none (λ p, is_index p.1) R HR).
  rewrite (filter_none (λ p, negb (is_index p.1)) I)
    by (intros x Hx; rewrite (HI x Hx); reflexivity).
  rewrite (filter_all (λ p, negb (is_index p.1)) R)
    by (intros x Hx; rewrite (HR x Hx); reflexivity).
  rewrite app_nil_r. simpl. f_equal.
  unfold I. apply sort_idempotent. apply index_le_total.
Qed.

Lemma set_new o k v : get o k = None → set o k v = o ++ [(k, v)].
Proof.
  induction o as [|[k0 v0] o IH]; simpl; [reflexivity|].
  destruct (String.eqb k0 k); [discriminate|]. intros H. rewrite IH by exact H.
  reflexivity.
Qed.

Lemma set_same o k v : get o k = Some v → set o k v = o.
Proof.
  induction o as [|[k0 v0] o IH]; simpl; [discriminate|].
  destruct (String.eqb k0 k); [intros [= ->]; reflexivity|].
  intros H. rewrite IH by exact H. reflexivity.
Qed.

Lemma foldl_set_new (l : list (string * V)) o :
  NoDup (o ++ l).*1 → foldl (λ o p, set o p.1 p.2) o l = o ++ l.
Proof.
  revert o. induction l as [|[k v] l IH]; intros o Hnd; [rewrite app_nil_r; reflexivity|].
  simpl. rewrite set_new.
  - rewrite IH; rewrite <- app_assoc; [reflexivity|exact Hnd].
  - apply get_None_notin. rewrite fmap_app, fmap_cons in Hnd.
    apply NoDup_app in Hnd as (_ & Hdisj & _).
    intros Hin. apply (Hdisj k Hin). left.
Qed.

Lemma foldl_set_same (l : list (string * V)) o :
  (∀ p, p ∈ l → get o p.1 = Some p.2) → foldl (λ o p, set o p.1 p.2) o l = o.
Proof.
  induction l as [|[k v] l IH]; intros H; [reflexivity|].
  simpl. rewrite set_same by (apply (H (k, v)); left).
  apply IH. intros p Hp. apply H. right. exact Hp.
Qed.

(** Spreading a table over a new object gives its enumeration. *)
Lemma object_assign_empty o : NoDup o.*1 → object_assign [] o = entries o.
Proof.
  intros Hnd. unfold object_assign.
  apply (foldl_set_new (entries o) []). simpl. apply entries_NoDup, Hnd.
Qed.

(** Spreading a copy of a table over the table changes nothing. *)
Lemma object_assign_copy o :
  NoDup o.*1 → object_assign (object_assign [] o) (entries o) = entries o.
Proof.
  intros Hnd. rewrite object_assign_empty by exact Hnd.
  unfold object_assign. apply foldl_set_same.
  intros [k v] Hp. rewrite entries_idempotent in Hp.
  apply elem_get; [apply entries_NoDup, Hnd|exact Hp].
Qed.

End Copy.

End JsObjectCopy.

(** ** Importing and the analysis helpers *)

Section Importing.
Import JsObject JsObjectFacts JsObjectMore JsObjectCopy.
Implicit Types (s : state) (id : string).

Lemma store_event_keys_NoDup id ty code r collect now later s :
  wf s →
  NoDup (table_at s (branchStats s)).*1 →
  NoDup (table_at (store_event id ty code r collect now later s)
                  (branchStats (store_event id ty code r collect now later s))).*1.
Proof.
  intros Hwf Hnd.
  destruct (get (table_at s (branchStats s)) id) as [l|] eqn:Hget.
  - rewrite (store_event_known _ _ _ _ _ _ _ _ _ Hget). exact Hnd.
  - rewrite (store_event_new _ _ _ _ _ _ _ _ (wf_table s Hwf) Hget).
    cbn [branchStats set_records set_tables].
    rewrite table_at_set_records, table_at_alter by apply (wf_table s Hwf).
    apply set_NoDup, Hnd.
Qed.

Lemma step_keys_NoDup s c :
  wf s → NoDup (table_at s (branchStats s)).*1 →
  NoDup (table_at (step s c) (branchStats (step s c))).*1.
Proof.
  intros Hwf Hnd. destruct c as [id ty code r collect now later|].
  - simpl. rewrite recordBranchHit_gate. simpl.
    destruct (gate_frame now s) as (Ht & Hr & Hb & _).
    assert (Hg : NoDup (table_at (gate now s).2 (branchStats (gate now s).2)).*1)
      by (unfold table_at; rewrite Ht, Hb; exact Hnd).
    destruct (gate now s).1; [|exact Hg].
    apply store_event_keys_NoDup; [apply gate_wf, Hwf|exact Hg].
  - simpl. unfold clearStats, table_at. simpl.
    rewrite lookup_app_r, Nat.sub_diag by lia. simpl. apply NoDup_nil_2.
Qed.

Lemma run_keys_NoDup cs s :
  wf s → NoDup (table_at s (branchStats s)).*1 →
  NoDup (table_at (run s cs) (branchStats (run s cs))).*1.
Proof.
  revert s. induction cs as [|c cs IH]; intros s Hwf Hnd; [exact Hnd|].
  apply IH; [apply step_wf, Hwf|apply step_keys_NoDup; assumption].
Qed.

Lemma reachable_keys_NoDup cfg sid cs :
  NoDup (table_at (run (new_collector cfg sid) cs)
                  (branchStats (run (new_collector cfg sid) cs))).*1.
Proof.
  apply run_keys_NoDup; [apply new_collector_wf|]. apply NoDup_nil_2.
Qed.

(** In a state the collector reaches, a record in the table has been
    observed at least once. *)
Lemma reachable_observed cfg sid cs id b :
  lookup_branch (run (new_collector cfg sid) cs) id = Some b →
  (1 ≤ hitCount b + missCount b)%nat.
Proof.
  intros Hb.
  pose proof (agrees_run cs _ _ (new_collector_wf cfg sid) (agrees_new cfg sid) id)
    as [Hkey Hobs].
  assert (Hs : is_Some (get (table_at (run (new_collector cfg sid) cs)
                              (branchStats (run (new_collector cfg sid) cs))) id)).
  { apply lookup_branch_is_Some; [apply run_wf, new_collector_wf|].
    rewrite Hb. eexists. reflexivity. }
  apply Hkey, occurrences_elem in Hs. rewrite Hb in Hobs. simpl in Hobs. lia.
Qed.

Lemma importData_table data s :
  table_at (importData data s) (branchStats (importData data s))
  = object_assign (object_assign [] (table_at s (branchStats s))) data
  ∧ records (importData data s) = records s
  ∧ ∀ l, (l < length (tables s))%nat → table_at (importData data s) l = table_at s l.
Proof.
  unfold importData, table_at. simpl. split; [|split; [reflexivity|]].
  - rewrite lookup_app_r, Nat.sub_diag by lia. reflexivity.
  - intros l Hl. rewrite lookup_app_l by exact Hl. reflexivity.
Qed.

(** The records of the copy that [getBranchStats] returns are the records of
    the table, in the same order. *)
Lemma copied_stats_are_stats s :
  (branchStats s < length (tables s))%nat →
  (copied_stats s).1 = stats_of s.
Proof.
  intros Hb. unfold copied_stats, stats_of.
  destruct (getBranchStats s) as [l s1] eqn:E.
  assert (Hl : l = (getBranchStats s).1) by (rewrite E; reflexivity).
  assert (Hs1 : s1 = (getBranchStats s).2) by (rewrite E; reflexivity).
  cbn [fst]. subst l s1. rewrite getBranchStats_table.
  destruct (getBranchStats_frame s (branchStats s) Hb) as (_ & Hr & _).
  rewrite Hr. unfold values, spread. rewrite entries_idempotent. reflexivity.
Qed.

Lemma stats_of_elem s b :
  NoDup (table_at s (branchStats s)).*1 →
  b ∈ stats_of s → ∃ id, lookup_branch s id = Some b.
Proof.
  intros Hnd Hb. unfold stats_of in Hb.
  apply list_elem_of_omap in Hb as (l & Hl & Hb).
  unfold values in Hl. apply list_elem_of_fmap in Hl as ([k l'] & -> & Hin).
  rewrite entries_perm in Hin. apply (elem_get _ _ _ Hnd) in Hin.
  exists k. unfold lookup_branch. rewrite Hin. exact Hb.
Qed.

Lemma filter_no_record (p : BranchHit → bool) (stats : list BranchHit) :
  (∀ b, b ∈ stats → p b = false) → List.filter p stats = [].
Proof.
  induction stats as [|x stats IH]; intros H; [reflexivity|].
  simpl. rewrite (H x) by left. apply IH. intros y Hy. apply H. right. exact Hy.
Qed.

End Importing.



(** X11. Importing the table that [getBranchStats] (or [exportData]) has
    just returned changes nothing: every branch id leads to the same record
    and the execution summary is the same. *)
Theorem import_of_copy_changes_nothing cfg sid cs :
  let s := run (new_collector cfg sid) cs in
  let l := (getBranchStats s).1 in
  let s1 := (getBranchStats s).2 in
  let s2 := importData (table_at s1 l) s1 in
  (∀ id, lookup_branch s2 id = lookup_branch s id)
  ∧ getExecutionSummary s2 = getExecutionSummary s.
Proof.
  intros s l s1 s2.
  assert (Hwf : wf s) by apply run_wf, new_collector_wf.
  pose proof (wf_table s Hwf) as Hb.
  pose proof (reachable_keys_NoDup cfg sid cs) as Hnd. fold s in Hnd.
  destruct (getBranchStats_frame s (branchStats s) Hb) as (Ht1 & Hr1 & Hb1 & _).
  fold s1 in Ht1, Hr1, Hb1.
  assert (Hcopy : table_at s1 l = JsObject.entries (table_at s (branchStats s)))
    by apply getBranchStats_table.
  destruct (importData_table (table_at s1 l) s1) as (Ht2 & Hr2 & _).
  fold s2 in Ht2, Hr2.
  rewrite Hcopy, Hb1, Ht1 in Ht2.
  rewrite JsObjectCopy.object_assign_copy in Ht2 by exact Hnd.
  assert (Hr : records s2 = records s) by (rewrite Hr2; exact Hr1).
  split.
  - intros id. unfold lookup_branch. rewrite Ht2, Hr.
    rewrite JsObjectFacts.get_entries. reflexivity.
  - unfold getExecutionSummary, stats_of. rewrite Ht2, Hr.
    unfold JsObject.values. rewrite JsObjectCopy.entries_idempotent. reflexivity.
Qed.

(** X12. [findDeadCode] looks for records with no hit and no miss, and a
    collector that is fed through [recordBranchHit] and [clearStats] holds
    no such record: whatever was recorded, [findDeadCode] returns the empty
    list. *)
Theorem findDeadCode_finds_nothing cfg sid cs :
  (findDeadCode (run (new_collector cfg sid) cs)).1 = [].
Proof.
  set (s := run (new_collector cfg sid) cs).
  assert (Hwf : wf s) by apply run_wf, new_collector_wf.
  unfold findDeadCode.
  pose proof (copied_stats_are_stats s (wf_table s Hwf)) as Hc.
  destruct (copied_stats s) as [stats s1]. cbn [fst] in *. subst stats.
  apply filter_no_record. intros b Hb.
  apply stats_of_elem in Hb as [id Hid]; [|apply reachable_keys_NoDup].
  apply reachable_observed in Hid.
  destruct (hitCount b), (missCount b); simpl in *; try reflexivity; lia.
Qed.

(** ** More on the execution summary *)

Section Counts.
Implicit Types (stats : list BranchHit) (p q : BranchHit → bool).

Lemma count_app p stats1 stats2 :
  count p (stats1 ++ stats2) = (count p stats1 + count p stats2)%nat.
Proof. unfold count. rewrite List.filter_app, length_app. reflexivity. Qed.

Lemma count_le_length p stats : (count p stats ≤ length stats)%nat.
Proof.
  unfold count. induction stats as [|b stats IH]; [reflexivity|].
  simpl. destruct (p b); simpl; lia.
Qed.

Lemma count_mono p q stats :
  (∀ b, p b = true → q b = true) → (count p stats ≤ count q stats)%nat.
Proof.
  intros H. unfold count. induction stats as [|b stats IH]; [reflexivity|].
  simpl. destruct (p b) eqn:Hp; [rewrite (H b Hp); simpl; lia|].
  destruct (q b); simpl; lia.
Qed.

Lemma count_cold_hot_hit stats :
  (count (λ b, (0 <? hitCount b)%nat && (hitCount b <? 5)%nat) stats
   + count (λ b, (100 <? hitCount b)%nat) stats
   ≤ count (λ b, (0 <? hitCount b)%nat) stats)%nat.
Proof.
  unfold count. induction stats as [|b stats IH]; [reflexivity|].
  simpl.
  destruct (0 <? hitCount b)%nat eqn:H0, (hitCount b <? 5)%nat eqn:H5,
    (100 <? hitCount b)%nat eqn:H100; simpl; try lia.
  - apply Nat.ltb_lt in H5, H100. lia.
  - apply Nat.ltb_ge in H0. apply Nat.ltb_lt in H100. lia.
  - apply Nat.ltb_ge in H0. apply Nat.ltb_lt in H100. lia.
Qed.

End Counts.

(** X13. In every summary the branch counts fit together: the cold and the
    hot branches are different branches, all of them hit, and the hit
    branches are among the branches of the table. *)
Theorem summary_counts_fit (s : state) :
  let sm := summary (getExecutionSummary s) in
  (coldBranches sm + hotBranches sm ≤ hitBranches sm)%nat
  ∧ (hitBranches sm ≤ totalBranches sm)%nat
  ∧ (deadBranches sm ≤ totalBranches sm)%nat.
Proof.
  unfold getExecutionSummary, summarize. simpl.
  split; [apply count_cold_hot_hit|]. split; apply count_le_length.
Qed.

Section Rate.
Local Open Scope Q_scope.

Lemma inject_nat_pos (n : nat) : (0 < n)%nat → 0 < inject_Z (Z.of_nat n).
Proof. intros H. unfold Qlt. simpl. lia. Qed.

Lemma inject_nat_le (n m : nat) :
  (n ≤ m)%nat → inject_Z (Z.of_nat n) <= inject_Z (Z.of_nat m).
Proof. intros H. rewrite <- Zle_Qle. lia. Qed.

Lemma rate_bounds (hit total : nat) :
  (hit ≤ total)%nat → (0 < total)%nat →
  let rate := inject_Z (Z.of_nat hit) / inject_Z (Z.of_nat total) in
  0 <= rate ∧ rate <= 1 ∧ (rate == 0 ↔ hit = 0%nat).
Proof.
  intros Hle Hpos rate.
  pose proof (inject_nat_pos total Hpos) as Ht.
  split; [|split].
  - apply Qle_shift_div_l; [exact Ht|]. rewrite Qmult_0_l.
    apply (inject_nat_le 0 hit). lia.
  - apply Qle_shift_div_r; [exact Ht|]. rewrite Qmult_1_l.
    apply inject_nat_le, Hle.
  - split.
    + intros Hz.
      assert (Hne : ¬ inject_Z (Z.of_nat total) == 0).
      { intros H. rewrite H in Ht. exact (Qlt_irrefl 0 Ht). }
      assert (Hh : inject_Z (Z.of_nat hit) == 0).
      { unfold rate in Hz.
        rewrite <- (Qmult_div_r (inject_Z (Z.of_nat hit)) _ Hne), Hz. ring. }
      unfold Qeq in Hh. simpl in Hh. lia.
    + intros ->. unfold rate. simpl. unfold Qdiv. ring.
Qed.

End Rate.

(** X14. The coverage rate of a summary lies between 0 and 1, and it is 0
    exactly when no branch of the table has been hit, which includes the
    empty table. *)
Theorem coverageRate_bounds (s : state) :
  let sm := summary (getExecutionSummary s) in
  (0 <= coverageRate sm)%Q ∧ (coverageRate sm <= 1)%Q
  ∧ ((coverageRate sm == 0)%Q ↔ hitBranches sm = 0%nat).
Proof.
  unfold getExecutionSummary, summarize. cbn [summary coverageRate hitBranches].
  set (stats := stats_of s).
  pose proof (count_le_length (λ b, (0 <? hitCount b)%nat) stats) as Hle.
  destruct (0 <? length stats)%nat eqn:Hpos.
  - apply Nat.ltb_lt in Hpos. exact (rate_bounds _ _ Hle Hpos).
  - apply Nat.ltb_ge in Hpos.
    split; [apply Qle_refl|]. split; [discriminate|].
    split; [intros _; lia|reflexivity].
Qed.

(** ** The tally per file *)

(** Comparisons of counters, read as propositions. *)
Ltac compare_counts :=
  repeat match goal with
         | H : (_ <? _)%nat = true |- _ => apply Nat.ltb_lt in H
         | H : (_ <? _)%nat = false |- _ => apply Nat.ltb_ge in H
         | H : (_ <=? _)%nat = true |- _ => apply Nat.leb_le in H
         | H : (_ <=? _)%nat = false |- _ => apply Nat.leb_gt in H
         | H : (_ =? _)%nat = true |- _ => apply Nat.eqb_eq in H
         | H : (_ =? _)%nat = false |- _ => apply Nat.eqb_neq in H
         end.

Section PerFile.
Import JsObject JsObjectFacts JsObjectMore.
Implicit Types (acc : JsObject.t FileStats) (stats : list BranchHit) (f : string).

Lemma add_to_file_get acc branch f :
  get (add_to_file acc branch) f
  = if String.eqb (file branch) f
    then Some (count_in branch (default no_stats (get acc (file branch))))
    else get acc f.
Proof.
  unfold add_to_file.
  destruct (get acc (file branch)) as [st|] eqn:Hget.
  - rewrite Hget. rewrite get_set. reflexivity.
  - rewrite get_set_eq. rewrite !get_set.
    destruct (String.eqb (file branch) f); reflexivity.
Qed.

Lemma add_to_file_NoDup acc branch : NoDup acc.*1 → NoDup (add_to_file acc branch).*1.
Proof.
  intros Hnd. unfold add_to_file.
  destruct (get acc (file branch)) as [st|] eqn:Hget.
  - rewrite Hget. apply set_NoDup, Hnd.
  - rewrite get_set_eq. apply set_NoDup, set_NoDup, Hnd.
Qed.

Lemma fileStats_NoDup stats acc :
  NoDup acc.*1 → NoDup (foldl add_to_file acc stats).*1.
Proof.
  revert acc. induction stats as [|b stats IH]; intros acc Hnd; [exact Hnd|].
  simpl. apply IH, add_to_file_NoDup, Hnd.
Qed.

Lemma tally_snoc f stats branch :
  tally f (stats ++ [branch])
  = if in_file f branch then count_in branch (tally f stats) else tally f stats.
Proof.
  unfold tally, count_in. rewrite !count_app. unfold count at 2 4 6 8 10.
  cbn [List.filter fs_total fs_hit fs_dead fs_hot fs_cold].
  destruct (in_file f branch); cbn [andb length]; [|f_equal; lia].
  set (h := hitCount branch).
  destruct (h =? 0)%nat eqn:H0, (100 <? h)%nat eqn:H100, (h <? 5)%nat eqn:H5,
    (5 <=? h)%nat eqn:H5', (h <=? 100)%nat eqn:H100', (0 <? h)%nat eqn:Hpos;
    cbn [andb length]; try (f_equal; lia); exfalso; compare_counts; lia.
Qed.

Lemma tally_none f stats : count (in_file f) stats = 0%nat → tally f stats = no_stats.
Proof.
  intros H.
  assert (Hz : ∀ P : BranchHit → bool,
             (∀ b, P b = true → in_file f b = true) → count P stats = 0%nat).
  { intros P HP. apply Nat.le_0_r. rewrite <- H. apply count_mono, HP. }
  unfold tally, no_stats. rewrite H.
  f_equal; apply Hz; intros b; destruct (in_file f b);
    (reflexivity || discriminate).
Qed.

(** The reduce gives each file the counts of its branches. *)
Lemma fileStats_get stats f :
  get (foldl add_to_file [] stats) f
  = if (count (in_file f) stats =? 0)%nat then None else Some (tally f stats).
Proof.
  induction stats as [|branch stats IH] using rev_ind; [reflexivity|].
  rewrite foldl_app. simpl. rewrite add_to_file_get, tally_snoc, count_app.
  unfold count at 2. simpl. unfold in_file at 2 3.
  destruct (String.eqb_spec (file branch) f) as [<-|Hne].
  - rewrite IH. simpl.
    destruct (count (in_file (file branch)) stats =? 0)%nat eqn:Hc.
    + apply Nat.eqb_eq in Hc. rewrite (tally_none _ _ Hc), Hc. reflexivity.
    + replace (count (in_file (file branch)) stats + 1 =? 0)%nat with false
        by (symmetry; apply Nat.eqb_neq; lia).
      reflexivity.
  - simpl. rewrite Nat.add_0_r. exact IH.
Qed.

End PerFile.

(** X15. [fileStats] has an entry for exactly the files that have a record
    in the table, and the entry of a file holds the counts of its records:
    all of them in [total], those never hit in [dead], those hit more than
    100 times in [hot], those hit 1 to 4 times in [cold] and the rest in
    [hit]; so the four classes add up to [total]. *)
Theorem fileStats_counts_per_file (stats : list BranchHit) (f : string) :
  match JsObject.get (fileStats (summarize stats)) f with
  | None => count (in_file f) stats = 0%nat
  | Some st =>
      st = tally f stats
      ∧ (1 ≤ fs_total st)%nat
      ∧ (fs_dead st + fs_hot st + fs_cold st + fs_hit st)%nat = fs_total st
  end.
Proof.
  unfold summarize. cbn [fileStats]. rewrite fileStats_get.
  destruct (count (in_file f) stats =? 0)%nat eqn:Hc.
  - apply Nat.eqb_eq, Hc.
  - apply Nat.eqb_neq in Hc. split; [reflexivity|]. split; [simpl; lia|].
    clear Hc. unfold tally, count. cbn [fs_dead fs_hot fs_cold fs_hit fs_total].
    induction stats as [|b stats IH]; [reflexivity|].
    cbn [List.filter]. destruct (in_file f b); cbn [andb]; [|exact IH].
    set (h := hitCount b) in *.
    destruct (h =? 0)%nat eqn:H0, (100 <? h)%nat eqn:H100, (h <? 5)%nat eqn:H5,
      (5 <=? h)%nat eqn:H5', (h <=? 100)%nat eqn:H100', (0 <? h)%nat eqn:Hpos;
      cbn [andb length]; try lia; exfalso; compare_counts; lia.
Qed.

(** ** The rankings of files *)

Section Ranking.
Import JsObject JsObjectFacts JsObjectMore JsObjectCopy.
Variable key : FileStats → nat.
Implicit Types (fs : JsObject.t FileStats).

Let by_key (a b : string * FileStats) : bool := (key b.2 <=? key a.2)%nat.
Let entry (p : string * FileStats) : FileRank :=
  {| fr_file := p.1; fr_branches := key p.2; fr_totalBranches := fs_total p.2 |}.

Lemma by_key_total a b : by_key a b = false → by_key b a = true.
Proof.
  unfold by_key. intros H. apply Nat.leb_gt in H. apply Nat.leb_le. lia.
Qed.

Lemma by_key_trans a b c : by_key a b = true → by_key b c = true → by_key a c = true.
Proof.
  unfold by_key. intros H1 H2. apply Nat.leb_le in H1, H2. apply Nat.leb_le. lia.
Qed.

Lemma ordered_entries (l : list (string * FileStats)) :
  ordered by_key l →
  ordered (λ a b, (fr_branches b <=? fr_branches a)%nat) (entry <$> l).
Proof.
  induction l as [|x l IH]; intros Hl; [exact I|].
  destruct Hl as [Hx Hl]. rewrite fmap_cons. split; [|apply IH, Hl].
  destruct l as [|y l]; [exact I|]. exact Hx.
Qed.

Lemma rank_files_unfold fs :
  rank_files key fs
  = entry <$> take 10 (Js.sort by_key
                         (List.filter (λ p, (0 <? key p.2)%nat) (entries fs))).
Proof. reflexivity. Qed.

Lemma ranked_candidate fs (p : string * FileStats) :
  NoDup fs.*1 →
  p ∈ Js.sort by_key (List.filter (λ p, (0 <? key p.2)%nat) (entries fs))
  ↔ get fs p.1 = Some p.2 ∧ (1 ≤ key p.2)%nat.
Proof.
  intros Hnd. rewrite sort_perm, elem_of_filter_bool, entries_perm, Nat.ltb_lt.
  split; intros [H1 H2]; (split; [|lia]).
  - destruct p as [k st]. apply elem_get; assumption.
  - destruct p as [k st]. apply get_Some_elem, H1.
Qed.

Lemma rank_files_ranks fs : NoDup fs.*1 → ranks key fs (rank_files key fs).
Proof.
  intros Hnd. rewrite rank_files_unfold.
  set (S := Js.sort by_key (List.filter (λ p, (0 <? key p.2)%nat) (entries fs))).
  assert (Hord : ordered by_key S) by apply sort_ordered, by_key_total.
  split; [|split; [|split]].
  - rewrite length_fmap, length_take. lia.
  - apply ordered_entries, ordered_take, Hord.
  - intros e He. apply list_elem_of_fmap in He as (p & -> & Hp).
    apply (subseteq_take 10 S) in Hp. apply ranked_candidate in Hp as [Hg Hk];
      [|exact Hnd].
    exists p.2. repeat split; assumption.
  - intros f st Hg Hk Hout.
    assert (Hin : (f, st) ∈ S) by (apply ranked_candidate; [exact Hnd|split; assumption]).
    rewrite <- (take_drop 10 S) in Hin. apply elem_of_app in Hin as [Hin|Hin].
    { exfalso. apply Hout. apply list_elem_of_fmap. exists (entry (f, st)).
      split; [reflexivity|]. apply list_elem_of_fmap. exists (f, st).
      split; [reflexivity|exact Hin]. }
    split.
    + rewrite length_fmap, length_take.
      assert (10 < length S)%nat; [|lia].
      destruct (decide (10 < length S)%nat) as [|Hn]; [assumption|].
      rewrite drop_ge in Hin by lia. inversion Hin.
    + intros e He. apply list_elem_of_fmap in He as (p & -> & Hp).
      pose proof (ordered_take_drop by_key by_key_trans 10 S p (f, st) Hord Hp Hin)
        as Hle.
      unfold by_key in Hle. apply Nat.leb_le in Hle. exact Hle.
Qed.

End Ranking.

(** X16. [topDeadCodeFiles] and [topHotPathFiles] rank the files of
    [fileStats] by their dead and by their hot branches: at most ten
    entries, in descending order of the count, each carrying the count and
    the total of a file whose count is at least 1; a file with such a count
    that is not listed has no larger count than any listed file, and the
    list is then full. *)
Theorem top_files_rank_fileStats (stats : list BranchHit) :
  let es := summarize stats in
  ranks fs_dead (fileStats es) (topDeadCodeFiles es)
  ∧ ranks fs_hot (fileStats es) (topHotPathFiles es).
Proof.
  unfold summarize. cbn [fileStats topDeadCodeFiles topHotPathFiles].
  split; apply rank_files_ranks; apply fileStats_NoDup, NoDup_nil_2.
Qed.

(** ** Strings *)

Section Strings.
Implicit Types (s t : string) (c : ascii).

Lemma append_assoc s t u : (s +:+ t) +:+ u = s +:+ t +:+ u.
Proof.
  induction s as [|a s IH]; [reflexivity|].
  change (String a ((s +:+ t) +:+ u) = String a (s +:+ t +:+ u)). f_equal. exact IH.
Qed.

Lemma append_empty s : s +:+ "" = s.
Proof.
  induction s as [|a s IH]; [reflexivity|].
  change (String a (s +:+ "") = String a s). f_equal. exact IH.
Qed.

Lemma append_cons a s t : String a s +:+ t = String a (s +:+ t).
Proof. reflexivity. Qed.

Lemma indexOf_app_None c s t :
  Str.indexOf c (s +:+ t) = None ↔ Str.indexOf c s = None ∧ Str.indexOf c t = None.
Proof.
  induction s as [|a s IH]; [simpl; tauto|].
  rewrite append_cons. simpl.
  destruct (Ascii.eqb a c); [split; [discriminate|intros [? _]; discriminate]|].
  destruct (Str.indexOf c (s +:+ t)), (Str.indexOf c s), (Str.indexOf c t);
    simpl in *; intuition discriminate.
Qed.

(** Splitting at a separator: the text before the first separator is the
    first part. *)
Lemma split_app c s t :
  Str.indexOf c s = None →
  Js.split c (s +:+ String c t) = s :: Js.split c t.
Proof.
  induction s as [|a s IH]; intros H.
  - change ("" +:+ String c t) with (String c t). simpl.
    rewrite Ascii.eqb_refl. reflexivity.
  - rewrite append_cons. simpl in *.
    destruct (Ascii.eqb a c); [discriminate|].
    rewrite IH; [reflexivity|]. destruct (Str.indexOf c s); [discriminate|reflexivity].
Qed.

Lemma is_digit_range c :
  Js.is_digit c = true ↔ (48 ≤ nat_of_ascii c ≤ 57)%nat.
Proof.
  unfold Js.is_digit. rewrite andb_true_iff, !Nat.leb_le. reflexivity.
Qed.

Lemma digit_not c c' :
  Js.is_digit c = true → ¬ (48 ≤ nat_of_ascii c' ≤ 57)%nat → Ascii.eqb c c' = false.
Proof.
  intros Hd Hc. apply is_digit_range in Hd.
  destruct (Ascii.eqb_spec c c') as [->|]; [contradiction|reflexivity].
Qed.

Lemma all_digits_indexOf c s :
  JsObject.all_digits s = true → ¬ (48 ≤ nat_of_ascii c ≤ 57)%nat →
  Str.indexOf c s = None.
Proof.
  intros Hs Hc. induction s as [|a s IH]; [reflexivity|].
  simpl in *. apply andb_true_iff in Hs as [Ha Hs].
  rewrite (digit_not a c Ha Hc), (IH Hs). reflexivity.
Qed.

Lemma pretty_N_char_digit (x : N) :
  (x < 10)%N →
  Js.is_digit (pretty_N_char x) = true ∧ Js.digit_value (pretty_N_char x) = Z.of_N x.
Proof.
  intros Hx.
  assert (x = 0 ∨ x = 1 ∨ x = 2 ∨ x = 3 ∨ x = 4 ∨ x = 5 ∨ x = 6 ∨ x = 7
          ∨ x = 8 ∨ x = 9)%N as H by lia.
  repeat destruct H as [->|H]; try subst x; split; reflexivity.
Qed.

Lemma pretty_N_go_digits (x : N) s :
  JsObject.all_digits s = true → JsObject.all_digits (pretty_N_go x s) = true.
Proof.
  revert s. induction (N.lt_wf_0 x) as [x _ IH]; intros s Hs.
  destruct (decide (x = 0)%N) as [->|Hx]; [rewrite pretty_N_go_0; exact Hs|].
  rewrite pretty_N_go_step by lia. apply IH; [apply N.div_lt; lia|].
  simpl. rewrite Hs.
  destruct (pretty_N_char_digit (x `mod` 10)) as [Hd _]; [apply N.mod_lt; lia|].
  rewrite Hd. reflexivity.
Qed.

Lemma pretty_N_go_value (x : N) s (acc : option Z) :
  (0 < x)%N →
  ∃ p : Z, Js.leading_digits acc (pretty_N_go x s)
           = Js.leading_digits (Some (p * default 0 acc + Z.of_N x)) s.
Proof.
  revert s acc. induction (N.lt_wf_0 x) as [x _ IH]; intros s acc Hx.
  rewrite pretty_N_go_step by exact Hx.
  destruct (pretty_N_char_digit (x `mod` 10)) as [Hd Hv]; [apply N.mod_lt; lia|].
  pose proof (N.div_mod x 10 ltac:(lia)) as Hdm.
  destruct (decide (x `div` 10 = 0)%N) as [Hz|Hnz].
  - rewrite Hz, pretty_N_go_0. simpl. rewrite Hd, Hv. exists 10. f_equal. f_equal.
    clear IH Hd Hv. set (q := (x `div` 10)%N) in *. set (m := (x `mod` 10)%N) in *.
    clearbody q m. lia.
  - assert (Hlt : (x `div` 10 < x)%N) by (apply N.div_lt; lia).
    assert (Hpos : (0 < x `div` 10)%N) by (apply N.neq_0_lt_0; exact Hnz).
    destruct (IH _ Hlt (String (pretty_N_char (x `mod` 10)) s) acc Hpos) as [p Hp].
    clear Hlt Hpos. rewrite Hp. simpl. rewrite Hd, Hv. exists (10 * p). f_equal. f_equal.
    clear IH Hd Hv Hp. set (q := (x `div` 10)%N) in *. set (m := (x `mod` 10)%N) in *.
    clearbody q m. lia.
Qed.

(** The decimal form of a number is made of digits and reads back as the
    number. *)
Lemma pretty_nat_digits (n : nat) :
  JsObject.all_digits (pretty n) = true
  ∧ Js.leading_digits None (pretty n) = Some (Z.of_nat n).
Proof.
  unfold pretty, pretty_nat, pretty, pretty_N.
  destruct (decide (N.of_nat n = 0)%N) as [Hz|Hnz].
  - assert (n = 0%nat) as -> by lia. split; reflexivity.
  - split; [apply pretty_N_go_digits; reflexivity|].
    destruct (pretty_N_go_value (N.of_nat n) "" None ltac:(lia)) as [p Hp].
    rewrite Hp. simpl. f_equal. lia.
Qed.

Lemma parseInt_digits s :
  JsObject.all_digits s = true → Js.parseInt s = Js.leading_digits None s.
Proof.
  intros Hs. destruct s as [|c s]; [reflexivity|].
  simpl in Hs. apply andb_true_iff in Hs as [Hc _].
  destruct c as [[] [] [] [] [] [] [] []];
    try (vm_compute in Hc; discriminate Hc); reflexivity.
Qed.

Lemma parseInt_pretty (n : nat) : Js.parseInt (pretty n) = Some (Z.of_nat n).
Proof.
  destruct (pretty_nat_digits n) as [Hd Hv]. rewrite parseInt_digits; assumption.
Qed.

End Strings.

(** X17. A branch id built by the instrumentation pass reads back in the
    collector: when the cleaned file name contains no colon, the record
    created for the id has that file name as [file] and the line and column
    the id was built from. *)
Theorem branch_id_parses_back cwd fileName ln col ty counter ty' code now :
  let clean := Str.drop_leading_slash (Str.replace cwd "" fileName) in
  Str.indexOf ":" clean = None →
  let b := new_record (createBranchId cwd fileName ln col ty counter) ty' code now in
  file b = clean
  ∧ line b = Some (Z.of_nat ln)
  ∧ column b = Some (Z.of_nat col).
Proof.
  intros clean Hclean b. unfold b, new_record, createBranchId. fold clean.
  cbn [file line column].
  assert (Hno : ¬ (48 ≤ nat_of_ascii ":" ≤ 57)%nat) 
    by (change (nat_of_ascii ":") with 58%nat; lia).
  destruct (pretty_nat_digits ln) as [Hl _], (pretty_nat_digits col) as [Hc _].
  change (clean +:+ ":" +:+ pretty ln +:+ ":" +:+ pretty col +:+ ":" +:+ ty +:+ "#" +:+ pretty counter)
    with (clean +:+ String ":" (pretty ln +:+ String ":" (pretty col +:+ String ":" (ty +:+ "#" +:+ pretty counter)))).
  rewrite (split_app ":" clean) by exact Hclean.
  rewrite (split_app ":" (pretty ln)) by (apply all_digits_indexOf; assumption).
  rewrite (split_app ":" (pretty col)) by (apply all_digits_indexOf; assumption).
  simpl. rewrite !parseInt_pretty. repeat split.
Qed.

(** A file under the working directory of the build. *)
Lemma branch_id_parses_back_witness :
  let b := new_record (createBranchId "/home/app" "/home/app/src/App.tsx" 10 4 "if" 0)
             "if" "(ready)" 1%Q in
  file b = "src/App.tsx" ∧ line b = Some 10 ∧ column b = Some 4.
Proof.
  exact (branch_id_parses_back "/home/app" "/home/app/src/App.tsx" 10 4 "if" 0
           "if" "(ready)" 1%Q eq_refl).
Defined.

(** ** Branch ids *)

Section Ids.
Implicit Types (x d : string).

Lemma digits_before_hash x d : JsObject.all_digits (x +:+ String "#" d) = false.
Proof.
  induction x as [|a x IH]; [reflexivity|].
  rewrite append_cons. simpl. rewrite IH. apply andb_false_r.
Qed.

(** The digits after the last [#] of a string are determined by the string. *)
Lemma hash_suffix x x' d d' :
  JsObject.all_digits d = true → JsObject.all_digits d' = true →
  x +:+ String "#" d = x' +:+ String "#" d' → d = d'.
Proof.
  intros Hd Hd'. revert x'. induction x as [|a x IH]; intros [|a' x'] H.
  - injection H as ->. reflexivity.
  - change ("" +:+ String "#" d) with (String "#" d) in H. rewrite append_cons in H.
    injection H as _ ->. rewrite digits_before_hash in Hd. discriminate.
  - change ("" +:+ String "#" d') with (String "#" d') in H. rewrite append_cons in H.
    injection H as _ <-. rewrite digits_before_hash in Hd'. discriminate.
  - rewrite !append_cons in H. injection H as _ H. exact (IH _ H).
Qed.

End Ids.

(** X18. Two branch ids built with different counters are different,
    whatever the file names, positions and types they are built from: the
    counter is the run of digits after the last [#]. *)
Theorem branch_ids_differ_by_counter cwd f l c t n f' l' c' t' n' :
  n ≠ n' →
  createBranchId cwd f l c t n ≠ createBranchId cwd f' l' c' t' n'.
Proof.
  intros Hn H. apply Hn. unfold createBranchId in H.
  rewrite <- !append_assoc in H.
  rewrite !(append_assoc _ "#" (pretty _)) in H.
  change ("#" +:+ pretty n) with (String "#" (pretty n)) in H.
  change ("#" +:+ pretty n') with (String "#" (pretty n')) in H.
  apply hash_suffix in H; try apply pretty_nat_digits.
  exact (inj pretty _ _ H).
Qed.

(** Two branches of one file. *)
Lemma branch_ids_differ_by_counter_witness :
  createBranchId "/home/app" "/home/app/src/App.tsx" 10 4 "if" 0
  ≠ createBranchId "/home/app" "/home/app/src/App.tsx" 10 4 "if" 1.
Proof. apply branch_ids_differ_by_counter. lia. Defined.

(** ** The switch visitor *)

Section Switch.
Variable cwd : string.
Variable path : NodePath.

Lemma instrument_case_context caseNode context :
  (instrument_case cwd path caseNode context).2
  = {| fileName := fileName context;
       branchCounter := branchCounter context + (if labelled caseNode then 1 else 0);
       ctx_config := ctx_config context |}.
Proof.
  destruct context as [f n cfg], caseNode as [[test|] body];
    unfold instrument_case, labelled, next_branch; cbn [fst];
    destruct (default (0%nat, 0%nat) (loc_start path)); cbn;
    f_equal; lia.
Qed.

Lemma instrument_cases_cons caseNode cases context :
  instrument_cases cwd path (caseNode :: cases) context
  = ((instrument_case cwd path caseNode context).1
       :: (instrument_cases cwd path cases
             (instrument_case cwd path caseNode context).2).1,
     (instrument_cases cwd path cases
        (instrument_case cwd path caseNode context).2).2).
Proof.
  cbn [instrument_cases].
  destruct (instrument_case cwd path caseNode context) as [c1 ctx1]. cbn [fst snd].
  destruct (instrument_cases cwd path cases ctx1). reflexivity.
Qed.

End Switch.

(** X19. The switch visitor keeps the cases in place with their labels: a
    labelled case gets one recording statement in front of its body, and a
    default case is left as it is. The statement of the i-th case carries the
    position of the switch, the counter advanced by the number of labelled
    cases before it, the case's own label as the value to record, and a
    condition text that is the same for every case of the switch. The
    counter of the context ends advanced by the number of labelled cases. *)
Theorem switch_visitor_prepends_one_call_per_label cwd path discriminant cases context :
  let position := default (0%nat, 0%nat) (loc_start path) in
  ∃ code cases',
    visit_SwitchStatement cwd path (SwitchStatement discriminant cases) (Some context)
    = (SwitchStatement discriminant cases',
       Some {| fileName := fileName context;
               branchCounter :=
                 branchCounter context + length (List.filter labelled cases);
               ctx_config := ctx_config context |})
    ∧ length cases' = length cases
    ∧ (∀ i test body, cases !! i = Some (Some test, body) →
         cases' !! i
         = Some (Some test,
                 ExpressionStatement
                   (createInstrumentationCall
                      (createBranchId cwd (fileName context) position.1 position.2
                         "switch-case"
                         (branchCounter context
                          + length (List.filter labelled (take i cases))))
                      code test "switch-case" (collects context))
                 :: body))
    ∧ (∀ i body, cases !! i = Some (None, body) → cases' !! i = Some (None, body)).
Proof.
  intros position.
  exists ("case " +:+ match Str.case_label (getSource path) with
                      | Some l => l
                      | None => "unknown"
                      end).
  exists (instrument_cases cwd path cases context).1.
  cbn [visit_SwitchStatement].
  destruct (instrument_cases cwd path cases context) as [cases' context'] eqn:E.
  cbn [fst].
  assert (H : context' = (instrument_cases cwd path cases context).2)
    by (rewrite E; reflexivity).
  assert (H' : cases' = (instrument_cases cwd path cases context).1)
    by (rewrite E; reflexivity).
  clear E. subst context' cases'. revert context.
  induction cases as [|c cases IH]; intros context.
  - cbn. repeat split.
    + destruct context; cbn. do 2 f_equal. f_equal. lia.
    + intros i ? ? Hi. rewrite lookup_nil in Hi. discriminate.
    + intros i ? Hi. rewrite lookup_nil in Hi. discriminate.
  - rewrite instrument_cases_cons. cbn [fst snd].
    destruct (IH (instrument_case cwd path c context).2) as (Hv & Hlen & Hl & Hd).
    rewrite instrument_case_context in *.
    cbn [fileName branchCounter ctx_config] in *.
    repeat split.
    + injection Hv as Hv. rewrite Hv. cbn [List.filter].
      destruct (labelled c); cbn [length]; do 3 f_equal; lia.
    + cbn [length]. rewrite Hlen. reflexivity.
    + intros [|i] test body Hi.
      * cbn in Hi. injection Hi as ->.
        match goal with |- (?x :: _) !! 0%nat = _ => apply (f_equal Some) end.
        unfold instrument_case. fold position. destruct position as [ln col].
        cbn [fst snd take List.filter length]. rewrite Nat.add_0_r. reflexivity.
      * change ((c :: cases) !! S i) with (cases !! i) in Hi.
        match goal with |- (_ :: ?l) !! S i = _ => change ((_ :: l) !! S i) with (l !! i) end.
        rewrite (Hl i test body Hi).
        unfold collects. cbn [ctx_config take List.filter].
        set (before := List.filter labelled (take i cases)).
        assert (Hc : (branchCounter context + (if labelled c then 1 else 0)
                      + length before
                      = branchCounter context
                        + length (if labelled c then c :: before else before))%nat)
          by (destruct (labelled c); cbn [length]; lia).
        rewrite Hc. reflexivity.
    + intros [|i] body Hi.
      * cbn in Hi. injection Hi as ->. reflexivity.
      * change ((c :: cases) !! S i) with (cases !! i) in Hi.
        match goal with |- (_ :: ?l) !! S i = _ => change ((_ :: l) !! S i) with (l !! i) end.
        exact (Hd i body Hi).
Qed.

(** ** Excluded files *)

Section Excluding.

Lemma prefix_indexOf c pat s i :
  String.prefix pat s = true → Str.indexOf c pat = Some i → Str.indexOf c s = Some i.
Proof.
  revert s i. induction pat as [|a pat IH]; intros s i Hp Hi; [discriminate|].
  destruct s as [|b s]; [discriminate|]. simpl in Hp.
  destruct (ascii_dec a b) as [->|]; [|discriminate]. simpl in *.
  destruct (Ascii.eqb b c); [exact Hi|].
  destruct (Str.indexOf c pat) as [j|] eqn:E; [|discriminate].
  rewrite (IH s j Hp eq_refl). exact Hi.
Qed.

(** A text that includes a pattern has every character of the pattern. *)
Lemma includes_indexOf c pat s :
  Str.includes s pat = true → Str.indexOf c s = None → Str.indexOf c pat = None.
Proof.
  induction s as [|b s IH]; intros Hi Hs.
  - change (Str.includes "" pat) with (String.prefix pat "" || false) in Hi.
    rewrite orb_false_r in Hi.
    destruct (Str.indexOf c pat) as [i|] eqn:E; [|reflexivity].
    rewrite (prefix_indexOf c pat "" i Hi E) in Hs. discriminate.
  - change (Str.includes (String b s) pat)
      with (String.prefix pat (String b s) || Str.includes s pat) in Hi.
    apply orb_true_iff in Hi as [Hp|Hi].
    + destruct (Str.indexOf c pat) as [i|] eqn:E; [|reflexivity].
      rewrite (prefix_indexOf c pat _ i Hp E) in Hs. discriminate.
    + apply IH; [exact Hi|]. simpl in Hs.
      destruct (Ascii.eqb b c); [discriminate|].
      destruct (Str.indexOf c s); [discriminate|reflexivity].
Qed.

End Excluding.

(** X20. With the default exclude patterns the instrumentation pass skips no
    file whose name is free of asterisks: what is left of each pattern after
    the two replacements still holds an asterisk, so it is not a part of
    such a name. A file under node_modules or a test file gets a context
    like any other. *)
Theorem default_patterns_exclude_nothing config filename :
  excludePatterns config = excludePatterns DEFAULT_CONFIG →
  Str.indexOf "*" filename = None →
  Program_enter config filename
  = Some {| fileName := if String.eqb filename "" then "unknown" else filename;
            branchCounter := 0; ctx_config := config |}.
Proof.
  intros Hp Hf. unfold Program_enter. rewrite Hp.
  set (name := if String.eqb filename "" then "unknown" else filename).
  assert (Hn : Str.indexOf "*" name = None).
  { unfold name. destruct (String.eqb filename ""); [reflexivity|exact Hf]. }
  assert (He : ∀ pattern, Str.includes name pattern = true →
                          Str.indexOf "*" pattern = None).
  { intros pattern H. exact (includes_indexOf "*" pattern name H Hn). }
  cbn [existsb excludePatterns DEFAULT_CONFIG].
  repeat match goal with
         | |- context [Str.includes name ?p] =>
             let E := fresh "E" in
             destruct (Str.includes name p) eqn:E;
             [apply He in E; vm_compute in E; discriminate E|]
         end.
  reflexivity.
Qed.

(** A file of a dependency. *)
Lemma default_patterns_exclude_nothing_witness :
  Program_enter DEFAULT_CONFIG "/home/app/node_modules/react/index.js"
  = Some {| fileName := "/home/app/node_modules/react/index.js";
            branchCounter := 0; ctx_config := DEFAULT_CONFIG |}.
Proof.
  exact (default_patterns_exclude_nothing DEFAULT_CONFIG
           "/home/app/node_modules/react/index.js" eq_refl eq_refl).
Defined.

(** ** Tests without effects *)

Section Pure.
Variable performance_now : nat → Q.

(** Such an expression leaves the page as it is, and its value depends on
    the variables only. *)
Lemma pure_eval e :
  pure e = true →
  ∀ w v w1, eval performance_now e w = Some (v, w1) →
    w1 = w ∧ ∀ w', vars w' = vars w → eval performance_now e w' = Some (v, w').
Proof.
  induction e; intros Hp w v w1 He; try discriminate Hp.
  - injection He as <- <-. split; [reflexivity|]. intros; reflexivity.
  - injection He as <- <-. split; [reflexivity|]. intros; reflexivity.
  - injection He as <- <-. split; [reflexivity|]. intros; reflexivity.
  - injection He as <- <-. split; [reflexivity|]. intros; reflexivity.
  - cbn [eval] in *. destruct (JsObject.get (vars w) name) as [x|] eqn:E; [|discriminate].
    injection He as <- <-. split; [reflexivity|].
    intros w' Hw. rewrite Hw, E. reflexivity.
  - cbn [pure] in Hp. apply andb_true_iff in Hp as [H1 H2].
    cbn [eval] in *.
    destruct (eval performance_now e1 w) as [[a wa]|] eqn:Ea; [|discriminate].
    destruct (IHe1 H1 _ _ _ Ea) as [-> Hl]. cbn in He.
    destruct (eval performance_now e2 w) as [[b wb]|] eqn:Eb; [|discriminate].
    destruct (IHe2 H2 _ _ _ Eb) as [-> Hr]. cbn in He.
    destruct (binary operator a b) as [x|] eqn:Ex; [|discriminate].
    injection He as <- <-. split; [reflexivity|].
    intros w' Hw. rewrite (Hl w' Hw). cbn. rewrite (Hr w' Hw). cbn.
    rewrite Ex. reflexivity.
Qed.

End Pure.

(** X21. The rewrite of a test made of literals, variables and binary
    operators. Such a test holds no node that another visitor rewrites, so
    the pair the visitor installs is the code that runs. On a page where the
    collector is installed the pair evaluates to the value of the test and
    keeps the variables of the page; what changes is the collector, which has
    received one call of recordBranchHit with the branch id of the site, the
    type, the condition text and that value, and the clock, read twice. On a
    page where no collector is installed the pair throws: the call is not
    guarded. *)
Theorem instrumented_pure_test_keeps_value cwd performance_now context path type
    conditionCode test w v :
  pure test = true →
  eval performance_now test w = Some (v, w) →
  let position := default (0%nat, 0%nat) (loc_start path) in
  let id := createBranchId cwd (fileName context) position.1 position.2 type
              (branchCounter context) in
  eval performance_now (instrument cwd context path type conditionCode test) w
  = match coverage w with
    | Some collector =>
        Some (v, {| vars := vars w;
                    coverage :=
                      Some (recordBranchHit id type conditionCode v (collects context)
                              (performance_now (ticks w))
                              (performance_now (S (ticks w))) collector).2;
                    ticks := S (S (ticks w)) |})
    | None => None
    end.
Proof.
  intros Hp He position id.
  rewrite instrumented_test_runs_twice, He. cbn [mbind option_bind].
  unfold call_args. fold position. unfold id. destruct position as [ln col].
  cbn [fst snd].
  set (bid := createBranchId cwd (fileName context) ln col type (branchCounter context)).
  unfold call_recordBranchHit.
  destruct (coverage w) as [collector|];
    [|destruct (collects context); reflexivity].
  assert (Hc : ∀ rest collect,
             (let '(r, s) :=
                recordBranchHit bid type conditionCode v collect
                  (performance_now (ticks w)) (performance_now (S (ticks w)))
                  collector in
              Some (r, {| vars := vars w; coverage := Some s;
                          ticks := S (S (ticks w)) |}))
             ≫= (λ '(_, w0), eval performance_now test w0)
             = rest →
             rest
             = Some (v, {| vars := vars w;
                           coverage :=
                             Some (recordBranchHit bid type conditionCode v collect
                                     (performance_now (ticks w))
                                     (performance_now (S (ticks w))) collector).2;
                           ticks := S (S (ticks w)) |})).
  { intros rest collect <-.
    destruct (recordBranchHit bid type conditionCode v collect
                (performance_now (ticks w)) (performance_now (S (ticks w)))
                collector) as [r s]. cbn [mbind option_bind snd].
    destruct (pure_eval performance_now test Hp w v w He) as [_ Hw].
    apply Hw. reflexivity. }
  destruct (collects context); cbn [app Js.truthy]; apply Hc; reflexivity.
Qed.

(** The test [x < 1] on a page where [x] is 0. *)
Lemma instrumented_pure_test_keeps_value_witness :
  fst <$> eval Sample.clock
            (instrument Sample.cwd
               {| fileName := Sample.filename; branchCounter := 0;
                  ctx_config := DEFAULT_CONFIG |}
               {| loc_start := Some (10%nat, 4%nat); getSource := "if (x < 1) y = 1;" |}
               "if" "(x < 1)"
               (BinaryExpression "<" (Identifier "x") (NumericLiteral 1)))
            (Sample.page 0)
  = Some (Js.VBool true).
Proof.
  rewrite (instrumented_pure_test_keeps_value Sample.cwd Sample.clock _ _ "if" "(x < 1)"
             (BinaryExpression "<" (Identifier "x") (NumericLiteral 1))
             (Sample.page 0) (Js.VBool true) eq_refl eq_refl).
  reflexivity.
Defined.

(** ** Hot and cold paths *)

Section Paths.
Local Open Scope Q_scope.

Lemma elem_of_filter_stats (P : BranchHit → bool) (stats : list BranchHit) b :
  b ∈ List.filter P stats ↔ b ∈ stats ∧ P b = true.
Proof. rewrite !list_elem_of_In, List.filter_In. reflexivity. Qed.

(** The comparison of the hit rate with 0.8, in whole numbers. *)
Lemma hit_rate_above b :
  (0 < hitCount b + missCount b)%nat →
  Js.Qltb (8 # 10) (hit_rate b) = true ↔ (4 * missCount b < hitCount b)%nat.
Proof.
  intros Hpos. rewrite Qltb_lt. unfold hit_rate.
  set (h := hitCount b) in *. set (m := missCount b) in *.
  pose proof (inject_nat_pos (h + m) Hpos) as Ht.
  assert (Hne : ¬ inject_Z (Z.of_nat (h + m)) == 0).
  { intros H. rewrite H in Ht. exact (Qlt_irrefl _ Ht). }
  assert (Hq : (8 # 10) * inject_Z (Z.of_nat (h + m)) < inject_Z (Z.of_nat h)
               ↔ (4 * m < h)%nat).
  { unfold Qlt, Qmult, inject_Z. cbn [Qnum Qden]. lia. }
  rewrite <- Hq. split; intros H.
  - apply (Qmult_lt_r _ _ _ Ht) in H.
    rewrite Qmult_comm, (Qmult_comm (_ / _)), Qmult_div_r in H by exact Hne.
    rewrite Qmult_comm. exact H.
  - apply Qlt_shift_div_l; assumption.
Qed.

End Paths.

(** X22. What the analysis helpers select from the records of the table: a
    hot path has more than [threshold] executions and more than four hits
    for every miss; a cold path has at least one execution and at most
    [maxExecutions]. With [maxExecutions] not above [threshold], as with the
    defaults 5 and 100, no record is both, and a record the dead-code helper
    selects is neither. *)
Theorem hot_cold_dead_apart threshold maxExecutions s b :
  let total := (hitCount b + missCount b)%nat in
  (b ∈ (findHotPaths threshold s).1
   ↔ b ∈ (copied_stats s).1
     ∧ (threshold < total)%nat ∧ (4 * missCount b < hitCount b)%nat)
  ∧ (b ∈ (findColdPaths maxExecutions s).1
     ↔ b ∈ (copied_stats s).1 ∧ (0 < total ≤ maxExecutions)%nat)
  ∧ ((maxExecutions ≤ threshold)%nat →
     b ∈ (findHotPaths threshold s).1 → b ∉ (findColdPaths maxExecutions s).1)
  ∧ (b ∈ (findDeadCode s).1 →
     (b ∉ (findHotPaths threshold s).1) ∧ (b ∉ (findColdPaths maxExecutions s).1)).
Proof.
  intros total. unfold findHotPaths, findColdPaths, findDeadCode.
  destruct (copied_stats s) as [stats s']. cbn [fst].
  rewrite !elem_of_filter_stats. fold total.
  assert (Hhot : ((threshold <? total)%nat && Js.Qltb (8 # 10) (hit_rate b) = true)
                 ↔ (threshold < total)%nat ∧ (4 * missCount b < hitCount b)%nat).
  { rewrite andb_true_iff, Nat.ltb_lt. split; intros [Ht Hr]; (split; [exact Ht|]);
      apply hit_rate_above; try assumption; fold total; lia. }
  assert (Hcold : ((0 <? total)%nat && (total <=? maxExecutions)%nat = true)
                  ↔ (0 < total ≤ maxExecutions)%nat).
  { rewrite andb_true_iff, Nat.ltb_lt, Nat.leb_le. reflexivity. }
  rewrite Hhot, Hcold.
  split; [reflexivity|]. split; [reflexivity|]. split.
  - intros Hle (_ & Ht & _) (_ & _ & Hm). lia.
  - intros [_ Hdead]. apply andb_true_iff in Hdead as [Hh Hm].
    apply Nat.eqb_eq in Hh, Hm. unfold total.
    split; intros (_ & Ht & _); lia.
Qed.

(** ** Sampling one event in so many *)

Section OneIn.
Local Open Scope Q_scope.

Lemma rem1_comp x y : x == y → Js.rem1 x == Js.rem1 y.
Proof.
  intros H. unfold Js.rem1, Js.Qtrunc.
  rewrite (Qltb_comp x y 0 0 H (Qeq_refl 0)).
  destruct (Js.Qltb y 0).
  - rewrite (Qceiling_comp _ _ H), H. reflexivity.
  - rewrite (Qfloor_comp _ _ H), H. reflexivity.
Qed.

(** At the rate [1/k] the remainder of [c/k] is below the rate exactly when
    [k] divides [c]. *)
Lemma rem1_one_in (c : nat) (k : positive) :
  Js.Qltb (Js.rem1 (inject_Z (Z.of_nat c) * (1 # k))) (1 # k) = true
  ↔ (Z.of_nat c mod Z.pos k = 0)%Z.
Proof.
  rewrite Qltb_lt. set (x := inject_Z (Z.of_nat c) * (1 # k)).
  assert (Hx : Js.Qltb x 0 = false).
  { destruct (Js.Qltb x 0) eqn:E; [|reflexivity].
    apply Qltb_lt in E. unfold x, Qlt, Qmult, inject_Z in E. cbn [Qnum Qden] in E. lia. }
  unfold Js.rem1, Js.Qtrunc. rewrite Hx.
  change (Qfloor x) with ((Z.of_nat c * 1) / Z.pos k)%Z.
  rewrite Z.mul_1_r.
  pose proof (Z.div_mod (Z.of_nat c) (Z.pos k) ltac:(lia)) as Hdm.
  pose proof (Z.mod_pos_bound (Z.of_nat c) (Z.pos k) ltac:(lia)) as Hb.
  set (q := (Z.of_nat c / Z.pos k)%Z) in *.
  set (r := (Z.of_nat c mod Z.pos k)%Z) in *.
  unfold x, Qlt, Qminus, Qplus, Qopp, Qmult, inject_Z. cbn [Qnum Qden].
  rewrite ?Pos2Z.inj_mul. clearbody q r. nia.
Qed.

End OneIn.

(** X23. At a sample rate of one in a power of two the sampling gate lets
    through exactly the events whose count, after the increment, is a
    multiple of that power: every second event at 0.5, every fourth at
    0.25. (Rates of this form and their products with a counter are exact in
    double precision as well.) *)
Theorem shouldSample_one_in_a_power_of_two s (j : nat) :
  (sampleRate (samplingConfig s) == 1 / inject_Z (Z.of_nat (2 ^ j)))%Q →
  (shouldSample s).1 = true ↔ Nat.divide (2 ^ j) (S (sampleCounter s)).
Proof.
  intros Hr. unfold shouldSample.
  cbn [fst sampleCounter samplingConfig set_sampleCounter].
  set (c := S (sampleCounter s)).
  assert (Hk : (0 < 2 ^ j)%nat) by (apply Nat.neq_0_lt_0, Nat.pow_nonzero; lia).
  set (k := Pos.of_nat (2 ^ j)).
  assert (Hpos : Z.pos k = Z.of_nat (2 ^ j)).
  { unfold k. rewrite <- positive_nat_Z, Nat2Pos.id by lia. reflexivity. }
  assert (Hr' : (sampleRate (samplingConfig s) == 1 # k)%Q).
  { rewrite Hr, <- Hpos. reflexivity. }
  rewrite (Qltb_comp _ (Js.rem1 (inject_Z (Z.of_nat c) * (1 # k))) _ (1 # k));
    [|apply rem1_comp; rewrite Hr'; reflexivity|exact Hr'].
  rewrite rem1_one_in, Hpos, <- Nat2Z.inj_mod.
  rewrite <- Nat.Lcm0.mod_divide. lia.
Qed.

(** A collector that samples one event in four, at its first event. *)
Lemma shouldSample_one_in_a_power_of_two_witness :
  (shouldSample (new_collector (sampled_config (1 # 4)) "session")).1 = true
  ↔ Nat.divide 4 1.
Proof.
  apply (shouldSample_one_in_a_power_of_two
           (new_collector (sampled_config (1 # 4)) "session") 2).
  reflexivity.
Defined.

(** ** The Vite plugin *)

(** X24. A build for which injectInProd is off, and a dev server for which
    injectInDev is off, instrument nothing: after [configResolved] the
    [transform] hook returns null for every module, whatever Babel would
    do with it. *)
Theorem transform_off_when_not_injected transformSync options command heap code id :
  let config := Vite.runtimeCoveragePlugin options in
  (command = "build" ∧ Vite.c_injectInProd config = false)
  ∨ (command = "serve" ∧ Vite.c_injectInDev config = false) →
  let resolved := Vite.configResolved command config heap in
  Vite.transform transformSync resolved.1 resolved.2 code id = None.
Proof.
  intros config H resolved.
  assert (Hoff : Vite.c_enabled resolved.1 = false).
  { unfold resolved. cbv beta zeta delta [Vite.configResolved].
    destruct H as [[-> Hp]|[-> Hd]].
    - change (String.eqb "build" "serve") with false.
      change (String.eqb "build" "build") with true.
      cbn [andb]. rewrite Hp. reflexivity.
    - change (String.eqb "serve" "serve") with true.
      change (String.eqb "serve" "build") with false.
      cbn [andb]. rewrite Hd. reflexivity. }
  unfold Vite.transform. rewrite Hoff. reflexivity.
Qed.

(** The plugin with its defaults in a production build, with a Babel that
    would return the code as it is. *)
Lemma transform_off_when_not_injected_witness :
  let options :=
    {| Vite.o_enabled := None; Vite.o_injectInDev := None;
       Vite.o_injectInProd := None; Vite.o_initScript := None;
       Vite.o_sampling := None; Vite.o_excludePatterns := None;
       Vite.o_includePatterns := None; Vite.o_sendToAnalytics := None;
       Vite.o_analyticsEndpoint := None; Vite.o_visualizationEnabled := None |} in
  let babel := λ code _ _ _,
    Vite.Returns (Some {| Vite.bf_code := Some code; Vite.bf_map := None |}) in
  let resolved :=
    Vite.configResolved "build" (Vite.runtimeCoveragePlugin options)
      Vite.module_loaded in
  Vite.transform babel resolved.1 resolved.2 "if (a) b()" "/home/app/src/App.tsx"
  = None.
Proof.
  intros options babel.
  exact (transform_off_when_not_injected babel options "build" Vite.module_loaded
           "if (a) b()" "/home/app/src/App.tsx" (or_introl (conj eq_refl eq_refl))).
Defined.

(** X25. The plugin's configuration is a shallow copy of DEFAULT_OPTIONS, so
    an instance made without a sampling option holds the sampling object of
    DEFAULT_OPTIONS itself. [configResolved] of a production build writes
    into that object: afterwards every instance made without a sampling
    option, before or after, reads sampling as enabled, at the default's rate
    or at 0.01 if that was 0. *)
Theorem build_writes_the_default_sampling first second heap d :
  Vite.o_sampling first = None →
  Vite.o_sampling second = None →
  heap !! Vite.DEFAULT_OPTIONS_sampling = Some d →
  let heap' :=
    (Vite.configResolved "build" (Vite.runtimeCoveragePlugin first) heap).2 in
  ∃ sampling,
    heap' !! Vite.c_sampling (Vite.runtimeCoveragePlugin second) = Some sampling
    ∧ enabled sampling = true
    ∧ sampleRate sampling
      = (if Qeq_bool (sampleRate d) 0 then 1 # 100 else sampleRate d)
    ∧ ¬ (sampleRate sampling == 0)%Q
    ∧ maxSamplesPerSecond sampling = maxSamplesPerSecond d
    ∧ collectExecutionTime sampling = collectExecutionTime d.
Proof.
  intros H1 H2 Hd heap'. unfold heap', Vite.configResolved, Vite.runtimeCoveragePlugin.
  rewrite H1, H2. cbn [default Vite.c_sampling Vite.c_injectInProd Vite.c_injectInDev
    String.eqb Ascii.eqb Bool.eqb andb snd].
  match goal with
  | |- context [if ?b then _ else _] => destruct b
  end; cbn [snd Vite.c_sampling Vite.set_enabled];
    rewrite list_lookup_alter_eq, Hd; cbn [fmap option_fmap option_map];
    (eexists; split; [reflexivity|]; cbn [enabled sampleRate maxSamplesPerSecond
       collectExecutionTime]; repeat split;
     destruct (Qeq_bool (sampleRate d) 0) eqn:E;
       [intros H; discriminate (Qeq_eq_bool _ _ H)
       |intros H; rewrite (Qeq_eq_bool _ _ H) in E; discriminate E]).
Qed.

(** Two instances made with no options, after the module has loaded. *)
Lemma build_writes_the_default_sampling_witness :
  let none :=
    {| Vite.o_enabled := None; Vite.o_injectInDev := None;
       Vite.o_injectInProd := None; Vite.o_initScript := None;
       Vite.o_sampling := None; Vite.o_excludePatterns := None;
       Vite.o_includePatterns := None; Vite.o_sendToAnalytics := None;
       Vite.o_analyticsEndpoint := None; Vite.o_visualizationEnabled := None |} in
  let heap' :=
    (Vite.configResolved "build" (Vite.runtimeCoveragePlugin none)
       Vite.module_loaded).2 in
  ∃ sampling,
    heap' !! Vite.c_sampling (Vite.runtimeCoveragePlugin none) = Some sampling
    ∧ enabled sampling = true.
Proof.
  intros none heap'.
  destruct (build_writes_the_default_sampling none none Vite.module_loaded _
              eq_refl eq_refl eq_refl) as (sampling & H1 & H2 & _).
  exists sampling. split; assumption.
Defined.

(** ** The collector of the emitted script *)

Section EmbeddedCollector.
Implicit Types (s : state).

Lemma embedded_step_set_config c s call :
  Embedded.step (set_config c s) call = set_config c (Embedded.step s call).
Proof.
  destruct call as [id ty code r collect now later|]; [|reflexivity].
  exact (step_set_config c s (RecordBranchHit id ty code r collect now later)).
Qed.

Lemma embedded_run_set_config c cs s :
  Embedded.run (set_config c s) cs = set_config c (Embedded.run s cs).
Proof.
  revert s. induction cs as [|call cs IH]; intros s; [reflexivity|].
  change (Embedded.run (set_config c s) (call :: cs))
    with (Embedded.run (Embedded.step (set_config c s) call) cs).
  rewrite embedded_step_set_config. apply IH.
Qed.

Lemma embedded_run_samplingConfig cs s :
  samplingConfig (Embedded.run s cs) = samplingConfig s.
Proof.
  revert s. induction cs as [|c cs IH]; intros s; [reflexivity|].
  change (Embedded.run s (c :: cs)) with (Embedded.run (Embedded.step s c) cs).
  rewrite IH. destruct c as [id ty code r collect now later|]; [|reflexivity].
  exact (step_samplingConfig s (RecordBranchHit id ty code r collect now later)).
Qed.

Lemma embedded_clearStats_wf s : wf (Embedded.clearStats s).
Proof.
  apply (wf_same (clearStats s)); [reflexivity..|apply clearStats_wf].
Qed.

Lemma embedded_run_wf cs s : wf s → wf (Embedded.run s cs).
Proof.
  revert s. induction cs as [|c cs IH]; intros s Hwf; [exact Hwf|].
  apply IH. destruct c as [id ty code r collect now later|].
  - exact (step_wf s (RecordBranchHit id ty code r collect now later) Hwf).
  - apply embedded_clearStats_wf.
Qed.

Lemma embedded_run_records cs s :
  only_records cs = true →
  Embedded.run s cs = run s cs ∧ branchStats (run s cs) = branchStats s.
Proof.
  revert s. induction cs as [|c cs IH]; intros s Hcs; [split; reflexivity|].
  destruct c as [id ty code r collect now later|]; [|discriminate].
  destruct (IH (step s (RecordBranchHit id ty code r collect now later)) Hcs)
    as [Hrun Hb].
  split; [exact Hrun|].
  change (run s (RecordBranchHit id ty code r collect now later :: cs))
    with (run (step s (RecordBranchHit id ty code r collect now later)) cs).
  rewrite Hb. simpl. rewrite recordBranchHit_gate. simpl.
  destruct (gate_frame now s) as (_ & _ & Hg & _).
  destruct (gate now s).1; [|exact Hg].
  destruct (store_event_frame id ty code r collect now later (gate now s).2)
    as (_ & _ & _ & _ & _ & H). rewrite H. exact Hg.
Qed.

End EmbeddedCollector.

(** X26. The collector of the emitted script fixes its sampling at
    construction: its [updateConfig] replaces [config] only, which
    [recordBranchHit] does not read. Whatever the new configuration says,
    sampling included, the collector records afterwards what it would have
    recorded without the call. *)
Theorem embedded_updateConfig_changes_nothing newConfig s cs :
  let s1 := Embedded.run (Embedded.updateConfig newConfig s) cs in
  let s2 := Embedded.run s cs in
  samplingConfig s1 = samplingConfig s
  ∧ (∀ id, lookup_branch s1 id = lookup_branch s2 id)
  ∧ Embedded.e_totalBranches (Embedded.getExecutionSummary s1)
    = Embedded.e_totalBranches (Embedded.getExecutionSummary s2)
  ∧ Embedded.e_hitBranches (Embedded.getExecutionSummary s1)
    = Embedded.e_hitBranches (Embedded.getExecutionSummary s2)
  ∧ sampleCounter s1 = sampleCounter s2
  ∧ lastSampleTime s1 = lastSampleTime s2.
Proof.
  intros s1 s2. unfold s1, s2, Embedded.updateConfig.
  rewrite embedded_run_set_config. split.
  - cbn [samplingConfig set_config]. apply embedded_run_samplingConfig.
  - repeat split.
Qed.

(** X27. [exportData] of the emitted script hands out the collector's table
    itself, not a copy: as long as the statistics are not cleared the
    collector goes on writing into the exported table, so the export shows
    every later event, and a key written through the exported reference is
    a key of the collector's table. *)
Theorem embedded_exportData_hands_out_the_table cfg sid before :
  let s := Embedded.run (new_collector cfg sid) before in
  let l := Embedded.x_branchStats (Embedded.exportData s) in
  (∀ cs id, only_records cs = true →
     JsObject.get (table_at (Embedded.run s cs) l) id
       ≫= (λ r, records (Embedded.run s cs) !! r)
     = lookup_branch (Embedded.run s cs) id)
  ∧ (∀ k r, lookup_branch (mutate l s (SetKey k r)) k = records s !! r).
Proof.
  intros s l. split.
  - intros cs id Hcs. destruct (embedded_run_records cs s Hcs) as [-> Hb].
    unfold lookup_branch. rewrite Hb. reflexivity.
  - intros k r. unfold lookup_branch, l. cbn [Embedded.exportData Embedded.x_branchStats
      mutate branchStats set_tables records].
    assert (Hwf : wf s) by (apply embedded_run_wf, new_collector_wf).
    rewrite table_at_alter by apply (wf_table s Hwf).
    rewrite JsObjectFacts.get_set, String.eqb_refl. reflexivity.
Qed.

(** ** Starting a collector *)

(** X28. [initializeRuntimeCoverage] returns null when there is no window
    and when the given configuration sets enabled to false. Outside
    production, given a configuration without a sampling property, a
    collector it returns has sampling off and counts every call. *)
Theorem initializeRuntimeCoverage_starts_counting window NODE_ENV config sid :
  (window = false ∨ p_enabled config = Some false →
   initializeRuntimeCoverage window NODE_ENV config sid = None)
  ∧ (NODE_ENV ≠ "production" → p_sampling config = None →
     ∀ s, initializeRuntimeCoverage window NODE_ENV config sid = Some s →
       enabled (samplingConfig s) = false
       ∧ ∀ cs id, only_records cs = true →
           observations (lookup_branch (run s cs) id) = calls_for id cs).
Proof.
  unfold initializeRuntimeCoverage. split.
  - intros [->|He]; [reflexivity|].
    destruct window; cbn [negb]; [|reflexivity].
    unfold merge_config. cbn [cfg_enabled]. rewrite He. reflexivity.
  - intros Henv Hs s. destruct window; cbn [negb]; [|discriminate].
    unfold merge_config. cbn [cfg_enabled]. rewrite Hs. cbn [default].
    destruct (negb _); [discriminate|]. intros [= <-].
    match goal with
    | |- enabled (samplingConfig ?st) = false ∧ _ =>
        assert (Hoff : enabled (samplingConfig st) = false)
    end.
    { cbn [samplingConfig new_collector sampling enabled].
      apply String.eqb_neq, Henv. }
    split; [exact Hoff|]. intros cs id Hcs.
    rewrite observations_disabled; [reflexivity|apply new_collector_wf|exact Hoff|exact Hcs].
Qed.

(** ** The panel *)

Section Panel.
Import JsObject JsObjectFacts JsObjectMore JsObjectCopy.

Lemma existsb_eqb (f : string) (acc : list string) :
  existsb (String.eqb f) acc = true ↔ f ∈ acc.
Proof.
  rewrite existsb_exists. split.
  - intros (x & Hx & He). apply String.eqb_eq in He as ->.
    apply list_elem_of_In, Hx.
  - intros H. exists f. split; [apply list_elem_of_In, H|apply String.eqb_refl].
Qed.

(** The list of files grows by the files not yet in it, in order. *)
Lemma files_from (acc : list string) (stats : list BranchHit) :
  NoDup acc →
  let step := λ (acc : list string) (branch : BranchHit),
    if existsb (String.eqb (file branch)) acc then acc else acc ++ [file branch] in
  ∃ more,
    foldl step acc stats = acc ++ more
    ∧ NoDup (acc ++ more)
    ∧ more `sublist_of` file <$> stats
    ∧ ∀ f, f ∈ acc ++ more ↔ f ∈ acc ∨ ∃ b, b ∈ stats ∧ file b = f.
Proof.
  intros Hnd step. revert acc Hnd.
  induction stats as [|b stats IH]; intros acc Hnd.
  - exists []. rewrite app_nil_r.
    split; [reflexivity|]. split; [exact Hnd|]. split; [apply sublist_nil|].
    intros f. split; [intros H; left; exact H|].
    intros [H|(b & Hb & _)]; [exact H|]. apply elem_of_nil in Hb as [].
  - cbn [foldl]. unfold step at 2.
    destruct (existsb (String.eqb (file b)) acc) eqn:E.
    + apply existsb_eqb in E.
      destruct (IH acc Hnd) as (more & Hf & Hn & Hs & He).
      exists more. split; [exact Hf|]. split; [exact Hn|].
      split; [rewrite fmap_cons; apply sublist_cons, Hs|].
      intros f. rewrite He. split; intros [H|(b' & Hb & Hfb)]; try (left; exact H).
      * right. exists b'. split; [right; exact Hb|exact Hfb].
      * apply elem_of_cons in Hb as [->|Hb]; [left; rewrite <- Hfb; exact E|].
        right. exists b'. split; assumption.
    + assert (Hnot : file b ∉ acc).
      { intros H. apply existsb_eqb in H. rewrite H in E. discriminate. }
      assert (Hnd' : NoDup (acc ++ [file b])).
      { apply NoDup_app. split; [exact Hnd|]. split; [|apply NoDup_singleton].
        intros x Hx Hx'. apply list_elem_of_singleton in Hx' as ->. exact (Hnot Hx). }
      destruct (IH (acc ++ [file b]) Hnd') as (more & Hf & Hn & Hs & He).
      exists (file b :: more). rewrite Hf, <- app_assoc. cbn [app].
      split; [reflexivity|]. split; [rewrite <- app_assoc in Hn; exact Hn|].
      split; [rewrite fmap_cons; apply sublist_skip, Hs|].
      intros f. rewrite <- app_assoc in He. cbn [app] in He. rewrite He.
      rewrite elem_of_app, list_elem_of_singleton.
      split.
      * intros [[H| ->]|(b' & Hb & Hfb)].
        -- left; exact H.
        -- right. exists b. split; [left|reflexivity].
        -- right. exists b'. split; [right; exact Hb|exact Hfb].
      * intros [H|(b' & Hb & Hfb)]; [left; left; exact H|].
        apply elem_of_cons in Hb as [->|Hb]; [left; right; symmetry; exact Hfb|].
        right. exists b'. split; assumption.
Qed.

Lemma count_pos_elem (P : BranchHit → bool) (stats : list BranchHit) :
  count P stats ≠ 0%nat ↔ ∃ b, b ∈ stats ∧ P b = true.
Proof.
  unfold count. split.
  - intros H. destruct (List.filter P stats) as [|b l] eqn:E; [contradiction|].
    exists b. apply elem_of_filter_stats. rewrite E. left.
  - intros (b & Hb) E. apply elem_of_filter_stats in Hb.
    destruct (List.filter P stats); [apply elem_of_nil in Hb as []|discriminate].
Qed.

Lemma files_snoc (stats : list BranchHit) (b : BranchHit) :
  CoveragePanel.files (stats ++ [b])
  = if existsb (String.eqb (file b)) (CoveragePanel.files stats)
    then CoveragePanel.files stats
    else CoveragePanel.files stats ++ [file b].
Proof. unfold CoveragePanel.files. rewrite foldl_app. reflexivity. Qed.

Lemma files_elem (stats : list BranchHit) (f : string) :
  f ∈ CoveragePanel.files stats ↔ f ∈ file <$> stats.
Proof.
  destruct (files_from [] stats NoDup_nil_2) as (more & Hf & _ & _ & He).
  unfold CoveragePanel.files. rewrite Hf, He, list_elem_of_fmap. split.
  - intros [H|(b & Hb & Hfb)]; [apply elem_of_nil in H as []|].
    exists b. split; [symmetry; exact Hfb|exact Hb].
  - intros (b & -> & Hb). right. exists b. split; [exact Hb|reflexivity].
Qed.

(** A file listed before another one has a record before every record of
    the other. *)
Lemma files_order (stats : list BranchHit) (i j : nat) (f g : string) :
  (i < j)%nat →
  CoveragePanel.files stats !! i = Some f →
  CoveragePanel.files stats !! j = Some g →
  ∃ pre post, stats = pre ++ post ∧ f ∈ file <$> pre ∧ g ∉ file <$> pre.
Proof.
  revert i j f g. induction stats as [|b stats IH] using rev_ind;
    intros i j f g Hij Hi Hj;
    [change (CoveragePanel.files []) with (@nil string) in Hi;
     rewrite lookup_nil in Hi; discriminate|].
  rewrite files_snoc in Hi, Hj.
  assert (Hold : CoveragePanel.files stats !! i = Some f →
                 CoveragePanel.files stats !! j = Some g →
                 ∃ pre post, stats ++ [b] = pre ++ post
                             ∧ f ∈ file <$> pre ∧ g ∉ file <$> pre).
  { intros Hi' Hj'. destruct (IH i j f g Hij Hi' Hj') as (pre & post & -> & H).
    exists pre, (post ++ [b]). rewrite <- app_assoc. split; [reflexivity|exact H]. }
  destruct (existsb (String.eqb (file b)) (CoveragePanel.files stats)) eqn:E;
    [exact (Hold Hi Hj)|].
  assert (Hnot : file b ∉ file <$> stats).
  { rewrite <- files_elem. intros H. apply existsb_eqb in H. congruence. }
  destruct (decide (j < length (CoveragePanel.files stats))%nat) as [Hlt|Hge].
  - rewrite lookup_app_l in Hi, Hj by lia. exact (Hold Hi Hj).
  - pose proof (lookup_lt_Some _ _ _ Hj) as Hlen.
    rewrite length_app in Hlen. cbn [length] in Hlen.
    assert (Ej : j = length (CoveragePanel.files stats)) by lia.
    rewrite lookup_app_l in Hi by lia.
    rewrite Ej, lookup_app_r, Nat.sub_diag in Hj by lia.
    injection Hj as <-.
    exists stats, [b]. split; [reflexivity|]. split; [|exact Hnot].
    apply files_elem. exact (list_elem_of_lookup_2 _ _ _ Hi).
Qed.

End Panel.

(** X29. The file chooser of the coverage panel lists every file that has a
    record, once, in the order in which the files first appear among the
    records: of two files, the one listed first has a record before every
    record of the other. The files listed are those that have an entry in
    [fileStats] of the execution summary. *)
Theorem panel_lists_the_files_of_fileStats (stats : list BranchHit) :
  let files := CoveragePanel.files stats in
  NoDup files
  ∧ files `sublist_of` file <$> stats
  ∧ (∀ f, f ∈ files ↔ ∃ b, b ∈ stats ∧ file b = f)
  ∧ (∀ i j f g, (i < j)%nat → files !! i = Some f → files !! j = Some g →
       ∃ pre post, stats = pre ++ post ∧ f ∈ file <$> pre ∧ g ∉ file <$> pre)
  ∧ (∀ f, f ∈ files ↔ is_Some (JsObject.get (fileStats (summarize stats)) f)).
Proof.
  intros files.
  assert (Horder : ∀ i j f g, (i < j)%nat →
            files !! i = Some f → files !! j = Some g →
            ∃ pre post, stats = pre ++ post ∧ f ∈ file <$> pre ∧ g ∉ file <$> pre)
    by (intros i j f g; apply files_order).
  revert Horder.
  destruct (files_from [] stats NoDup_nil_2) as (more & Hf & Hn & Hs & He).
  cbn [app] in *.
  assert (E : files = more) by exact Hf.
  rewrite E. intros Horder. split; [exact Hn|]. split; [exact Hs|].
  assert (Hin : ∀ f, f ∈ more ↔ ∃ b, b ∈ stats ∧ file b = f).
  { intros f. rewrite He. split; [intros [H|H]; [apply elem_of_nil in H as []|exact H]|].
    intros H; right; exact H. }
  split; [exact Hin|]. split; [exact Horder|].
  intros f. rewrite Hin. cbn [fileStats summarize]. rewrite fileStats_get.
  destruct (count (in_file f) stats =? 0)%nat eqn:Ec.
  - apply Nat.eqb_eq in Ec. split; [|intros [? H]; discriminate H].
    intros (b & Hb & Hfb). exfalso.
    apply (proj2 (count_pos_elem (in_file f) stats)); [|exact Ec].
    exists b. split; [exact Hb|]. unfold in_file. rewrite Hfb. apply String.eqb_refl.
  - apply Nat.eqb_neq in Ec. split; [intros _; eexists; reflexivity|]. intros _.
    apply count_pos_elem in Ec as (b & Hb & Hfb). exists b. split; [exact Hb|].
    apply String.eqb_eq, Hfb.
Qed.

(** ** The heat map *)

Section Heatmap.
Import JsObject JsObjectFacts JsObjectMore JsObjectCopy.
Import BranchHeatmap.

Lemma concat_perm {A} (l l' : list (list A)) : l ≡ₚ l' → concat l ≡ₚ concat l'.
Proof.
  induction 1 as [|x l l' _ IH|x y l|l l' l'' _ IH1 _ IH2]; cbn [concat].
  - reflexivity.
  - rewrite IH. reflexivity.
  - rewrite !app_assoc. apply Permutation_app_tail, Permutation_app_comm.
  - rewrite IH1. exact IH2.
Qed.

(** Appending to the group of a key adds the element to the concatenation. *)
Lemma concat_set_known (o : list (string * list Point)) k g p :
  get o k = Some g →
  concat (set o k (g ++ [p])).*2 ≡ₚ concat o.*2 ++ [p].
Proof.
  induction o as [|[k0 v0] o IH]; [discriminate|]. cbn [get set].
  destruct (String.eqb k0 k).
  - intros [= ->]. rewrite !fmap_cons. cbn [snd concat].
    rewrite <- !app_assoc. apply Permutation_app_head, Permutation_app_comm.
  - intros H. rewrite !fmap_cons. cbn [snd concat]. rewrite (IH H).
    rewrite app_assoc. reflexivity.
Qed.

Lemma group_all acc branch :
  concat (group None acc branch).*2 ≡ₚ concat acc.*2 ++ [point branch].
Proof.
  unfold group. cbn [selected].
  destruct (get acc (file branch)) as [g|] eqn:E.
  - rewrite E. cbn [default]. apply concat_set_known, E.
  - rewrite get_set, String.eqb_refl.
    change (default [] (Some []) ++ [point branch]) with ([] ++ [point branch]).
    rewrite (set_new acc _ _ E).
    assert (H : get (acc ++ [(file branch, [])]) (file branch) = Some [])
      by (rewrite <- (set_new acc _ _ E), get_set, String.eqb_refl; reflexivity).
    rewrite (concat_set_known _ _ _ _ H).
    rewrite fmap_app, concat_app. cbn. rewrite !app_nil_r. reflexivity.
Qed.

Lemma groups_all stats acc :
  concat (foldl (group None) acc stats).*2 ≡ₚ concat acc.*2 ++ (point <$> stats).
Proof.
  revert acc. induction stats as [|b stats IH]; intros acc; cbn [foldl].
  - rewrite app_nil_r. reflexivity.
  - rewrite IH, group_all, <- app_assoc. reflexivity.
Qed.

(** With a file selected the table of groups holds that file at most. *)
Lemma groups_selected f stats acc g :
  f ≠ "" →
  (acc = [] ∧ g = []) ∨ acc = [(f, g)] →
  default [] (get (foldl (group (Some f)) acc stats) f)
  = g ++ (point <$> List.filter (in_file f) stats).
Proof.
  intros Hf. revert acc g. induction stats as [|b stats IH]; intros acc g Hacc.
  - cbn. rewrite app_nil_r. destruct Hacc as [[-> ->]| ->]; cbn;
      rewrite ?String.eqb_refl; reflexivity.
  - cbn [foldl List.filter]. unfold group at 2, selected, in_file.
    apply String.eqb_neq in Hf. rewrite Hf.
    destruct (String.eqb_spec (file b) f) as [Hb|Hb]; cbn [negb].
    + rewrite Hb. rewrite fmap_cons, (IH _ (g ++ [point b])).
      * rewrite <- app_assoc. reflexivity.
      * right. destruct Hacc as [[-> ->]| ->]; cbn; rewrite ?String.eqb_refl;
          cbn; rewrite ?String.eqb_refl; reflexivity.
    + apply IH, Hacc.
Qed.

Lemma point_rate (b : BranchHit) :
  (0 <= p_hitRate (point b))%Q ∧ (p_hitRate (point b) <= 1)%Q
  ∧ (p_executionCount (point b) = 0%nat → p_hitRate (point b) = 0%Q)
  ∧ p_executionCount (point b) = (hitCount b + missCount b)%nat.
Proof.
  unfold point. cbn [p_hitRate p_executionCount].
  destruct (0 <? hitCount b + missCount b)%nat eqn:E.
  - apply Nat.ltb_lt in E.
    destruct (rate_bounds (hitCount b) (hitCount b + missCount b) ltac:(lia) E)
      as (H0 & H1 & _).
    repeat split; try assumption. intros Hz. lia.
  - repeat split; [apply Qle_refl|discriminate].
Qed.

(** Tables that hold for each key of a list the value a function gives. *)
Lemma get_keyed {V} (v : string → V) (fs : list string) k :
  get ((λ f, (f, v f)) <$> fs) k = if decide (k ∈ fs) then Some (v k) else None.
Proof.
  induction fs as [|f fs IH]; [reflexivity|]. rewrite fmap_cons. cbn [get].
  destruct (String.eqb_spec f k) as [->|Hne].
  - rewrite decide_True by left. reflexivity.
  - rewrite IH. destruct (decide (k ∈ fs)) as [Hin|Hnot].
    + rewrite decide_True by (right; exact Hin). reflexivity.
    + rewrite decide_False; [reflexivity|].
      intros H. apply elem_of_cons in H as [->|H]; [exact (Hne eq_refl)|exact (Hnot H)].
Qed.

Lemma set_keyed {V} (v : string → V) (fs : list string) k x :
  NoDup fs → k ∈ fs →
  set ((λ f, (f, v f)) <$> fs) k x
  = (λ f, (f, if String.eqb f k then x else v f)) <$> fs.
Proof.
  induction fs as [|f fs IH]; intros Hnd Hk; [apply elem_of_nil in Hk as []|].
  apply NoDup_cons in Hnd as [Hf Hnd]. rewrite !fmap_cons. cbn [set].
  destruct (String.eqb_spec f k) as [->|Hne].
  - f_equal. apply list_fmap_ext. intros i f Hi.
    destruct (String.eqb_spec f k) as [->|]; [|reflexivity].
    exfalso. exact (Hf (list_elem_of_lookup_2 _ _ _ Hi)).
  - f_equal. apply IH; [exact Hnd|].
    apply elem_of_cons in Hk as [->|Hk]; [exfalso; exact (Hne eq_refl)|exact Hk].
Qed.

Lemma set_set {V} (o : list (string * V)) k a b : set (set o k a) k b = set o k b.
Proof.
  induction o as [|[k0 v0] o IH]; cbn [set].
  - rewrite String.eqb_refl. reflexivity.
  - destruct (String.eqb k0 k) eqn:E; cbn [set]; rewrite E; [reflexivity|].
    rewrite IH. reflexivity.
Qed.

Lemma filter_no_file (f : string) (stats : list BranchHit) :
  f ∉ file <$> stats → List.filter (in_file f) stats = [].
Proof.
  induction stats as [|b stats IH]; [reflexivity|]. rewrite fmap_cons. intros H.
  cbn [List.filter]. unfold in_file at 1.
  destruct (String.eqb_spec (file b) f) as [E|_]; [exfalso; apply H; rewrite E; left|].
  apply IH. intros H'. apply H. right. exact H'.
Qed.

(** The table of groups holds the files in the order of their first record,
    each with the points of its records in the order of the table. *)
Lemma groups_table (stats : list BranchHit) :
  foldl (group None) [] stats
  = (λ f, (f, point <$> List.filter (in_file f) stats)) <$> CoveragePanel.files stats.
Proof.
  induction stats as [|b stats IH] using rev_ind; [reflexivity|].
  rewrite foldl_app. cbn [foldl]. rewrite IH, files_snoc. clear IH.
  assert (Hnd : NoDup (CoveragePanel.files stats)).
  { destruct (files_from [] stats NoDup_nil_2) as (more & Hf & Hn & _).
    unfold CoveragePanel.files. rewrite Hf. exact Hn. }
  set (fs := CoveragePanel.files stats) in *.
  set (v := λ f, point <$> List.filter (in_file f) stats).
  assert (Hv : ∀ f, point <$> List.filter (in_file f) (stats ++ [b])
                    = v f ++ (if String.eqb (file b) f then [point b] else [])).
  { intros f. rewrite List.filter_app, fmap_app. cbn [List.filter]. unfold in_file at 2.
    destruct (String.eqb (file b) f); reflexivity. }
  unfold group. cbn [selected]. rewrite get_keyed.
  destruct (existsb (String.eqb (file b)) fs) eqn:E.
  - apply existsb_eqb in E. rewrite decide_True by exact E.
    rewrite get_keyed, decide_True by exact E. cbn [default].
    change (from_option id [] (Some (v (file b)))) with (v (file b)).
    rewrite set_keyed by assumption.
    apply list_fmap_ext. intros i f _. rewrite Hv. f_equal.
    rewrite String.eqb_sym.
    destruct (String.eqb_spec (file b) f) as [->|]; [reflexivity|].
    rewrite app_nil_r. reflexivity.
  - assert (Hnot : file b ∉ fs).
    { intros H. apply existsb_eqb in H. congruence. }
    rewrite decide_False by exact Hnot.
    rewrite get_set, String.eqb_refl, set_set.
    change (default [] (Some []) ++ [point b]) with [point b].
    rewrite set_new by (rewrite get_keyed, decide_False by exact Hnot; reflexivity).
    rewrite fmap_app. f_equal.
    + apply list_fmap_ext. intros i f Hi. rewrite Hv. f_equal.
      destruct (String.eqb_spec (file b) f) as [<-|]; [|rewrite app_nil_r; reflexivity].
      exfalso. exact (Hnot (list_elem_of_lookup_2 _ _ _ Hi)).
    + cbn. rewrite Hv, String.eqb_refl. unfold v.
      rewrite filter_no_file by (rewrite <- files_elem; exact Hnot). reflexivity.
Qed.

End Heatmap.

(** X30. The points of the heat map: with a file selected they are the
    records of that file, one point each, in the order of the table; with
    no file selected (or the empty string) they are the records of all
    files, one point each, grouped by file: the points of one file after
    those of another, every file that has a record once, and within a file
    the points in the order of the table. Every point carries the hit rate
    of its record, a number from 0 to 1 that is 0 for a record without
    executions. *)
Theorem heatmapData_one_point_per_record (stats : list BranchHit) :
  (∀ f, f ≠ "" →
     BranchHeatmap.heatmapData stats (Some f)
     = BranchHeatmap.point <$> List.filter (in_file f) stats)
  ∧ (∃ fs, NoDup fs
           ∧ (∀ f, f ∈ fs ↔ ∃ b, b ∈ stats ∧ file b = f)
           ∧ BranchHeatmap.heatmapData stats None
             = concat ((λ f, BranchHeatmap.point <$> List.filter (in_file f) stats)
                         <$> fs))
  ∧ BranchHeatmap.heatmapData stats None ≡ₚ BranchHeatmap.point <$> stats
  ∧ BranchHeatmap.heatmapData stats (Some "") = BranchHeatmap.heatmapData stats None
  ∧ (∀ selectedFile p, p ∈ BranchHeatmap.heatmapData stats selectedFile →
       ∃ b, b ∈ stats ∧ p = BranchHeatmap.point b
            ∧ (0 <= BranchHeatmap.p_hitRate p)%Q
            ∧ (BranchHeatmap.p_hitRate p <= 1)%Q
            ∧ BranchHeatmap.p_executionCount p = (hitCount b + missCount b)%nat
            ∧ (BranchHeatmap.p_executionCount p = 0%nat
               → BranchHeatmap.p_hitRate p = 0%Q)).
Proof.
  assert (Hg : ∃ fs, NoDup fs
           ∧ (∀ f, f ∈ fs ↔ ∃ b, b ∈ stats ∧ file b = f)
           ∧ BranchHeatmap.heatmapData stats None
             = concat ((λ f, BranchHeatmap.point <$> List.filter (in_file f) stats)
                         <$> fs)).
  { set (v := λ f, BranchHeatmap.point <$> List.filter (in_file f) stats).
    set (T := (λ f, (f, v f)) <$> CoveragePanel.files stats).
    assert (Hkeys : (JsObject.entries T).*1 ≡ₚ CoveragePanel.files stats).
    { rewrite (JsObjectMore.entries_perm T). unfold T.
      rewrite <- list_fmap_compose.
      rewrite <- (list_fmap_id (CoveragePanel.files stats)) at 2.
      erewrite list_fmap_ext; [reflexivity|]. intros i f _. reflexivity. }
    exists (JsObject.entries T).*1. split; [|split].
    - rewrite Hkeys.
      destruct (files_from [] stats NoDup_nil_2) as (more & Hf & Hn & _).
      unfold CoveragePanel.files. rewrite Hf. exact Hn.
    - intros f. rewrite Hkeys, files_elem, list_elem_of_fmap. split.
      + intros (b & -> & Hb). exists b. split; [exact Hb|reflexivity].
      + intros (b & Hb & <-). exists b. split; [reflexivity|exact Hb].
    - unfold BranchHeatmap.heatmapData. cbn [BranchHeatmap.selected].
      rewrite groups_table. fold v T. unfold JsObject.values.
      f_equal. rewrite <- list_fmap_compose. apply Forall_fmap_ext, Forall_forall.
      intros e He. rewrite (JsObjectMore.entries_perm T) in He.
      apply list_elem_of_fmap in He as (f & -> & _). reflexivity. }
  assert (H1 : ∀ f, f ≠ "" →
             BranchHeatmap.heatmapData stats (Some f)
             = BranchHeatmap.point <$> List.filter (in_file f) stats).
  { intros f Hf. unfold BranchHeatmap.heatmapData, BranchHeatmap.selected.
    rewrite (proj2 (String.eqb_neq f "") Hf).
    rewrite (groups_selected f stats [] [] Hf) by (left; split; reflexivity).
    reflexivity. }
  assert (H2 : BranchHeatmap.heatmapData stats None ≡ₚ BranchHeatmap.point <$> stats).
  { unfold BranchHeatmap.heatmapData. cbn [BranchHeatmap.selected].
    unfold JsObject.values.
    rewrite (concat_perm _ _ (fmap_Permutation snd _ _ (JsObjectMore.entries_perm _))).
    rewrite groups_all. reflexivity. }
  split; [exact H1|]. split; [exact Hg|]. split; [exact H2|]. split; [reflexivity|].
  intros selectedFile p Hp.
  assert (Hb : ∃ b, b ∈ stats ∧ p = BranchHeatmap.point b).
  { destruct selectedFile as [f|].
    - destruct (String.eqb_spec f "") as [->|Hf].
      + change (p ∈ BranchHeatmap.heatmapData stats None) in Hp.
        rewrite H2 in Hp. apply list_elem_of_fmap in Hp as (b & -> & Hb).
        exists b. split; [exact Hb|reflexivity].
      + rewrite (H1 f Hf) in Hp. apply list_elem_of_fmap in Hp as (b & -> & Hb).
        apply elem_of_filter_stats in Hb as [Hb _].
        exists b. split; [exact Hb|reflexivity].
    - rewrite H2 in Hp. apply list_elem_of_fmap in Hp as (b & -> & Hb).
      exists b. split; [exact Hb|reflexivity]. }
  destruct Hb as (b & Hb & ->). exists b.
  destruct (point_rate b) as (H0 & Hle & Hz & Hc).
  split; [exact Hb|]. split; [reflexivity|]. split; [exact H0|].
  split; [exact Hle|]. split; [exact Hc|exact Hz].
Qed.

(** ** Rounding to double precision *)

Section Nearest.
Import Double.
Local Open Scope Z_scope.
Local Open Scope Q_scope.

Lemma pow2_pos e : 0 < pow2 e.
Proof.
  unfold pow2. destruct (Z.leb_spec 0 e).
  - unfold Qlt. change (0 < 2 ^ e * 1)%Z. rewrite Z.mul_1_r. apply Z.pow_pos_nonneg; lia.
  - reflexivity.
Qed.

Lemma pow2_add a b : pow2 (a + b) == pow2 a * pow2 b.
Proof.
  assert (P : ∀ j, (0 <= j)%Z → (0 < 2 ^ j)%Z) by (intros; apply Z.pow_pos_nonneg; lia).
  unfold pow2.
  destruct (Z.leb_spec 0 a), (Z.leb_spec 0 b), (Z.leb_spec 0 (a + b)); try lia;
    unfold Qeq, Qmult, inject_Z; cbn [Qnum Qden];
    rewrite ?Pos2Z.inj_mul, ?Z2Pos.id by (apply P; lia);
    rewrite ?Z.mul_1_l, ?Z.mul_1_r.
  all: rewrite <- ?Z.pow_add_r by lia; f_equal; lia.
Qed.

Lemma pow2_0 : pow2 0 == 1.
Proof. reflexivity. Qed.

Lemma pow2_ge_1 j : (0 <= j)%Z → 1 <= pow2 j.
Proof.
  intros H. unfold pow2. destruct (Z.leb_spec 0 j); [|lia].
  unfold Qle. cbn. rewrite Z.mul_1_r.
  assert (0 < 2 ^ j)%Z by (apply Z.pow_pos_nonneg; lia). lia.
Qed.

Lemma pow2_le a b : (a <= b)%Z → pow2 a <= pow2 b.
Proof.
  intros H. replace b with (a + (b - a))%Z by lia. rewrite pow2_add.
  rewrite <- (Qmult_1_r (pow2 a)) at 1.
  apply Qmult_le_l; [apply pow2_pos|apply pow2_ge_1; lia].
Qed.

Lemma pow2_whole j : (0 <= j)%Z → pow2 j = inject_Z (2 ^ j).
Proof. intros H. unfold pow2. destruct (Z.leb_spec 0 j); [reflexivity|lia]. Qed.

Lemma pow2_inv e : pow2 e * pow2 (- e) == 1.
Proof. rewrite <- pow2_add, Z.add_opp_diag_r. reflexivity. Qed.

Lemma inject_pos (n : Z) : (0 < n)%Z → 0 < inject_Z n.
Proof. intros H. unfold Qlt. cbn. lia. Qed.

(** [scaled] keeps the quotient. *)
Lemma scaled_ratio n d e :
  (0 < d)%Z →
  (0 < (scaled n d e).2)%Z
  ∧ inject_Z (scaled n d e).1 / inject_Z (scaled n d e).2
    == inject_Z n / inject_Z d / pow2 e.
Proof.
  intros Hd. unfold scaled.
  assert (Hd' : ¬ inject_Z d == 0) by (intros H; unfold Qeq in H; cbn in H; lia).
  pose proof (pow2_pos e) as Hp.
  assert (Hp' : ¬ pow2 e == 0) by (intros H; rewrite H in Hp; discriminate).
  destruct (Z.leb_spec 0 e); cbn [fst snd].
  - assert (H2 : (0 < 2 ^ e)%Z) by (apply Z.pow_pos_nonneg; lia).
    split; [lia|]. rewrite inject_Z_mult, <- (pow2_whole e) by lia.
    field. split; assumption.
  - split; [exact Hd|]. rewrite inject_Z_mult.
    assert (E : inject_Z (2 ^ (- e)) == / pow2 e).
    { rewrite <- (pow2_whole (- e)) by lia.
      apply (Qmult_inj_l _ _ (pow2 e)); [exact Hp'|].
      rewrite pow2_inv. field. exact Hp'. }
    rewrite E. field. split; assumption.
Qed.

(** The nearest whole number is within a half. *)
Lemma nearest_even_half a b :
  (0 < b)%Z →
  Qabs (inject_Z a / inject_Z b - inject_Z (nearest_even a b)) <= 1 # 2.
Proof.
  intros Hb. pose proof (Z.div_mod a b ltac:(lia)) as Hdm.
  pose proof (Z.mod_pos_bound a b Hb) as Hr.
  assert (Hq : inject_Z a / inject_Z b == inject_Z (a / b) + inject_Z (a mod b) / inject_Z b).
  { rewrite Hdm at 1. rewrite inject_Z_plus, inject_Z_mult. field.
    intros H. unfold Qeq in H. cbn in H. lia. }
  rewrite Hq. unfold nearest_even.
  set (q := (a / b)%Z) in *. set (r := (a mod b)%Z) in *. clearbody q r.
  pose proof (inject_pos b Hb) as Hbq.
  assert (Hrb : inject_Z r / inject_Z b == r # Z.to_pos b).
  { rewrite Qmake_Qdiv, Z2Pos.id by exact Hb. reflexivity. }
  rewrite Hrb. apply Qabs_Qle_condition.
  assert (Hpos : Z.pos (Z.to_pos b) = b) by (apply Z2Pos.id; exact Hb).
  destruct (Z.compare_spec (2 * r) b) as [He|Hl|Hg];
    [destruct (Z.even q)| |];
    rewrite ?inject_Z_plus;
    unfold Qle, Qminus, Qplus, Qopp, inject_Z; cbn [Qnum Qden];
    rewrite ?Pos.mul_1_r, ?Pos.mul_1_l, ?Pos2Z.inj_mul, ?Hpos; split; nia.
Qed.

(** A whole number within a half of [t] is as near to [t] as any. *)
Lemma half_nearest t (m j : Z) :
  Qabs (t - inject_Z m) <= 1 # 2 →
  Qabs (t - inject_Z m) <= Qabs (t - inject_Z j).
Proof.
  intros H. destruct (Z.eq_dec j m) as [->|Hne]; [apply Qle_refl|].
  apply Qabs_Qle_condition in H as [H1 H2].
  apply Qabs_Qle_condition.
  assert (Hd : inject_Z j <= inject_Z m - 1 ∨ inject_Z m + 1 <= inject_Z j).
  { destruct (Z.lt_ge_cases j m); [left|right];
      unfold Qle, Qminus, Qplus, Qopp, inject_Z; cbn; lia. }
  destruct Hd as [Hd|Hd].
  - rewrite (Qabs_pos (t - inject_Z j)) by lra. split; lra.
  - rewrite (Qabs_neg (t - inject_Z j)) by lra. split; lra.
Qed.

Lemma whole_bounds (n : Z) :
  (0 < n)%Z → pow2 (Z.log2 n) <= inject_Z n ∧ inject_Z n < pow2 (Z.log2 n + 1).
Proof.
  intros Hn. pose proof (Z.log2_spec n Hn) as [Hlo Hhi].
  pose proof (Z.log2_nonneg n) as H0.
  rewrite !pow2_whole by lia. split.
  - rewrite <- Zle_Qle. exact Hlo.
  - rewrite <- Zlt_Qlt. replace (Z.log2 n + 1)%Z with (Z.succ (Z.log2 n)) by lia. exact Hhi.
Qed.

(** The exponent found for a positive quotient is that of its leading bit. *)
Lemma leading_bit n d :
  (0 < n)%Z → (0 < d)%Z →
  let x := inject_Z n / inject_Z d in
  let k0 := (Z.log2 n - Z.log2 d)%Z in
  let k := if ((scaled n d k0).1 <? (scaled n d k0).2)%Z then (k0 - 1)%Z else k0 in
  pow2 k <= x ∧ x < pow2 (k + 1).
Proof.
  intros Hn Hd x k0 k.
  destruct (whole_bounds n Hn) as [Hn1 Hn2], (whole_bounds d Hd) as [Hd1 Hd2].
  pose proof (inject_pos d Hd) as Hdq. pose proof (inject_pos n Hn) as Hnq.
  assert (Hup : x < pow2 (k0 + 1)).
  { apply Qlt_shift_div_r; [exact Hdq|].
    apply Qlt_le_trans with (pow2 (Z.log2 n + 1)); [exact Hn2|].
    assert (E : pow2 (Z.log2 n + 1) == pow2 (k0 + 1) * pow2 (Z.log2 d)).
    { rewrite <- pow2_add. replace (k0 + 1 + Z.log2 d)%Z with (Z.log2 n + 1)%Z
        by (unfold k0; lia). reflexivity. }
    rewrite E. apply Qmult_le_l; [apply pow2_pos|exact Hd1]. }
  assert (Hlow : pow2 (k0 - 1) <= x).
  { apply Qle_shift_div_l; [exact Hdq|].
    apply Qle_trans with (pow2 (Z.log2 n)); [|exact Hn1].
    assert (E : pow2 (Z.log2 n) == pow2 (k0 - 1) * pow2 (Z.log2 d + 1)).
    { rewrite <- pow2_add. replace (k0 - 1 + (Z.log2 d + 1))%Z with (Z.log2 n)
        by (unfold k0; lia). reflexivity. }
    rewrite E. apply Qmult_le_l; [apply pow2_pos|apply Qlt_le_weak, Hd2]. }
  destruct (scaled_ratio n d k0 Hd) as [Hb Hr]. fold x in Hr.
  set (a := (scaled n d k0).1) in *. set (b := (scaled n d k0).2) in *.
  pose proof (inject_pos b Hb) as Hbq. pose proof (pow2_pos k0) as Hp.
  assert (Hx : x == inject_Z a / inject_Z b * pow2 k0).
  { rewrite Hr. field. intros H. rewrite H in Hp. discriminate. }
  unfold k. destruct (Z.ltb_spec a b) as [Hab|Hab].
  - replace (k0 - 1 + 1)%Z with k0 by lia. split; [exact Hlow|].
    rewrite Hx. rewrite <- (Qmult_1_l (pow2 k0)) at 2.
    apply Qmult_lt_r; [exact Hp|].
    apply Qlt_shift_div_r; [exact Hbq|]. rewrite Qmult_1_l, <- Zlt_Qlt. exact Hab.
  - split; [|exact Hup].
    rewrite Hx. rewrite <- (Qmult_1_l (pow2 k0)) at 1.
    apply Qmult_le_r; [exact Hp|].
    apply Qle_shift_div_l; [exact Hbq|]. rewrite Qmult_1_l, <- Zle_Qle. exact Hab.
Qed.

Lemma pow2_eq a b : a = b → pow2 a == pow2 b.
Proof. intros ->. reflexivity. Qed.

(** On the grid of the multiples of [2^e], the rounded quotient is nearest. *)
Lemma grid_nearest x t e (m j : Z) :
  x == t * pow2 e → Qabs (t - inject_Z m) <= 1 # 2 →
  Qabs (x - inject_Z m * pow2 e) <= Qabs (x - inject_Z j * pow2 e).
Proof.
  intros Hx Hm. pose proof (pow2_pos e) as Hp.
  assert (E : ∀ i : Z, x - inject_Z i * pow2 e == (t - inject_Z i) * pow2 e)
    by (intros i; rewrite Hx; ring).
  rewrite !E, !Qabs_Qmult, (Qabs_pos (pow2 e)) by (apply Qlt_le_weak, Hp).
  apply Qmult_le_r; [exact Hp|]. apply half_nearest, Hm.
Qed.

Lemma whole_between (m : Z) t (lo hi : Z) :
  Qabs (t - inject_Z m) <= 1 # 2 → inject_Z lo <= t → t < inject_Z hi →
  (lo <= m <= hi)%Z.
Proof.
  intros H Hlo Hhi. apply Qabs_Qle_condition in H as [H1 H2].
  assert (A : inject_Z lo - 1 < inject_Z m) by lra.
  assert (B : inject_Z m < inject_Z hi + 1) by lra.
  unfold Qlt, Qminus, Qplus, Qopp, inject_Z in A, B. cbn in A, B. lia.
Qed.

Lemma representable_opp y : representable y → representable (- y).
Proof.
  intros (m & e & Hm & He & Hy). exists (- m)%Z, e.
  split; [rewrite Z.abs_opp; exact Hm|]. split; [exact He|].
  rewrite Hy, inject_Z_opp. ring.
Qed.

Lemma representable_0 : representable 0.
Proof. exists 0%Z, 0%Z. split; [reflexivity|]. split; [lia|reflexivity]. Qed.

Lemma nearest_comp x x' y : x == x' → nearest x' y → nearest x y.
Proof.
  intros E [Hd Hn]. split; [exact Hd|]. intros z Hz. rewrite E. exact (Hn z Hz).
Qed.

Lemma nearest_opp x y : nearest x y → nearest (- x) (- y).
Proof.
  intros [Hd Hn]. split; [apply representable_opp, Hd|]. intros z Hz.
  assert (E : ∀ w, Qabs (- x - w) == Qabs (x - - w)).
  { intros w. rewrite <- (Qabs_opp (- x - w)). apply Qabs_wd. ring. }
  rewrite !E. assert (E' : - - y == y) by ring. rewrite E'.
  apply Hn, representable_opp, Hz.
Qed.

(** At a tie the whole number chosen is even. *)
Lemma nearest_even_tie a b :
  (0 < b)%Z →
  Qabs (inject_Z a / inject_Z b - inject_Z (nearest_even a b)) == 1 # 2 →
  Z.even (nearest_even a b) = true.
Proof.
  intros Hb. pose proof (Z.div_mod a b ltac:(lia)) as Hdm.
  pose proof (Z.mod_pos_bound a b Hb) as Hr.
  assert (Hq : inject_Z a / inject_Z b == inject_Z (a / b) + inject_Z (a mod b) / inject_Z b).
  { rewrite Hdm at 1. rewrite inject_Z_plus, inject_Z_mult. field.
    intros H. unfold Qeq in H. cbn in H. lia. }
  rewrite Hq. unfold nearest_even.
  set (q := (a / b)%Z) in *. set (r := (a mod b)%Z) in *. clearbody q r.
  assert (Hrb : inject_Z r / inject_Z b == r # Z.to_pos b).
  { rewrite Qmake_Qdiv, Z2Pos.id by exact Hb. reflexivity. }
  rewrite Hrb.
  assert (Hpos : Z.pos (Z.to_pos b) = b) by (apply Z2Pos.id; exact Hb).
  assert (Hlt : 0 <= r # Z.to_pos b ∧ (r # Z.to_pos b) < 1).
  { unfold Qle, Qlt. cbn [Qnum Qden]. rewrite Hpos. lia. }
  assert (Hhalf : (r # Z.to_pos b) == 1 # 2 → (2 * r)%Z = b).
  { unfold Qeq. cbn [Qnum Qden]. rewrite Hpos. lia. }
  destruct (Z.compare_spec (2 * r) b) as [He|Hl|Hg].
  - intros _. destruct (Z.even q) eqn:E; [exact E|].
    rewrite Z.add_1_r, Z.even_succ, <- Z.negb_even, E. reflexivity.
  - intros H. exfalso.
    assert (E : inject_Z q + (r # Z.to_pos b) - inject_Z q == r # Z.to_pos b) by ring.
    rewrite E, Qabs_pos in H by tauto. apply Hhalf in H. lia.
  - intros H. exfalso. rewrite inject_Z_plus in H.
    assert (E : inject_Z q + (r # Z.to_pos b) - (inject_Z q + inject_Z 1)
                == - (1 - (r # Z.to_pos b))).
    { change (inject_Z 1) with 1. ring. }
    rewrite E, Qabs_opp, Qabs_pos in H by lra.
    assert (H' : (r # Z.to_pos b) == 1 # 2) by lra.
    apply Hhalf in H'. lia.
Qed.

Lemma whole_apart (i j : Z) : i ≠ j → 1 <= Qabs (inject_Z i - inject_Z j).
Proof.
  intros H. unfold Qminus. rewrite <- inject_Z_opp, <- inject_Z_plus.
  change (Qabs (inject_Z (i + - j))) with (inject_Z (Z.abs (i + - j))).
  change 1 with (inject_Z 1). rewrite <- Zle_Qle. lia.
Qed.

(** Two whole numbers as near to [t], one of them within a half: [t] is half
    way between them and they are neighbours. *)
Lemma half_tie t (m j : Z) :
  Qabs (t - inject_Z m) <= 1 # 2 → j ≠ m →
  Qabs (t - inject_Z j) == Qabs (t - inject_Z m) →
  Qabs (t - inject_Z m) == 1 # 2 ∧ Qabs (inject_Z m - inject_Z j) == 1.
Proof.
  intros Hm Hne He.
  pose proof (whole_apart m j ltac:(congruence)) as Ha.
  assert (Hj : Qabs (t - inject_Z j) <= 1 # 2) by (rewrite He; exact Hm).
  apply Qabs_Qle_condition in Hm as [M1 M2].
  apply Qabs_Qle_condition in Hj as [J1 J2].
  destruct (Qlt_le_dec (inject_Z m - inject_Z j) 0) as [Hs|Hs].
  - rewrite (Qabs_neg (inject_Z m - inject_Z j)) in * by lra.
    assert (E1 : inject_Z j - inject_Z m == 1) by lra.
    assert (E2 : t - inject_Z m == 1 # 2) by lra.
    split; [rewrite E2; reflexivity|lra].
  - rewrite (Qabs_pos (inject_Z m - inject_Z j)) in * by lra.
    assert (E1 : inject_Z m - inject_Z j == 1) by lra.
    assert (E2 : t - inject_Z m == - (1 # 2)) by lra.
    split; [rewrite E2; reflexivity|lra].
Qed.

(** The rounding of a positive quotient: the nearest double, the even one at a
    tie, and no double from 2^1024 - 2^970 on. *)
Theorem round_pos_rounds n d :
  (0 < n)%Z → (0 < d)%Z →
  let x := inject_Z n / inject_Z d in
  match round_pos n d with
  | Some y => nearest x y ∧ even_at_tie x y ∧ x < pow2 1024 - pow2 970
  | None => pow2 1024 - pow2 970 <= x
  end.
Proof.
  intros Hn Hd x. unfold round_pos.
  pose proof (leading_bit n d Hn Hd) as Hk. cbv zeta in Hk. fold x in Hk.
  set (k := if ((scaled n d (Z.log2 n - Z.log2 d)).1
                <? (scaled n d (Z.log2 n - Z.log2 d)).2)%Z
            then (Z.log2 n - Z.log2 d - 1)%Z else (Z.log2 n - Z.log2 d)%Z) in *.
  destruct Hk as [Hlo Hhi].
  set (e := Z.max (k - 52) (-1074)).
  destruct (scaled_ratio n d e Hd) as [Hb Hr]. fold x in Hr.
  pose proof (nearest_even_half (scaled n d e).1 (scaled n d e).2 Hb) as Hm.
  set (m := nearest_even (scaled n d e).1 (scaled n d e).2) in *.
  rewrite Hr in Hm. set (t := x / pow2 e) in *.
  pose proof (pow2_pos e) as Hp.
  assert (Hp0 : ¬ pow2 e == 0) by (intros H; rewrite H in Hp; discriminate).
  assert (Hx : x == t * pow2 e) by (unfold t; field; exact Hp0).
  assert (Ht53 : t < inject_Z (2 ^ 53)).
  { unfold t. apply Qlt_shift_div_r; [exact Hp|].
    apply Qlt_le_trans with (pow2 (k + 1)); [exact Hhi|].
    rewrite <- (pow2_whole 53), <- pow2_add by lia. apply pow2_le. unfold e. lia. }
  assert (Ht0 : inject_Z 0 <= t).
  { unfold t. apply Qle_shift_div_l; [exact Hp|]. rewrite Qmult_0_l.
    apply Qle_trans with (pow2 k); [apply Qlt_le_weak, pow2_pos|exact Hlo]. }
  destruct (whole_between m t 0 (2 ^ 53) Hm Ht0 Ht53) as [Hm0 Hm53].
  assert (Hnormal : e = (k - 52)%Z → (2 ^ 52 <= m)%Z).
  { intros He.
    assert (Ht52 : inject_Z (2 ^ 52) <= t).
    { unfold t. apply Qle_shift_div_l; [exact Hp|].
      apply Qle_trans with (pow2 k); [|exact Hlo].
      rewrite <- (pow2_whole 52), <- pow2_add by lia.
      apply Qle_lteq. right. apply pow2_eq. lia. }
    destruct (whole_between m t (2 ^ 52) (2 ^ 53) Hm Ht52 Ht53) as [H _]. exact H. }
  assert (Hy : inject_Z m * pow2 e <= x + (1 # 2) * pow2 e
               ∧ x - (1 # 2) * pow2 e <= inject_Z m * pow2 e).
  { apply Qabs_Qle_condition in Hm as [H1 H2]. rewrite Hx. split.
    - assert (E : t * pow2 e + (1 # 2) * pow2 e == (t + (1 # 2)) * pow2 e) by ring.
      rewrite E. apply Qmult_le_r; [exact Hp|]. lra.
    - assert (E : t * pow2 e - (1 # 2) * pow2 e == (t - (1 # 2)) * pow2 e) by ring.
      rewrite E. apply Qmult_le_r; [exact Hp|]. lra. }
  destruct ((0 <=? e)%Z && (2 ^ 1024 <=? m * 2 ^ e)%Z) eqn:Eo.
  - (* too large *)
    apply andb_true_iff in Eo as [He0 Hbig].
    apply Z.leb_le in He0, Hbig.
    destruct (Z.le_gt_cases e 971) as [He|He].
    + assert (Hq : pow2 1024 <= inject_Z m * pow2 e).
      { rewrite (pow2_whole 1024), (pow2_whole e), <- inject_Z_mult, <- Zle_Qle by lia.
        exact Hbig. }
      assert (Hh : (1 # 2) * pow2 e <= pow2 970).
      { assert (E : pow2 e == 2 * pow2 (e - 1)).
        { rewrite <- (pow2_eq (1 + (e - 1)) e), pow2_add by lia. reflexivity. }
        rewrite E.
        assert (E' : (1 # 2) * (2 * pow2 (e - 1)) == pow2 (e - 1)) by ring.
        rewrite E'. apply pow2_le. lia. }
      destruct Hy as [Hy _]. lra.
    + apply Qle_trans with (pow2 1024).
      * pose proof (pow2_pos 970). lra.
      * apply Qle_trans with (pow2 k); [apply pow2_le; unfold e in He; lia|exact Hlo].
  - (* a double *)
    apply andb_false_iff in Eo.
    assert (He971 : (e <= 971)%Z).
    { destruct (Z.le_gt_cases e 971) as [H|H]; [exact H|exfalso].
      assert (He : e = (k - 52)%Z) by (unfold e in *; lia).
      specialize (Hnormal He).
      destruct Eo as [Eo|Eo]; [apply Z.leb_gt in Eo; lia|].
      apply Z.leb_gt in Eo.
      assert (H1 : (2 ^ 972 <= 2 ^ e)%Z) by (apply Z.pow_le_mono_r; lia).
      assert (H2 : (2 ^ 52 * 2 ^ 972 <= m * 2 ^ e)%Z)
        by (apply Z.mul_le_mono_nonneg; lia).
      rewrite <- Z.pow_add_r in H2 by lia. change (52 + 972)%Z with 1024%Z in H2. lia. }
    assert (Hem : (-1074 <= e)%Z) by (unfold e; lia).
    assert (Hgrid : ∀ z, representable z →
              (∃ j : Z, z == inject_Z j * pow2 e)
              ∨ (e = (k - 52)%Z ∧ z < pow2 k ∧ pow2 k == inject_Z (2 ^ 52) * pow2 e)).
    { intros z (m' & e' & Hm' & [He'1 He'2] & Hz).
      destruct (Z.le_gt_cases e e') as [Hee|Hee].
      - left. exists (m' * 2 ^ (e' - e))%Z.
        rewrite Hz, inject_Z_mult, <- (pow2_whole (e' - e)), <- Qmult_assoc,
          <- pow2_add by lia.
        apply Qmult_comp; [reflexivity|]. apply pow2_eq. lia.
      - right. assert (He : e = (k - 52)%Z) by (unfold e in *; lia).
        split; [exact He|]. split.
        + apply Qle_lt_trans with (Qabs z); [apply Qle_Qabs|].
          rewrite Hz, Qabs_Qmult, (Qabs_pos (pow2 e')) by (apply Qlt_le_weak, pow2_pos).
          apply Qlt_le_trans with (inject_Z (2 ^ 53) * pow2 e').
          * apply Qmult_lt_r; [apply pow2_pos|].
            change (Qabs (inject_Z m')) with (inject_Z (Z.abs m')).
            rewrite <- Zlt_Qlt. exact Hm'.
          * rewrite <- (pow2_whole 53), <- pow2_add by lia. apply pow2_le. lia.
        + rewrite <- (pow2_whole 52), <- pow2_add by lia. apply pow2_eq. lia. }
    assert (Egrid : ∀ i : Z, x - inject_Z i * pow2 e == (t - inject_Z i) * pow2 e)
      by (intros i; rewrite Hx; ring).
    split; [split|split].
    + destruct (Z.eq_dec m (2 ^ 53)%Z) as [Em|Nm].
      * exists (2 ^ 52)%Z, (e + 1)%Z. split; [rewrite Z.abs_eq; lia|]. split.
        -- split; [lia|].
           destruct (Z.le_gt_cases (e + 1) 971) as [H|H]; [exact H|exfalso].
           destruct Eo as [Eo|Eo]; [apply Z.leb_gt in Eo; lia|].
           apply Z.leb_gt in Eo. rewrite Em, <- Z.pow_add_r in Eo by lia.
           assert (H1 : (2 ^ 1024 <= 2 ^ (53 + e))%Z) by (apply Z.pow_le_mono_r; lia).
           lia.
        -- rewrite Em, (Z.add_comm e 1), pow2_add.
           change (inject_Z (2 ^ 53)) with (inject_Z (2 ^ 52) * pow2 1). ring.
      * exists m, e. split; [rewrite Z.abs_eq; lia|]. split; [lia|reflexivity].
    + intros z Hz. destruct (Hgrid z Hz) as [[j Ez]|(He & Hzk & Eg)].
      * rewrite Ez. apply (grid_nearest x t e m _ Hx Hm).
      * apply Qle_trans with (Qabs (x - inject_Z (2 ^ 52) * pow2 e)).
        -- apply (grid_nearest x t e m _ Hx Hm).
        -- rewrite <- Eg. rewrite (Qabs_pos (x - pow2 k)) by lra.
           rewrite (Qabs_pos (x - z)) by lra. lra.
    + (* ties *)
      intros z Hz Hne Htie. destruct (Hgrid z Hz) as [[j Ez]|(He & Hzk & Eg)].
      * assert (Hjm : j ≠ m) by (intros ->; apply Hne; exact Ez).
        assert (Ht : Qabs (t - inject_Z j) == Qabs (t - inject_Z m)).
        { rewrite Ez, !Egrid, !Qabs_Qmult in Htie.
          apply Qmult_inj_r in Htie; [exact Htie|].
          rewrite Qabs_pos by (apply Qlt_le_weak, Hp). exact Hp0. }
        destruct (half_tie t m j Hm Hjm Ht) as [Hhalf Hone].
        assert (Hev : Z.even m = true).
        { apply nearest_even_tie; [exact Hb|]. rewrite Hr. exact Hhalf. }
        apply Z.even_spec in Hev as [i Hi]. exists i. rewrite <- Hi, Ez.
        assert (E : inject_Z m * pow2 e - inject_Z j * pow2 e
                    == (inject_Z m - inject_Z j) * pow2 e) by ring.
        rewrite E, Qabs_Qmult, Hone, Qmult_1_l, Qabs_pos by (apply Qlt_le_weak, Hp).
        reflexivity.
      * exfalso. specialize (Hnormal He).
        rewrite (Qabs_pos (x - z)) in Htie by lra.
        destruct (Qlt_le_dec x (inject_Z m * pow2 e)) as [Hxy|Hxy].
        -- rewrite (Qabs_neg (x - inject_Z m * pow2 e)) in Htie by lra.
           assert (Hm1 : inject_Z (2 ^ 52) + 1 <= inject_Z m).
           { destruct (Z.eq_dec m (2 ^ 52)%Z) as [Em|Nm].
             - exfalso. rewrite Em, <- Eg in Hxy. lra.
             - change 1 with (inject_Z 1). rewrite <- inject_Z_plus, <- Zle_Qle. lia. }
           assert (Hy1 : pow2 k + pow2 e <= inject_Z m * pow2 e).
           { rewrite Eg.
             assert (E : inject_Z (2 ^ 52) * pow2 e + pow2 e
                         == (inject_Z (2 ^ 52) + 1) * pow2 e) by ring.
             rewrite E. apply Qmult_le_r; [exact Hp|exact Hm1]. }
           destruct Hy as [Hy1' Hy2']. lra.
        -- rewrite (Qabs_pos (x - inject_Z m * pow2 e)) in Htie by lra.
           apply Hne. lra.
    + (* below the largest *)
      destruct (Z.le_gt_cases e 970) as [He|He].
      * apply Qlt_le_trans with (pow2 (k + 1)); [exact Hhi|].
        apply Qle_trans with (pow2 1023); [apply pow2_le; unfold e in *; lia|].
        assert (E : pow2 1024 == pow2 1023 + pow2 1023).
        { rewrite <- (pow2_eq (1 + 1023) 1024), pow2_add by lia.
          change (pow2 1) with 2. ring. }
        rewrite E. pose proof (pow2_le 970 1023 ltac:(lia)). lra.
      * assert (He' : e = 971%Z) by lia.
        destruct Eo as [Eo|Eo]; [apply Z.leb_gt in Eo; lia|].
        apply Z.leb_gt in Eo.
        assert (Hmlt : (m < 2 ^ 53)%Z).
        { destruct (Z.lt_ge_cases m (2 ^ 53)%Z) as [H|H]; [exact H|exfalso].
          assert (H2 : (2 ^ 53 * 2 ^ e <= m * 2 ^ e)%Z)
            by (apply Z.mul_le_mono_nonneg_r; [apply Z.pow_nonneg|]; lia).
          rewrite <- Z.pow_add_r in H2 by lia.
          assert (H1 : (2 ^ 1024 <= 2 ^ (53 + e))%Z) by (apply Z.pow_le_mono_r; lia).
          lia. }
        assert (Htlt : t < inject_Z (2 ^ 53) - (1 # 2)).
        { destruct (Qlt_le_dec t (inject_Z (2 ^ 53) - (1 # 2))) as [H|H]; [exact H|exfalso].
          assert (Hmq : inject_Z m <= inject_Z (2 ^ 53) - 1).
          { change 1 with (inject_Z 1). unfold Qminus.
            rewrite <- inject_Z_opp, <- inject_Z_plus, <- Zle_Qle. lia. }
          assert (Hhalf : Qabs (t - inject_Z m) == 1 # 2).
          { apply Qabs_Qle_condition in Hm as [H1 H2].
            rewrite Qabs_pos by lra. lra. }
          assert (Em : m = (2 ^ 53 - 1)%Z).
          { apply Qabs_Qle_condition in Hm as [H1 H2].
            assert (Hge : inject_Z (2 ^ 53) - 1 <= inject_Z m) by lra.
            change 1 with (inject_Z 1) in Hge. unfold Qminus in Hge.
            rewrite <- inject_Z_opp, <- inject_Z_plus, <- Zle_Qle in Hge. lia. }
          assert (Hev : Z.even m = true).
          { apply nearest_even_tie; [exact Hb|]. rewrite Hr. exact Hhalf. }
          rewrite Em in Hev. discriminate Hev. }
        rewrite Hx.
        assert (E : pow2 1024 - pow2 970 == (inject_Z (2 ^ 53) - (1 # 2)) * pow2 e).
        { rewrite He'. rewrite (pow2_whole 1024), (pow2_whole 970), (pow2_whole 971) by lia.
          unfold Qeq. vm_compute. reflexivity. }
        rewrite E. apply Qmult_lt_r; [exact Hp|exact Htlt].
Qed.

Lemma even_at_tie_comp x x' y : x == x' → even_at_tie x' y → even_at_tie x y.
Proof.
  intros E H z Hz Hne Ht. apply (H z Hz Hne). rewrite <- E. exact Ht.
Qed.

Lemma even_at_tie_opp x y : even_at_tie x y → even_at_tie (- x) (- y).
Proof.
  intros H z Hz Hne Ht.
  assert (E : ∀ a b, Qabs (- a - b) == Qabs (a - - b)).
  { intros a b. rewrite <- (Qabs_opp (- a - b)). apply Qabs_wd. ring. }
  destruct (H (- z)) as [j Hj].
  - apply representable_opp, Hz.
  - intros Hzy. apply Hne. rewrite <- Hzy. ring.
  - rewrite <- E, Ht, E. apply Qabs_wd. ring.
  - exists (- j)%Z. rewrite E, Hj.
    replace (2 * - j)%Z with (- (2 * j))%Z by lia. rewrite inject_Z_opp.
    rewrite <- Hj. rewrite Hj at 1. ring.
Qed.

Lemma rounds_comp x x' o : x == x' → rounds x' o → rounds x o.
Proof.
  intros E. destruct o as [y|]; cbn [rounds].
  - intros (Hn & Ht & Hb). split; [exact (nearest_comp _ _ _ E Hn)|].
    split; [exact (even_at_tie_comp _ _ _ E Ht)|]. rewrite E. exact Hb.
  - intros H. rewrite E. exact H.
Qed.

(** [fl] is the rounding to the nearest double, ties to the even one. *)
Theorem fl_rounds x : rounds x (fl x).
Proof.
  unfold fl. pose proof (Qred_correct x) as Hx.
  destruct (Qred x) as [n d]. cbn [Qnum Qden].
  assert (Hq : ∀ p : positive, Z.pos p # d == inject_Z (Z.pos p) / inject_Z (Z.pos d))
    by (intros p; apply Qmake_Qdiv).
  assert (Hpos : ∀ p : positive, 0 <= inject_Z (Z.pos p) / inject_Z (Z.pos d)).
  { intros p. rewrite <- Hq. unfold Qle. cbn. lia. }
  destruct n as [|p|p].
  - assert (E : x == 0) by (rewrite <- Hx; reflexivity).
    apply (rounds_comp _ _ _ E). split; [|split].
    + split; [apply representable_0|]. intros z _. apply Qabs_nonneg.
    + intros z _ Hne Ht. exfalso. apply Hne.
      assert (E0 : Qabs (0 - 0) == 0) by reflexivity. rewrite E0 in Ht.
      destruct (Qabs_Qle_condition (0 - z) 0) as [H _].
      destruct H as [H1 H2]; [rewrite Ht; apply Qle_refl|]. lra.
    + reflexivity.
  - pose proof (round_pos_rounds (Z.pos p) (Z.pos d) eq_refl eq_refl) as H.
    cbv zeta in H.
    assert (E : x == inject_Z (Z.pos p) / inject_Z (Z.pos d))
      by (rewrite <- Hx; apply Hq).
    apply (rounds_comp _ _ _ E).
    destruct (round_pos (Z.pos p) (Z.pos d)) as [y|]; cbn [rounds fmap option_fmap option_map].
    + destruct H as (Hn & Ht & Hb). split; [exact Hn|]. split; [exact Ht|].
      rewrite Qabs_pos by apply Hpos. exact Hb.
    + rewrite Qabs_pos by apply Hpos. exact H.
  - pose proof (round_pos_rounds (Z.pos p) (Z.pos d) eq_refl eq_refl) as H.
    cbv zeta in H.
    assert (E : x == - (inject_Z (Z.pos p) / inject_Z (Z.pos d))).
    { rewrite <- Hx, <- Hq. reflexivity. }
    apply (rounds_comp _ _ _ E).
    destruct (round_pos (Z.pos p) (Z.pos d)) as [y|]; cbn [rounds fmap option_fmap option_map].
    + destruct H as (Hn & Ht & Hb). split; [apply nearest_opp, Hn|].
      split; [apply even_at_tie_opp, Ht|].
      rewrite Qabs_opp, Qabs_pos by apply Hpos. exact Hb.
    + rewrite Qabs_opp, Qabs_pos by apply Hpos. exact H.
Qed.

(** The rounding is determined: a number has one nearest double that is even
    at a tie. *)
Theorem rounds_unique x y y' :
  rounds x (Some y) → rounds x (Some y') → y == y'.
Proof.
  intros ([Hd Hn] & Ht & _) ([Hd' Hn'] & Ht' & _).
  destruct (Qeq_dec y y') as [E|Hne]; [exact E|exfalso].
  assert (Hsame : Qabs (x - y') == Qabs (x - y)).
  { apply Qle_antisym; [apply Hn', Hd|apply Hn, Hd']. }
  destruct (Ht y' Hd') as [j Hj]; [intros H; apply Hne; symmetry; exact H|exact Hsame|].
  destruct (Ht' y Hd) as [j' Hj']; [exact Hne|symmetry; exact Hsame|].
  assert (Ed : Qabs (y' - y) == Qabs (y - y')).
  { rewrite <- (Qabs_opp (y' - y)). apply Qabs_wd. ring. }
  rewrite Ed in Hj'. set (g := Qabs (y - y')) in *.
  assert (Hg : 0 < g).
  { destruct (Qlt_le_dec 0 g) as [H|H]; [exact H|exfalso]. apply Hne.
    pose proof (Qabs_nonneg (y - y')) as H0. fold g in H0.
    assert (E0 : g == 0) by lra.
    destruct (Qabs_Qle_condition (y - y') 0) as [H1 _].
    destruct H1 as [H1 H2]; [fold g; rewrite E0; apply Qle_refl|]. lra. }
  assert (Hdiff : y - y' == inject_Z (2 * (j - j')) * g).
  { rewrite Hj at 1. rewrite Hj' at 1.
    rewrite <- Qmult_minus_distr_l' || idtac.
    replace (2 * (j - j'))%Z with (2 * j + - (2 * j'))%Z by lia.
    rewrite inject_Z_plus, inject_Z_opp. ring. }
  assert (Habs : g == inject_Z (Z.abs (2 * (j - j'))) * g).
  { unfold g at 1. rewrite Hdiff, Qabs_Qmult, (Qabs_pos g) by lra. reflexivity. }
  assert (Hone : inject_Z (Z.abs (2 * (j - j'))) == 1).
  { apply (Qmult_inj_r _ _ g); [lra|]. rewrite <- Habs. ring. }
  unfold Qeq in Hone. cbn in Hone. lia.
Qed.

(** What rounds to a double, [fl] rounds to it. *)
Lemma rounds_fl x y : rounds x (Some y) → ∃ y', fl x = Some y' ∧ y' == y.
Proof.
  intros H. pose proof (fl_rounds x) as Hf. destruct (fl x) as [y'|].
  - exists y'. split; [reflexivity|]. exact (rounds_unique x y' y Hf H).
  - exfalso. destruct H as (_ & _ & Hb). cbn [rounds] in Hf. lra.
Qed.

End Nearest.

(** ** The sampling gate in double precision *)

Section Rounding.
Local Open Scope Q_scope.

Lemma fl_eq x y : x == y → Double.fl x = Double.fl y.
Proof. intros H. unfold Double.fl. rewrite (Qred_complete x y H). reflexivity. Qed.

Lemma fl_zero x : x == 0 → Double.fl x = Some 0.
Proof. intros H. rewrite (fl_eq x 0 H). reflexivity. Qed.

Lemma fl_one x : x == 1 → ∃ y, Double.fl x = Some y ∧ y == 1.
Proof.
  intros H. rewrite (fl_eq x 1 H). eexists. split; [vm_compute; reflexivity|].
  reflexivity.
Qed.

Lemma Qred_whole (c : Z) : Qred (inject_Z c) = inject_Z c.
Proof.
  pose proof (Qred_correct (inject_Z c)) as He.
  pose proof (gcd_Qred (inject_Z c)) as Hg.
  destruct (Qred (inject_Z c)) as [a b].
  unfold Qeq, inject_Z in *. cbn [Qnum Qden] in *. rewrite Z.mul_1_r in He.
  assert (Hb : Z.pos b = 1%Z).
  { rewrite He, Z.gcd_comm, Z.mul_comm, Z.gcd_mul_diag_l in Hg by lia. exact Hg. }
  injection Hb as ->. rewrite Z.mul_1_r in He. rewrite He. reflexivity.
Qed.

(** The rounding at some numbers: 0.01, a third and a tenth below zero are
    rounded in the last place; above 2^53 every second whole number is a
    double, and a tie goes to the even one; the smallest double is 2^-1074,
    and half of it is rounded to 0; 2^1024 is too large. *)
Lemma fl_samples :
  forallb
    (λ t : Q * option Q,
       match Double.fl t.1, t.2 with
       | Some y, Some z => Qeq_bool y z
       | None, None => true
       | _, _ => false
       end)
    [(1 # 100, Some (5764607523034235 # 576460752303423488));
     (1 # 3, Some (6004799503160661 # 18014398509481984));
     (- (1 # 10), Some (- (3602879701896397 # 36028797018963968)));
     (1000 # 3, Some (5864062014805333 # 17592186044416));
     (401 * (5764607523034235 # 576460752303423488),
      Some (2257429313219461 # 562949953421312));
     (inject_Z (2 ^ 53 + 1), Some (inject_Z (2 ^ 53)));
     (inject_Z (2 ^ 53 + 3), Some (inject_Z (2 ^ 53 + 4)));
     (1 # 2 ^ 1074, Some (1 # 2 ^ 1074));
     (1 # 2 ^ 1075, Some 0);
     (3 # 2 ^ 1075, Some (1 # 2 ^ 1073));
     (inject_Z (2 ^ 1024 - 2 ^ 971), Some (inject_Z (2 ^ 1024 - 2 ^ 971)));
     (inject_Z (2 ^ 1024 - 2 ^ 970), None);
     (inject_Z (2 ^ 1024), None)]
  = true.
Proof. vm_compute. reflexivity. Qed.

(** A whole number below 2^53 is a double. *)
Lemma fl_whole (c : Z) :
  (0 < c < 2 ^ 53)%Z → ∃ y, Double.fl (inject_Z c) = Some y ∧ y == inject_Z c.
Proof.
  intros [Hpos Hlt]. unfold Double.fl.
  rewrite Qred_whole. cbn [Qnum Qden inject_Z].
  destruct c as [|n|n]; try lia.
  unfold Double.round_pos. change (Z.log2 1) with 0%Z. rewrite Z.sub_0_r.
  set (c := Z.pos n) in *.
  pose proof (Z.log2_spec c Hpos) as [Hlo Hhi].
  pose proof (Z.log2_nonneg c) as Hk.
  assert (Hk52 : (Z.log2 c < 53)%Z) by (apply Z.log2_lt_pow2; lia).
  set (k := Z.log2 c) in *.
  assert (Hs : Double.scaled c 1 k = (c, 1 * 2 ^ k)%Z).
  { unfold Double.scaled. destruct (Z.leb_spec 0%Z k); [reflexivity|lia]. }
  rewrite Hs. cbn [fst snd].
  destruct (Z.ltb_spec c (1 * 2 ^ k)%Z); [lia|].
  assert (He : Z.max (k - 52) (-1074) = (k - 52)%Z) by lia.
  rewrite He. set (j := (52 - k)%Z).
  assert (Hj : (0 <= j)%Z) by (unfold j; lia).
  destruct (Z.eq_dec k 52%Z) as [Hk0|Hk0].
  - assert (E : (k - 52 = 0)%Z) by lia. rewrite E.
    cbn [Double.scaled Z.leb Z.compare fst snd andb].
    unfold Double.nearest_even. rewrite Z.mul_1_l, Z.pow_0_r, Z.mod_1_r, Z.div_1_r.
    change (2 * 0 ?= 1)%Z with Lt. cbv iota. rewrite Z.mul_1_r.
    destruct (Z.leb_spec (2 ^ 1024)%Z c) as [Hbig|_].
    + exfalso. assert ((2 ^ 53 < 2 ^ 1024)%Z) by (apply Z.pow_lt_mono_r; lia). lia.
    + eexists. split; [reflexivity|]. unfold Double.pow2. cbn [Z.leb Z.compare].
      rewrite Z.pow_0_r. ring.
  - assert (Hneg : (k - 52 < 0)%Z) by lia.
    assert (Hs2 : Double.scaled c 1 (k - 52) = (c * 2 ^ j, 1)%Z).
    { unfold Double.scaled. destruct (Z.leb_spec 0%Z (k - 52)%Z); [lia|].
      replace (- (k - 52))%Z with j by (unfold j; lia). reflexivity. }
    rewrite Hs2. cbn [fst snd].
    unfold Double.nearest_even. rewrite Z.mod_1_r, Z.div_1_r.
    change (2 * 0 ?= 1)%Z with Lt. cbv iota.
    destruct (Z.leb_spec 0%Z (k - 52)%Z); [lia|]. cbn [andb].
    eexists. split; [reflexivity|]. unfold Double.pow2.
    destruct (Z.leb_spec 0%Z (k - 52)%Z); [lia|].
    assert (Hp : (0 < 2 ^ j)%Z) by (apply Z.pow_pos_nonneg; lia).
    replace (- (k - 52))%Z with j by (unfold j; lia).
    unfold Qeq, Qmult, inject_Z. cbn [Qnum Qden].
    rewrite Pos.mul_1_l, Z2Pos.id by exact Hp. ring.
Qed.

(** The whole part that [% 1] removes is the one towards zero. *)
Lemma Qtrunc_spec p :
  (0 <= p → inject_Z (Js.Qtrunc p) <= p ∧ p < inject_Z (Js.Qtrunc p) + 1)
  ∧ (p < 0 → inject_Z (Js.Qtrunc p) - 1 < p ∧ p <= inject_Z (Js.Qtrunc p)).
Proof.
  unfold Js.Qtrunc. destruct (Js.Qltb p 0) eqn:E.
  - apply Qltb_lt in E. split; [intros H; exfalso; exact (Qlt_not_le _ _ E H)|].
    intros _. split; [|apply Qle_ceiling].
    pose proof (Qceiling_lt p) as H. unfold Z.sub in H.
    rewrite inject_Z_plus in H. exact H.
  - split.
    + intros _. split; [apply Qfloor_le|].
      pose proof (Qlt_floor p) as H. rewrite inject_Z_plus in H. exact H.
    + intros H. apply Qltb_lt in H. congruence.
Qed.

Lemma Qtrunc_unique p (k : Z) :
  (0 <= p → inject_Z k <= p ∧ p < inject_Z k + 1) →
  (p < 0 → inject_Z k - 1 < p ∧ p <= inject_Z k) →
  k = Js.Qtrunc p.
Proof.
  intros Hpos Hneg. destruct (Qtrunc_spec p) as [Tpos Tneg].
  set (t := Js.Qtrunc p) in *.
  destruct (Qlt_le_dec p 0) as [Hp|Hp].
  - destruct (Hneg Hp) as [H1 H2], (Tneg Hp) as [H3 H4].
    assert (Ha : inject_Z k - 1 < inject_Z t) by (eapply Qlt_le_trans; eassumption).
    assert (Hb : inject_Z t - 1 < inject_Z k) by (eapply Qlt_le_trans; eassumption).
    unfold Qlt, Qminus, Qplus, Qopp, inject_Z in Ha, Hb. cbn in Ha, Hb. lia.
  - destruct (Hpos Hp) as [H1 H2], (Tpos Hp) as [H3 H4].
    assert (Ha : inject_Z k < inject_Z t + 1) by (eapply Qle_lt_trans; eassumption).
    assert (Hb : inject_Z t < inject_Z k + 1) by (eapply Qle_lt_trans; eassumption).
    unfold Qlt, Qplus, inject_Z in Ha, Hb. cbn in Ha, Hb. lia.
Qed.

(** The remainder by 1 is below [r] exactly when the number, less its whole
    part towards zero, is. *)
Lemma rem1_below p r :
  Js.Qltb (Js.rem1 p) r = true
  ↔ ∃ k : Z,
      (0 <= p → inject_Z k <= p ∧ p < inject_Z k + 1)
      ∧ (p < 0 → inject_Z k - 1 < p ∧ p <= inject_Z k)
      ∧ p - inject_Z k < r.
Proof.
  rewrite Qltb_lt. unfold Js.rem1. split.
  - intros H. exists (Js.Qtrunc p). destruct (Qtrunc_spec p) as [Hp Hn].
    split; [exact Hp|]. split; [exact Hn|exact H].
  - intros (k & Hp & Hn & H). rewrite <- (Qtrunc_unique p k Hp Hn). exact H.
Qed.

(** Where neither the rate nor the product is rounded, the gate in double
    precision is the gate in exact numbers. *)
Lemma shouldSample_exact s r p :
  Double.fl (sampleRate (samplingConfig s)) = Some r →
  r == sampleRate (samplingConfig s) →
  Double.fl (inject_Z (Z.of_nat (S (sampleCounter s))) * r) = Some p →
  p == inject_Z (Z.of_nat (S (sampleCounter s))) * r →
  Double.shouldSample s = shouldSample s.
Proof.
  intros Hr Er Hp Ep. unfold Double.shouldSample, shouldSample.
  cbn [samplingConfig sampleCounter set_sampleCounter]. rewrite Hr, Hp.
  f_equal. apply Qltb_comp; [|exact Er].
  apply rem1_comp. rewrite Ep, Er. reflexivity.
Qed.

End Rounding.

(** C7. The sampling gate counts its evaluations, and with the counter [c]
    after the increment and the rate [r] it lets the event through exactly
    when [(c * r) mod 1 < r], in the arithmetic of the program: [r] is the
    double that stands for the configured rate, [p] is the product of [c]
    and [r] rounded to a double (to the nearest, to the even one at a tie),
    [k] is the whole part of [p] towards zero, and [p - k] is compared with
    [r]. At rate 1 every event goes through (the counter being below 2^53, as
    a counter that goes up by one is), at rate 0 none does. *)
Theorem shouldSample_rounds_the_product s :
  let c := S (sampleCounter s) in
  let rate := sampleRate (samplingConfig s) in
  sampleCounter (Double.shouldSample s).2 = c
  ∧ ((Double.shouldSample s).1 = true
     ↔ ∃ r p (k : Z),
         Double.rounds rate (Some r)
         ∧ Double.rounds (inject_Z (Z.of_nat c) * r) (Some p)
         ∧ (0 <= p → inject_Z k <= p ∧ p < inject_Z k + 1)%Q
         ∧ (p < 0 → inject_Z k - 1 < p ∧ p <= inject_Z k)%Q
         ∧ (p - inject_Z k < r)%Q)
  ∧ ((rate == 1)%Q → (Z.of_nat c < 2 ^ 53)%Z → (Double.shouldSample s).1 = true)
  ∧ ((rate == 0)%Q → (Double.shouldSample s).1 = false).
Proof.
  intros c rate. unfold Double.shouldSample.
  cbn [fst snd samplingConfig sampleCounter set_sampleCounter]. fold c rate.
  split; [reflexivity|]. split; [|split].
  - split.
    + pose proof (fl_rounds rate) as Hr.
      destruct (Double.fl rate) as [r|]; [|discriminate].
      pose proof (fl_rounds (inject_Z (Z.of_nat c) * r)) as Hp.
      destruct (Double.fl (inject_Z (Z.of_nat c) * r)) as [p|]; [|discriminate].
      rewrite rem1_below. intros (k & H). exists r, p, k.
      split; [exact Hr|]. split; [exact Hp|exact H].
    + intros (r' & p' & k & Hr & Hp & Hpos & Hneg & Hlt).
      destruct (rounds_fl _ _ Hr) as (r & -> & Er).
      assert (Ex : (inject_Z (Z.of_nat c) * r == inject_Z (Z.of_nat c) * r')%Q)
        by (rewrite Er; reflexivity).
      destruct (rounds_fl _ _ (rounds_comp _ _ _ Ex Hp)) as (p & -> & Ep).
      apply rem1_below. exists k. rewrite Ep, Er.
      split; [exact Hpos|]. split; [exact Hneg|exact Hlt].
  - intros Hr Hc. destruct (fl_one rate Hr) as (r & -> & Er).
    destruct (fl_whole (Z.of_nat c)) as (p & Hp & Ep); [unfold c; lia|].
    assert (Ex : (inject_Z (Z.of_nat c) * r == inject_Z (Z.of_nat c))%Q)
      by (rewrite Er; ring).
    rewrite (fl_eq _ _ Ex), Hp.
    rewrite (Qltb_comp _ 0 r 1); [reflexivity| |exact Er].
    apply (rem1_integer _ (Z.of_nat c)); [lia|exact Ep].
  - intros Hr. rewrite (fl_zero rate Hr).
    assert (Ex : (inject_Z (Z.of_nat c) * 0 == 0)%Q) by ring.
    rewrite (fl_zero _ Ex). reflexivity.
Qed.

(** At the rate 0.01 and the counter 401 the product is rounded to the double
    just below 4.01, whose remainder by 1 is below the rate: the gate lets
    the event through. In exact numbers 401 times the rate is 4 and the
    rate, and the remainder is not below the rate, be the rate one hundredth
    or the double that stands for it. Of the first thousand events the gate
    lets sixteen through where the exact comparison lets ten. *)
Lemma shouldSample_accepts_401_at_one_percent :
  let s := set_sampleCounter 400 (new_collector (sampled_config (1 # 100)) "session") in
  (Double.shouldSample s).1 = true
  ∧ (shouldSample s).1 = false
  ∧ (401 * (1 # 100) == 4 + (1 # 100))%Q
  ∧ (∃ r, Double.fl (1 # 100) = Some r
          ∧ (inject_Z 4 <= 401 * r)%Q ∧ (401 * r < inject_Z 4 + 1)%Q
          ∧ ¬ (401 * r - inject_Z 4 < r)%Q)
  ∧ Double.accepted Double.shouldSample (1 # 100) 1000 = 16%nat
  ∧ Double.accepted shouldSample (1 # 100) 1000 = 10%nat.
Proof.
  intros s. split; [vm_compute; reflexivity|]. split; [vm_compute; reflexivity|].
  split; [reflexivity|]. split.
  - eexists. split; [vm_compute; reflexivity|].
    split; [vm_compute; discriminate|]. split; [vm_compute; reflexivity|].
    vm_compute. discriminate.
  - split; vm_compute; reflexivity.
Qed.
